(** * fund-app: the fetch / cache / concurrency layer

    Shallow embedding of the TypeScript module that the views import as
    [@/api/fundFast] (its text is the part of [src/views/Filter.vue] between
    the style sheet and the chart component) and verification of its cache
    invalidation, its concurrency limiter, its JSONP estimate channel, its
    fail-soft fetchers and its derived analytics.

    Conventions of the embedding.
    - The event loop is single threaded: every callback (a promise
      continuation, a timer, a script event, the JSONP handler) runs to
      completion.  Each callback is a total function on the program state;
      an interleaving is a list of events.
    - JavaScript numbers are modelled as exact rationals ([Q]); counters are
      integers ([Z]).  Rounding error of binary floating point is outside
      the model.
    - [Date.now()] and the outcome of a network request are inputs of the
      event that reads them. *)

From Stdlib Require Import ZArith QArith Qround Qabs Qminmax Lia Lqa Ascii.
From stdpp Require Import gmap strings list fin_maps pretty sorting.

Set Warnings "-register-all".
Local Open Scope Z_scope.

(** ** Small list helpers shared by the models *)

Section list_helpers.
Context {A : Type}.

(** [Array.prototype.findIndex] followed by [splice(index, 1)]: the first
    element that satisfies [p] is removed, and returned; [None] stands for
    index [-1]. *)
Fixpoint find_splice (p : A → bool) (l : list A) : option A * list A :=
  match l with
  | [] => (None, [])
  | x :: l' =>
      if p x then (Some x, l')
      else let '(r, k) := find_splice p l' in (r, x :: k)
  end.

(** Number of elements that satisfy [p]. *)
Fixpoint count_if (p : A → bool) (l : list A) : nat :=
  match l with
  | [] => 0%nat
  | x :: l' => ((if p x then 1 else 0) + count_if p l')%nat
  end.
End list_helpers.

(** ** Data model *)

(** [FundEstimate] ([@/types/fund]): the object that the estimate feed
    passes to [jsonpgz].  Only [fundcode] is read by this module; the other
    properties travel with the object. *)
Record FundEstimate := {
  fundcode : option string;
  properties : list (string * string)
}.

#[global] Instance FundEstimate_eq_dec : EqDecision FundEstimate.
Proof. solve_decision. Defined.

(** [NetValueRecord] ([@/types/fund]). *)
Record NetValueRecord := {
  date : string;
  netValue : Q;
  totalNetValue : Q;
  changeRate : Q
}.

Module SimpleKLineData.
Record t := { time : string; value : Q; change : Q }.
End SimpleKLineData.

Module PeriodReturn.
Record t := { period : string; label : string; days : Z; change : Q }.
End PeriodReturn.

(** ** Dates *)

(** [Date] values are milliseconds since the epoch.  The two conversions
    below are the proleptic Gregorian calendar of ECMAScript, written with
    the usual era arithmetic (an era is 400 years, 146097 days). *)
Definition msPerDay : Z := 86400000.

Definition days_from_civil (y m d : Z) : Z :=
  let y' := if bool_decide (m ≤ 2) then y - 1 else y in
  let era := y' `div` 400 in
  let yoe := y' - era * 400 in
  let mp := (m + 9) `mod` 12 in
  let doy := (153 * mp + 2) `div` 5 + d - 1 in
  let doe := yoe * 365 + yoe `div` 4 - yoe `div` 100 + doy in
  era * 146097 + doe - 719468.

Definition civil_from_days (z : Z) : Z * Z * Z :=
  let z := z + 719468 in
  let era := z `div` 146097 in
  let doe := z - era * 146097 in
  let yoe := (doe - doe `div` 1460 + doe `div` 36524 - doe `div` 146096) `div` 365 in
  let doy := doe - (365 * yoe + yoe `div` 4 - yoe `div` 100) in
  let mp := (5 * doy + 2) `div` 153 in
  let d := doy - (153 * mp + 2) `div` 5 + 1 in
  let m := if bool_decide (mp < 10) then mp + 3 else mp - 9 in
  let y := yoe + era * 400 in
  (if bool_decide (m ≤ 2) then y + 1 else y, m, d).

(** [String(n).padStart(2, '0')] for a month or a day of month. *)
Definition padStart2 (n : Z) : string :=
  if bool_decide (0 ≤ n < 10) then "0" +:+ pretty n else pretty n.

(** The date string built by [fetchNetValueHistoryFast] from a timestamp:
    [getFullYear], [getMonth() + 1] and [getDate] read the local time, which
    is [tz] milliseconds ahead of UTC. *)
Definition local_date_string (tz : Z) (x : Z) : string :=
  let '(y, m, d) := civil_from_days ((x + tz) `div` msPerDay) in
  pretty y +:+ "-" +:+ padStart2 m +:+ "-" +:+ padStart2 d.

Definition digit_of (a : ascii) : option Z :=
  let n := Z.of_nat (nat_of_ascii a) - 48 in
  if bool_decide (0 ≤ n ≤ 9) then Some n else None.

(** [new Date(s).getTime()] for the date-only ISO form [YYYY-MM-DD], which
    ECMAScript reads as midnight UTC; [None] is the invalid date. *)
Definition iso_date_parse (s : string) : option Z :=
  match String.list_ascii_of_string s with
  | [y1; y2; y3; y4; s1; m1; m2; s2; d1; d2] =>
      y1 ← digit_of y1; y2 ← digit_of y2; y3 ← digit_of y3; y4 ← digit_of y4;
      m1 ← digit_of m1; m2 ← digit_of m2; d1 ← digit_of d1; d2 ← digit_of d2;
      let y := 1000 * y1 + 100 * y2 + 10 * y3 + y4 in
      let m := 10 * m1 + m2 in
      let d := 10 * d1 + d2 in
      if Ascii.eqb s1 "-"%char && Ascii.eqb s2 "-"%char
         && bool_decide (1 ≤ m ≤ 12)
         && bool_decide (civil_from_days (days_from_civil y m d) = (y, m, d))
      then Some (days_from_civil y m d * msPerDay)
      else None
  | _ => None
  end.

(** ** Numbers *)

Definition Qltb (a b : Q) : bool := negb (Qle_bool b a).

(** [parseFloat(x.toFixed(2))]: the multiple of 1/100 nearest to [x], the
    one of larger magnitude on a tie.  [x] is an exact number here; the
    code rounds the outcome of its double arithmetic, which can lie on the
    other side of a tie. *)
Definition toFixed2 (x : Q) : Q :=
  let n := Qfloor (Qabs x * 100 + (1 # 2)) in
  (if Qltb x 0 then - n else n) # 100.

(** [v || 0] for a number that may be missing. *)
Definition or_zero (v : option Q) : Q := default (0 : Q) v.


(** ** The cache ([./cache]) and the persisted cache ([persistCache]) *)

(** Modelled from the spec: [CacheEntry] of the module [./cache], which is
    not part of the sources at hand.  An entry is stored under its key and
    holds a value and an expiry timestamp.  The cache is generic in the
    value [V]. *)
Record CacheEntry (V : Type) := { payload : V; expiry : Z }.
Arguments payload {V}.
Arguments expiry {V}.

Module cache.
Section cache.
Context {V : Type}.
Implicit Types (c : gmap string (CacheEntry V)).

(** Modelled from the spec: [cache.get] of [./cache].  Expiry is evaluated
    at read time: a read after expiry is a miss and removes the entry. *)
Definition get (now : Z) (key : string) c :
    option V * gmap string (CacheEntry V) :=
  match c !! key with
  | Some e =>
      if bool_decide (expiry e < now) then (None, base.delete key c)
      else (Some (payload e), c)
  | None => (None, c)
  end.

(** Modelled from the spec: [cache.set] of [./cache].  The entry is
    created, or overwritten, and expires [ttl] milliseconds from now. *)
Definition set (now : Z) (key : string) (v : V) (ttl : Z) c :
    gmap string (CacheEntry V) :=
  <[key := {| payload := v; expiry := now + ttl |}]> c.

(** Modelled from the spec: [cache.delete] of [./cache].  The contract
    is [delete(key)], and [delete] accepts key patterns that invalidate the
    variants of a logical entity: the entries whose key the pattern covers
    are removed.  Which keys a pattern covers is not said; [covers pattern
    key] is a parameter of the cache. *)
Definition delete (covers : string → string → bool) (pattern : string) c :
    gmap string (CacheEntry V) :=
  filter (λ entry, covers pattern entry.1 = false) c.

(** Modelled from the spec: [cache.clear] of [./cache]. *)
Definition clear c : gmap string (CacheEntry V) := ∅.
End cache.
End cache.

Module persistCache.
Section persist.
Context {V : Type}.

(** Modelled from the spec: [persistCache.get] of [./tiantianApi], which is
    not part of the sources at hand: the durable store has the read and
    write contract of the cache and no expiry of its own. *)
Definition get (key : string) (p : gmap string V) : option V := p !! key.

(** Modelled from the spec: [persistCache.set] of [./tiantianApi]. *)
Definition set (key : string) (v : V) (p : gmap string V) : gmap string V :=
  <[key := v]> p.
End persist.
End persistCache.

(** ** Untyped payloads *)

(** A JavaScript value received from the network ([any] in the source):
    the fetchers of market data read payloads of unknown shape. *)
Inductive jsval :=
| JUndefined
| JNull
| JBool (b : bool)
| JNum (q : Q)
| JNaN
| JStr (s : string)
| JArr (items : list jsval)
| JObj (props : list (string * jsval)).

Module MarketIndexSimple.
Record t := {
  code : jsval; name : jsval; current : jsval; change : jsval;
  changePercent : jsval
}.
End MarketIndexSimple.

Module FundRankItemSimple.
Record t := { code : jsval; name : jsval; netValue : jsval; dayChange : jsval }.
End FundRankItemSimple.

(** The numeric fields of a [GlobalIndex] are quotients [item.f / 100];
    [None] is [NaN]. *)
Module GlobalIndex.
Record t := {
  name : string; code : string; price : option Q; change : option Q;
  changePercent : option Q; region : string
}.
End GlobalIndex.

(** ** Cached values *)

(** The one cache of the module holds values of several types;
    [cache.get<T>] is an unchecked cast.  Every key prefix is written with
    one type only, so the typed views below never fail on a key of their
    own prefix; on a value of another type they answer as a miss. *)
Inductive cache_value :=
| CEstimate (e : FundEstimate)
| CNetValue (h : list NetValueRecord)
| CKLine (k : list SimpleKLineData.t)
| CPeriod (r : list PeriodReturn.t)
| CMarket (l : list MarketIndexSimple.t)
| CRanking (l : list FundRankItemSimple.t)
| CGlobal (l : list GlobalIndex.t).

Definition as_estimate (v : cache_value) : option FundEstimate :=
  match v with CEstimate e => Some e | _ => None end.
Definition as_netvalue (v : cache_value) : option (list NetValueRecord) :=
  match v with CNetValue h => Some h | _ => None end.
Definition as_kline (v : cache_value) : option (list SimpleKLineData.t) :=
  match v with CKLine k => Some k | _ => None end.
Definition as_period (v : cache_value) : option (list PeriodReturn.t) :=
  match v with CPeriod r => Some r | _ => None end.
Definition as_market (v : cache_value) : option (list MarketIndexSimple.t) :=
  match v with CMarket l => Some l | _ => None end.
Definition as_ranking (v : cache_value) : option (list FundRankItemSimple.t) :=
  match v with CRanking l => Some l | _ => None end.
Definition as_global (v : cache_value) : option (list GlobalIndex.t) :=
  match v with CGlobal l => Some l | _ => None end.

Abbreviation Cache := (gmap string (CacheEntry cache_value)).

(** [cache.get<T>(key)]. *)
Definition cache_get_as {T} (view : cache_value → option T)
    (now : Z) (key : string) (c : Cache) : option T * Cache :=
  ((cache.get now key c).1 ≫= view, (cache.get now key c).2).

(** [CACHE_TTL] of [./cache]: the time-to-live constants, in milliseconds.
    Their values are not part of the sources at hand; they are a parameter
    of the fetchers. *)
Record CacheTtl := {
  ESTIMATE : Z; NET_VALUE : Z; MARKET_INDEX : Z; FUND_INFO : Z
}.


(** ** Cache invalidation ([clearFundCache]) *)

(** Template literals: [`${prefix}_${code}`] and
    [`${prefix}_${code}_${days}`]. *)
Definition key2 (prefix code : string) : string := prefix +:+ "_" +:+ code.
Definition key3 (prefix code : string) (days : nat) : string :=
  prefix +:+ "_" +:+ code +:+ "_" +:+ pretty days.

Definition clear_prefixes : list string :=
  ["estimate"; "netvalue"; "kline"; "period"].
Definition clear_days : list nat := [30; 60; 90; 180; 365; 400]%nat.

(** [forEach] is a left fold over the state it mutates.  [covers] is what
    the key patterns of [cache.delete] cover. *)
Definition clearFundCache {V} (covers : string → string → bool)
    (code : string) (c : gmap string (CacheEntry V)) :
    gmap string (CacheEntry V) :=
  foldl (λ c prefix,
           let c := foldl (λ c days,
                             cache.delete covers (key3 prefix code days) c)
                          c clear_days in
           cache.delete covers (key2 prefix code) c)
        c clear_prefixes.

(** [clearAllCache]. *)
Definition clearAllCache {V} (c : gmap string (CacheEntry V)) :
    gmap string (CacheEntry V) :=
  cache.clear c.


(** ** The concurrency limiter ([withConcurrencyControl], [executeNext]) *)

Module Limiter.
Section limiter.
(** A task is the closure [fn] handed to [withConcurrencyControl]; [R] and
    [E] are the types of the values its promise fulfils or rejects with. *)
Context {Task R E : Type} `{!EqDecision Task}.

Definition MAX_CONCURRENT : Z := 5.

Inductive outcome := Fulfilled (r : R) | Failed (e : E).

(** [activeRequests] and [requestQueue] are the two module variables of
    the source.  The other fields record where every task stands:
    [running] holds the tasks whose [fn()] was called and whose promise is
    still pending, [awaiting] those whose promise has settled while the
    continuation of [await fn()] has not run yet, [returned] the
    [resolve]/[reject] calls made on the promises handed back to the
    callers.  [submitted] and [started] log the order of the calls of
    [withConcurrencyControl] and of [fn]. *)
Record state := State {
  activeRequests : Z;
  requestQueue : list Task;
  running : list Task;
  awaiting : list (Task * outcome);
  returned : list (Task * outcome);
  submitted : list Task;
  started : list Task
}.

Definition init : state := State 0 [] [] [] [] [] [].

(** The synchronous prefix of [execute]: [activeRequests++], then [fn()]
    is called and [await] suspends the closure. *)
Definition execute (t : Task) (s : state) : state :=
  State (activeRequests s + 1) (requestQueue s) (running s ++ [t])
        (awaiting s) (returned s) (submitted s) (started s ++ [t]).

(** [executeNext]: [shift] the oldest queued closure and call it.  The
    second component is the closure that was called, if any. *)
Definition executeNext (s : state) : state * option Task :=
  if bool_decide (0 < length (requestQueue s))%nat
     && bool_decide (activeRequests s < MAX_CONCURRENT)
  then
    match requestQueue s with
    | next :: rest =>
        (execute next (State (activeRequests s) rest (running s) (awaiting s)
                             (returned s) (submitted s) (started s)),
         Some next)
    | [] => (s, None)
    end
  else (s, None).

(** The executor of the promise built by [withConcurrencyControl]: the
    closure runs at once when a slot is free and is pushed on the queue
    otherwise. *)
Definition withConcurrencyControl (t : Task) (s : state) : state * option Task :=
  let s := State (activeRequests s) (requestQueue s) (running s) (awaiting s)
                 (returned s) (submitted s ++ [t]) (started s) in
  if bool_decide (activeRequests s < MAX_CONCURRENT) then (execute t s, Some t)
  else (State (activeRequests s) (requestQueue s ++ [t]) (running s)
              (awaiting s) (returned s) (submitted s) (started s), None).

Definition is_task (t : Task) : Task → bool := λ u, bool_decide (u = t).
Definition is_awaiting (t : Task) : Task * outcome → bool :=
  λ p, bool_decide (p.1 = t).

(** The promise returned by [fn()] settles: the task's own work is over.
    A promise settles once: later calls of its [resolve] or [reject] do
    nothing. *)
Definition settle (t : Task) (o : outcome) (s : state) : state :=
  if decide (t ∈ running s) then
    State (activeRequests s) (requestQueue s)
          (find_splice (is_task t) (running s)).2 (awaiting s ++ [(t, o)])
          (returned s) (submitted s) (started s)
  else s.

(** The rest of [execute] after [await]: [resolve(result)] or
    [reject(err)], then [finally { activeRequests--; executeNext() }]. *)
Definition resume (t : Task) (o : outcome) (s : state) : state * option Task :=
  executeNext
    (State (activeRequests s - 1) (requestQueue s) (running s)
           (find_splice (is_awaiting t) (awaiting s)).2
           (returned s ++ [(t, o)]) (submitted s) (started s)).

(** The outcome a settled task is waiting to hand over. *)
Definition settled_with (t : Task) (s : state) : option outcome :=
  snd <$> (find_splice (is_awaiting t) (awaiting s)).1.

(** Events of an interleaved execution.  A closure is submitted once; only
    a running task can settle; only a settled one can resume. *)
Inductive event :=
| Submit (t : Task)
| Settle (t : Task) (o : outcome)
| Resume (t : Task).

Definition step (e : event) (s : state) : option state :=
  match e with
  | Submit t =>
      if decide (t ∈ submitted s) then None
      else Some (withConcurrencyControl t s).1
  | Settle t o =>
      if decide (t ∈ running s) then Some (settle t o s) else None
  | Resume t =>
      match settled_with t s with
      | Some o => Some (resume t o s).1
      | None => None
      end
  end.

Fixpoint exec (evs : list event) (s : state) : option state :=
  match evs with
  | [] => Some s
  | e :: evs' =>
      match step e s with
      | Some s' => exec evs' s'
      | None => None
      end
  end.

(** The outcome handed to the caller of task [t], if any yet. *)
Definition result_of (t : Task) (s : state) : option outcome :=
  snd <$> (find_splice (is_awaiting t) (returned s)).1.

End limiter.
End Limiter.


(** ** The estimate channel ([fetchFundEstimateFast], [jsonpgz]) *)

Module Estimate.

(** The closure [fn] that [fetchFundEstimateFast] hands to the limiter, and
    the closures it creates in turn (the timer callback, [resolve] and
    [reject] of the pending record, [onerror]), all capture the same
    variables of the call: [code] (and [cacheKey], derived from it) and
    [persisted], the value read from the persisted cache when the call was
    made.  [call_id] tells one call from another; it also names the timer
    and the script element that the call creates. *)
Record Call := {
  call_id : nat;
  call_code : string;
  call_persisted : option FundEstimate
}.

#[global] Instance Call_eq_dec : EqDecision Call.
Proof. solve_decision. Defined.

(** [PendingRequest]: [resolve] and [reject] are closures of the call that
    pushed the record, [timeout] is the handle of its timer. *)
Module PendingRequest.
Record t := { code : string; resolve : Call; reject : Call; timeout : nat }.
End PendingRequest.

Abbreviation LimiterState :=
  (Limiter.state (Task:=Call) (R:=FundEstimate) (E:=string)).

(** The module variables ([cache], [persistCache], [pendingRequests],
    [jsonpInitialized], the limiter) and the part of the environment that
    the channel acts on: the timers that are armed, the script elements in
    [document.body], the scripts whose load is still in progress.
    [answered] logs the calls that were answered at once with
    [Promise.resolve]. *)
Record state := State {
  live : Cache;
  persist : gmap string FundEstimate;
  pendingRequests : list PendingRequest.t;
  jsonpInitialized : bool;
  limiter : LimiterState;
  timers : list nat;
  scripts : list nat;
  loading : list nat;
  answered : list (nat * FundEstimate)
}.

Definition init : state := State ∅ ∅ [] false Limiter.init [] [] [] [].

Definition set_live (v : Cache) (s : state) : state :=
  State v (persist s) (pendingRequests s) (jsonpInitialized s)
        (limiter s) (timers s) (scripts s) (loading s) (answered s).
Definition set_persist (v : gmap string FundEstimate) (s : state) : state :=
  State (live s) v (pendingRequests s) (jsonpInitialized s)
        (limiter s) (timers s) (scripts s) (loading s) (answered s).
Definition set_pendingRequests (v : list PendingRequest.t) (s : state) : state :=
  State (live s) (persist s) v (jsonpInitialized s)
        (limiter s) (timers s) (scripts s) (loading s) (answered s).
Definition set_jsonpInitialized (v : bool) (s : state) : state :=
  State (live s) (persist s) (pendingRequests s) v
        (limiter s) (timers s) (scripts s) (loading s) (answered s).
Definition set_limiter (v : LimiterState) (s : state) : state :=
  State (live s) (persist s) (pendingRequests s) (jsonpInitialized s)
        v (timers s) (scripts s) (loading s) (answered s).
Definition set_timers (v : list nat) (s : state) : state :=
  State (live s) (persist s) (pendingRequests s) (jsonpInitialized s)
        (limiter s) v (scripts s) (loading s) (answered s).
Definition set_scripts (v : list nat) (s : state) : state :=
  State (live s) (persist s) (pendingRequests s) (jsonpInitialized s)
        (limiter s) (timers s) v (loading s) (answered s).
Definition set_loading (v : list nat) (s : state) : state :=
  State (live s) (persist s) (pendingRequests s) (jsonpInitialized s)
        (limiter s) (timers s) (scripts s) v (answered s).
Definition set_answered (v : list (nat * FundEstimate)) (s : state) : state :=
  State (live s) (persist s) (pendingRequests s) (jsonpInitialized s)
        (limiter s) (timers s) (scripts s) (loading s) v.

Definition remove_id (id : nat) (l : list nat) : list nat :=
  filter (λ j, j ≠ id) l.

Definition has_code (c : string) : PendingRequest.t → bool :=
  λ req, bool_decide (PendingRequest.code req = c).

Section channel.
Context (CACHE_TTL : CacheTtl).

(** [cleanup]: the script element of the call leaves the document. *)
Definition cleanup (cl : Call) (s : state) : state :=
  set_scripts (remove_id (call_id cl) (scripts s)) s.

(** [resolve] and [reject] of the promise created inside [fn]. *)
Definition promise_resolve (cl : Call) (v : FundEstimate) (s : state) : state :=
  set_limiter (Limiter.settle cl (Limiter.Fulfilled v) (limiter s)) s.
Definition promise_reject (cl : Call) (msg : string) (s : state) : state :=
  set_limiter (Limiter.settle cl (Limiter.Failed msg) (limiter s)) s.

(** [if (persisted) resolve(persisted) else reject(new Error(msg))]. *)
Definition fall_back (cl : Call) (msg : string) (s : state) : state :=
  match call_persisted cl with
  | Some persisted => promise_resolve cl persisted s
  | None => promise_reject cl msg s
  end.

(** The [resolve] closure stored in the pending record. *)
Definition record_resolve (cl : Call) (data : FundEstimate) (now : Z)
    (s : state) : state :=
  let cacheKey := key2 "estimate" (call_code cl) in
  let s := set_live (cache.set now cacheKey (CEstimate data)
                               (ESTIMATE CACHE_TTL) (live s)) s in
  let s := set_persist (persistCache.set cacheKey data (persist s)) s in
  promise_resolve cl data s.

(** The [reject] closure stored in the pending record (no code of the
    module calls it). *)
Definition record_reject (cl : Call) (err : string) (s : state) : state :=
  match call_persisted cl with
  | Some persisted => promise_resolve cl persisted s
  | None => promise_reject cl err s
  end.

(** The handler that [initJsonpCallback] installs as [window.jsonpgz].
    [None] is a falsy [data]; a missing or empty [fundcode] is falsy too. *)
Definition jsonpgz (data : option FundEstimate) (now : Z) (s : state) : state :=
  match data with
  | None => s
  | Some d =>
      match fundcode d with
      | None => s
      | Some fc =>
          if bool_decide (fc = "") then s
          else
            match find_splice (has_code fc) (pendingRequests s) with
            | (Some req, rest) =>
                let s := set_timers (remove_id (PendingRequest.timeout req)
                                               (timers s)) s in
                let s := set_pendingRequests rest s in
                record_resolve (PendingRequest.resolve req) d now s
            | (None, _) => s
            end
      end
  end.

(** The body of [fn]: install the handler, arm the timer, push the pending
    record, append the script. *)
Definition fn (cl : Call) (s : state) : state :=
  let s := set_jsonpInitialized true s in
  let s := set_timers (timers s ++ [call_id cl]) s in
  let s := set_pendingRequests
             (pendingRequests s ++
              [ {| PendingRequest.code := call_code cl;
                   PendingRequest.resolve := cl;
                   PendingRequest.reject := cl;
                   PendingRequest.timeout := call_id cl |} ]) s in
  let s := set_scripts (scripts s ++ [call_id cl]) s in
  set_loading (loading s ++ [call_id cl]) s.

(** The limiter calls the closure it admits. *)
Definition run_admitted (admitted : option Call) (s : state) : state :=
  match admitted with
  | Some cl => fn cl s
  | None => s
  end.

(** [fetchFundEstimateFast(code)], called at time [now]; [trading] is the
    answer of [isTradingTime()], [id] identifies the call. *)
Definition fetchFundEstimateFast (id : nat) (code : string) (now : Z)
    (trading : bool) (s : state) : state :=
  let cacheKey := key2 "estimate" code in
  let '(cached, c) := cache_get_as as_estimate now cacheKey (live s) in
  let s := set_live c s in
  match cached with
  | Some cached => set_answered (answered s ++ [(id, cached)]) s
  | None =>
      let persisted := persistCache.get cacheKey (persist s) in
      (* [!isTradingTime() && persisted] *)
      match (if negb trading then persisted else None) with
      | Some p =>
          let s := set_live (cache.set now cacheKey (CEstimate p)
                                       (ESTIMATE CACHE_TTL) (live s)) s in
          set_answered (answered s ++ [(id, p)]) s
      | None =>
          let cl := {| call_id := id; call_code := code;
                       call_persisted := persisted |} in
          let r := Limiter.withConcurrencyControl cl (limiter s) in
          run_admitted r.2 (set_limiter r.1 s)
      end
  end.

(** The callback of [setTimeout(..., 8000)]; the timer that fires is no
    longer armed. *)
Definition on_timeout (cl : Call) (s : state) : state :=
  let s := set_timers (remove_id (call_id cl) (timers s)) s in
  let s := cleanup cl s in
  let s := set_pendingRequests
             (find_splice (has_code (call_code cl)) (pendingRequests s)).2 s in
  fall_back cl ("超时: " +:+ call_code cl) s.

(** [script.onerror]. *)
Definition on_script_error (cl : Call) (s : state) : state :=
  let s := set_loading (remove_id (call_id cl) (loading s)) s in
  let s := cleanup cl s in
  let s :=
    match find_splice (has_code (call_code cl)) (pendingRequests s) with
    | (Some req, rest) =>
        set_pendingRequests rest
          (set_timers (remove_id (PendingRequest.timeout req) (timers s)) s)
    | (None, _) => s
    end in
  fall_back cl ("失败: " +:+ call_code cl) s.

(** [script.onload]: [setTimeout(cleanup, 100)]; the delay of the removal
    is not modelled. *)
Definition on_script_load (cl : Call) (s : state) : state :=
  cleanup cl (set_loading (remove_id (call_id cl) (loading s)) s).

(** The limiter's continuation for a call whose promise has settled. *)
Definition resume (cl : Call) (o : Limiter.outcome) (s : state) : state :=
  let r := Limiter.resume cl o (limiter s) in
  run_admitted r.2 (set_limiter r.1 s).

Definition used_ids (s : state) : list nat :=
  (call_id <$> Limiter.submitted (limiter s)) ++ (answered s).*1.

(** Events of the channel.  A timer fires only while armed; a script event
    comes once, for a script that was appended; the feed can call
    [jsonpgz] only once the handler is installed. *)
Inductive event :=
| Fetch (id : nat) (code : string) (now : Z) (trading : bool)
| Jsonp (data : option FundEstimate) (now : Z)
| TimerFires (cl : Call)
| ScriptFails (cl : Call)
| ScriptLoads (cl : Call)
| Resumes (cl : Call).

Definition step (e : event) (s : state) : option state :=
  match e with
  | Fetch id code now trading =>
      if decide (id ∈ used_ids s) then None
      else Some (fetchFundEstimateFast id code now trading s)
  | Jsonp data now =>
      if jsonpInitialized s then Some (jsonpgz data now s) else None
  | TimerFires cl =>
      if decide (cl ∈ Limiter.started (limiter s) ∧ call_id cl ∈ timers s)
      then Some (on_timeout cl s) else None
  | ScriptFails cl =>
      if decide (cl ∈ Limiter.started (limiter s) ∧ call_id cl ∈ loading s)
      then Some (on_script_error cl s) else None
  | ScriptLoads cl =>
      if decide (cl ∈ Limiter.started (limiter s) ∧ call_id cl ∈ loading s)
      then Some (on_script_load cl s) else None
  | Resumes cl =>
      match Limiter.settled_with cl (limiter s) with
      | Some o => Some (resume cl o s)
      | None => None
      end
  end.

Fixpoint exec (evs : list event) (s : state) : option state :=
  match evs with
  | [] => Some s
  | e :: evs' =>
      match step e s with
      | Some s' => exec evs' s'
      | None => None
      end
  end.

End channel.
End Estimate.


(** ** History of net values ([fetchNetValueHistoryFast]) *)

(** What becomes of an injected script: its timer fires first, the load
    fails, or the script runs and leaves its global variable [G]. *)
Inductive script_result (G : Type) :=
| TimedOut
| LoadFailed
| Loaded (globals : G).
Arguments TimedOut {G}.
Arguments LoadFailed {G}.
Arguments Loaded {G}.

(** An element of [Data_netWorthTrend]. *)
Record TrendItem := { x : Z; y : option Q; equityReturn : option Q }.

(** [trend.slice(-days)]: the last [days] elements; [slice(-0)] is the
    whole array. *)
Definition slice_last {A} (days : nat) (l : list A) : list A :=
  if bool_decide (days = 0%nat) then l else drop (length l - days) l.

Section analytics.
(** [tz]: offset of the local time zone.  [Date_parse]: [new Date(s)] as a
    timestamp, [None] for an invalid date; [iso_date_parse] is its
    restriction to the strings that [fetchNetValueHistoryFast] builds. *)
Context (CACHE_TTL : CacheTtl) (tz : Z) (Date_parse : string → option Z).

Definition to_record (item : TrendItem) : NetValueRecord :=
  {| date := local_date_string tz (x item);
     netValue := or_zero (y item);
     totalNetValue := or_zero (y item);
     changeRate := or_zero (equityReturn item) |}.

(** [now] is the time of the call, [now2] the time at which the script
    event arrives.  The global is [None] when [Data_netWorthTrend] is not
    set; an element [None] is a [null] entry, on which [item.x] throws, so
    that the [catch] branch answers. *)
Definition fetchNetValueHistoryFast (now now2 : Z) (code : string) (days : nat)
    (c : Cache) (res : script_result (option (list (option TrendItem)))) :
    list NetValueRecord * Cache :=
  let cacheKey := key3 "netvalue" code days in
  match cache_get_as as_netvalue now cacheKey c with
  | (Some cached, c) => (cached, c)
  | (None, c) =>
      match res with
      | TimedOut => ([], c)
      | LoadFailed => ([], c)
      | Loaded globals =>
          let trend := default [] globals in
          if bool_decide (length trend = 0%nat) then ([], c)
          else
            let recentData := slice_last days trend in
            match mapM (fmap to_record) recentData with
            | Some records =>
                let records := reverse records in
                (records,
                 cache.set now2 cacheKey (CNetValue records)
                           (NET_VALUE CACHE_TTL) c)
            | None => ([], c)
            end
      end
  end.

(** ** Simplified K-line series ([fetchSimpleKLineData]) *)

Definition to_kline (item : NetValueRecord) : SimpleKLineData.t :=
  {| SimpleKLineData.time := date item;
     SimpleKLineData.value := netValue item;
     SimpleKLineData.change := changeRate item |}.

Definition fetchSimpleKLineData (now now2 : Z) (code : string) (days : nat)
    (c : Cache) (res : script_result (option (list (option TrendItem)))) :
    list SimpleKLineData.t * Cache :=
  let cacheKey := key3 "kline" code days in
  match cache_get_as as_kline now cacheKey c with
  | (Some cached, c) => (cached, c)
  | (None, c) =>
      let '(history, c) := fetchNetValueHistoryFast now now2 code days c res in
      let klineData := reverse (to_kline <$> history) in
      (klineData,
       cache.set now2 cacheKey (CKLine klineData) (NET_VALUE CACHE_TTL) c)
  end.

(** ** Period returns ([calculatePeriodReturns]) *)

Definition periods : list (string * string * Z) :=
  [("Z", "近1周", 7); ("Y", "近1月", 30); ("3Y", "近3月", 90);
   ("6Y", "近6月", 180); ("1N", "近1年", 365)].

(** [recordDate <= targetDate]; a comparison with an invalid date is
    false. *)
Definition on_or_before (targetDate : Z) (record : NetValueRecord) : bool :=
  match Date_parse (date record) with
  | Some recordDate => bool_decide (recordDate ≤ targetDate)
  | None => false
  end.

(** The inner loop: the first record of the list that is dated on or
    before the target. *)
Fixpoint find_record (targetDate : Z) (history : list NetValueRecord) :
    option NetValueRecord :=
  match history with
  | [] => None
  | record :: rest =>
      if on_or_before targetDate record then Some record
      else find_record targetDate rest
  end.

(** [targetDate.setDate(targetDate.getDate() - p.days)] moves the local
    calendar date back by [p.days] days and keeps the time of day: without
    a change of the zone offset in between, that is [p.days] times 24
    hours. *)
Definition targetDate (now : Z) (days : Z) : Z := now - days * msPerDay.

(** The body of the loop over [periods]: the entry pushed for [p], if
    any.  The change is computed in exact arithmetic here, where the code
    computes in doubles. *)
Definition period_return (now : Z) (history : list NetValueRecord)
    (latest : NetValueRecord) (p : string * string * Z) :
    option PeriodReturn.t :=
  match find_record (targetDate now p.2) history with
  | Some found =>
      if Qltb 0 (netValue found) then
        let change :=
          ((netValue latest - netValue found) / netValue found * 100)%Q in
        Some {| PeriodReturn.period := p.1.1;
                PeriodReturn.label := p.1.2;
                PeriodReturn.days := p.2;
                PeriodReturn.change := toFixed2 change |}
      else None
  | None => None
  end.

Definition calculatePeriodReturns (now now2 : Z) (code : string)
    (c : Cache) (res : script_result (option (list (option TrendItem)))) :
    list PeriodReturn.t * Cache :=
  let cacheKey := key2 "period" code in
  match cache_get_as as_period now cacheKey c with
  | (Some cached, c) => (cached, c)
  | (None, c) =>
      let '(history, c) := fetchNetValueHistoryFast now now2 code 400 c res in
      if bool_decide (length history < 2)%nat then ([], c)
      else
        match history with
        | [] => ([], c)
        | latest :: _ =>
            if Qle_bool (netValue latest) 0 then ([], c)
            else
              let results := omap (period_return now2 history latest) periods in
              (results,
               cache.set now2 cacheKey (CPeriod results) (NET_VALUE CACHE_TTL) c)
        end
  end.

End analytics.


(** ** Reading untyped payloads *)

(** [!!v] *)
Definition truthy (v : jsval) : bool :=
  match v with
  | JUndefined | JNull | JNaN => false
  | JBool b => b
  | JNum q => negb (Qeq_bool q 0)
  | JStr s => negb (bool_decide (s = ""))
  | JArr _ | JObj _ => true
  end.

(** The value bound to a name in an object; the first binding of the list
    is the visible one. *)
Fixpoint assoc (name : string) (props : list (string * jsval)) : jsval :=
  match props with
  | [] => JUndefined
  | (k, v) :: rest => if bool_decide (k = name) then v else assoc name rest
  end.

(** [v[name]] for a [v] that is neither [undefined] nor [null], and for the
    names this module reads ([data], [diff], [f2], [f3], [f4], [f12],
    [f14]): none of them is a property of an array, a string, a number or
    a boolean. *)
Definition get (v : jsval) (name : string) : jsval :=
  match v with
  | JObj props => assoc name props
  | _ => JUndefined
  end.

(** [v.name]: a [TypeError] ([None]) on [undefined] and [null]. *)
Definition prop (v : jsval) (name : string) : option jsval :=
  match v with
  | JUndefined | JNull => None
  | _ => Some (get v name)
  end.

(** [v?.name] *)
Definition opt_prop (v : jsval) (name : string) : jsval :=
  match v with
  | JUndefined | JNull => JUndefined
  | _ => get v name
  end.

(** The receiver of [v.map(f)] or [v.forEach(f)]: a [TypeError] unless [v]
    is an array. *)
Definition as_array (v : jsval) : option (list jsval) :=
  match v with
  | JArr items => Some items
  | _ => None
  end.

(** [v || 0] *)
Definition or_0 (v : jsval) : jsval := if truthy v then v else JNum 0.

(** ** Fail-soft fetchers of market data *)

(** A promise is fulfilled with a value or rejected. *)
Inductive completion (A : Type) :=
| Fulfils (a : A)
| Rejects.
Arguments Fulfils {A}.
Arguments Rejects {A}.

(** What [await fetch(url)] followed by [await response.json()] yields. *)
Inductive fetch_result :=
| NetworkError
| BadJson
| Json (data : jsval).

(** What becomes of a JSONP request with its own callback. *)
Inductive jsonp_result :=
| JsonpTimeout
| JsonpError
| JsonpCallback (data : jsval).

Section market.
(** [ToNumber_other]: the number that ECMAScript's [ToNumber] gives for a
    string, an array or an object; [None] is [NaN]. *)
Context (CACHE_TTL : CacheTtl) (ToNumber_other : jsval → option Q).

Definition ToNumber (v : jsval) : option Q :=
  match v with
  | JUndefined | JNaN => None
  | JNull => Some 0%Q
  | JBool b => Some (if b then 1 else 0)%Q
  | JNum q => Some q
  | JStr _ | JArr _ | JObj _ => ToNumber_other v
  end.

(** [v > 0] *)
Definition gt_0 (v : jsval) : bool :=
  match ToNumber v with
  | Some q => Qltb 0 q
  | None => false
  end.

(** [v / 100] *)
Definition div_100 (v : jsval) : option Q :=
  (λ q, q / 100)%Q <$> ToNumber v.

(** *** [fetchMarketIndicesFast] *)

Definition market_item (item : jsval) : option MarketIndexSimple.t :=
  f12 ← prop item "f12";
  f14 ← prop item "f14";
  f2 ← prop item "f2";
  f4 ← prop item "f4";
  f3 ← prop item "f3";
  Some {| MarketIndexSimple.code := f12; MarketIndexSimple.name := f14;
          MarketIndexSimple.current := f2; MarketIndexSimple.change := f4;
          MarketIndexSimple.changePercent := f3 |}.

(** The body of the [try] block; [None] is an exception. *)
Definition market_body (now2 : Z) (c : Cache) (res : fetch_result) :
    option (list MarketIndexSimple.t * Cache) :=
  match res with
  | NetworkError => None
  | BadJson => None
  | Json data =>
      let diff := opt_prop (opt_prop data "data") "diff" in
      if negb (truthy diff) then Some ([], c)
      else
        items ← as_array diff;
        indices ← mapM market_item items;
        Some (indices,
              cache.set now2 "market_indices" (CMarket indices)
                        (MARKET_INDEX CACHE_TTL) c)
  end.

Definition fetchMarketIndicesFast (now now2 : Z) (c : Cache)
    (res : fetch_result) : completion (list MarketIndexSimple.t * Cache) :=
  match cache_get_as as_market now "market_indices" c with
  | (Some cached, c) => Fulfils (cached, c)
  | (None, c) =>
      match market_body now2 c res with
      | Some r => Fulfils r
      | None => Fulfils ([], c)
      end
  end.

(** *** [fetchFundRankingFast] *)

Definition ranking_item (item : jsval) : option FundRankItemSimple.t :=
  f12 ← prop item "f12";
  f14 ← prop item "f14";
  f2 ← prop item "f2";
  f3 ← prop item "f3";
  Some {| FundRankItemSimple.code := f12; FundRankItemSimple.name := f14;
          FundRankItemSimple.netValue := or_0 f2;
          FundRankItemSimple.dayChange := or_0 f3 |}.

Definition ranking_key (order pageSize : nat) : string :=
  "ranking_" +:+ pretty order +:+ "_" +:+ pretty pageSize.

Definition ranking_body (now2 : Z) (order pageSize : nat) (c : Cache)
    (res : fetch_result) : option (list FundRankItemSimple.t * Cache) :=
  match res with
  | NetworkError => None
  | BadJson => None
  | Json data =>
      let diff := opt_prop (opt_prop data "data") "diff" in
      if negb (truthy diff) then Some ([], c)
      else
        items ← as_array diff;
        items ← mapM ranking_item items;
        Some (items,
              cache.set now2 (ranking_key order pageSize) (CRanking items)
                        30000 c)
  end.

Definition fetchFundRankingFast (now now2 : Z) (order pageSize : nat)
    (c : Cache) (res : fetch_result) :
    completion (list FundRankItemSimple.t * Cache) :=
  match cache_get_as as_ranking now (ranking_key order pageSize) c with
  | (Some cached, c) => Fulfils (cached, c)
  | (None, c) =>
      match ranking_body now2 order pageSize c res with
      | Some r => Fulfils r
      | None => Fulfils ([], c)
      end
  end.

(** *** [fetchGlobalIndices] *)

Definition indices : list (string * string * string) :=
  [("1.000001", "上证指数", "cn"); ("0.399001", "深证成指", "cn");
   ("0.399006", "创业板指", "cn"); ("100.HSI", "恒生指数", "hk");
   ("100.DJIA", "道琼斯", "us"); ("100.NDX", "纳斯达克", "us");
   ("100.SPX", "标普500", "us"); ("100.N225", "日经225", "asia")].

Definition zero_index (name code region : string) : GlobalIndex.t :=
  {| GlobalIndex.name := name; GlobalIndex.code := code;
     GlobalIndex.price := Some 0%Q; GlobalIndex.change := Some 0%Q;
     GlobalIndex.changePercent := Some 0%Q; GlobalIndex.region := region |}.

Definition getDefaultGlobalIndices : list GlobalIndex.t :=
  [zero_index "上证指数" "s_sh000001" "cn";
   zero_index "深证成指" "s_sz399001" "cn";
   zero_index "恒生指数" "rt_hkHSI" "hk";
   zero_index "道琼斯" "gb_$dji" "us";
   zero_index "纳斯达克" "gb_$ixic" "us";
   zero_index "日经225" "int_nikkei" "asia"].

(** The callback of [forEach]: the array [results] after the call, or
    [None] when the call throws. *)
Definition global_item (idx : nat) (item : jsval)
    (results : list GlobalIndex.t) : option (list GlobalIndex.t) :=
  match indices !! idx with
  | None => Some results
  | Some (code, name, region) =>
      f2 ← prop item "f2";
      if gt_0 f2 then
        f4 ← prop item "f4";
        f3 ← prop item "f3";
        Some (results ++
              [ {| GlobalIndex.name := name; GlobalIndex.code := code;
                   GlobalIndex.price := div_100 f2;
                   GlobalIndex.change := div_100 f4;
                   GlobalIndex.changePercent := div_100 f3;
                   GlobalIndex.region := region |} ])
      else Some results
  end.

(** [forEach] from index [idx] on: the array [results] when the loop ends,
    and whether it ended by an exception. *)
Fixpoint forEach_global (idx : nat) (items : list jsval)
    (results : list GlobalIndex.t) : list GlobalIndex.t * bool :=
  match items with
  | [] => (results, false)
  | item :: rest =>
      match global_item idx item results with
      | Some results => forEach_global (S idx) rest results
      | None => (results, true)
      end
  end.

(** The JSONP callback, with its [try { ... } catch { /* ignore */ }]:
    the array [results] once the promise of the request is settled, and
    whether an exception was caught on the way. *)
Definition global_results (res : jsonp_result) : list GlobalIndex.t * bool :=
  match res with
  | JsonpTimeout => ([], false)
  | JsonpError => ([], false)
  | JsonpCallback data =>
      let diff := opt_prop (opt_prop data "data") "diff" in
      if truthy diff then
        match as_array diff with
        | Some items => forEach_global 0 items []
        | None => ([], true)
        end
      else ([], false)
  end.

Definition fetchGlobalIndices (now now2 : Z) (c : Cache) (res : jsonp_result) :
    completion (list GlobalIndex.t * Cache) :=
  match cache_get_as as_global now "global_indices" c with
  | (Some cached, c) => Fulfils (cached, c)
  | (None, c) =>
      let results := (global_results res).1 in
      if bool_decide (length results = 0%nat)
      then Fulfils (getDefaultGlobalIndices, c)
      else Fulfils (results,
                    cache.set now2 "global_indices" (CGlobal results)
                              (MARKET_INDEX CACHE_TTL) c)
  end.

End market.


(** ** Manager profit and industry allocation ([fetchManagerProfit],
    [fetchIndustryAllocation]) *)

(** [v[i]] for a [v] that is neither [undefined] nor [null]: an element of
    an array, a character of a string, the property named by the index of
    an object. *)
Definition js_index (v : jsval) (i : nat) : jsval :=
  match v with
  | JArr items => default JUndefined (items !! i)
  | JStr s =>
      match String.get i s with
      | Some a => JStr (String a EmptyString)
      | None => JUndefined
      end
  | JObj props => assoc (pretty i) props
  | _ => JUndefined
  end.

(** [v?.[i]] *)
Definition opt_index (v : jsval) (i : nat) : jsval :=
  match v with
  | JUndefined | JNull => JUndefined
  | _ => js_index v i
  end.

(** The elements that [for (let i = 0; i < l.length; i += step)] visits:
    [skip] elements are passed over before the next visit. *)
Fixpoint every_nth {A} (step skip : nat) (l : list A) : list A :=
  match l with
  | [] => []
  | x :: rest =>
      match skip with
      | O => x :: every_nth step (step - 1) rest
      | S skip => every_nth step skip rest
      end
  end.

Module ManagerProfitPoint.
Record t := { date : string; profit : jsval }.
End ManagerProfitPoint.

Module IndustryAllocation.
Record t := { name : jsval; ratio : Q; color : string }.
End IndustryAllocation.

Definition CHART_COLORS : list string :=
  ["#3b82f6"; "#ef4444"; "#22c55e"; "#f59e0b"; "#8b5cf6";
   "#ec4899"; "#06b6d4"; "#84cc16"; "#f97316"; "#6366f1"].

Section more_fetchers.
(** [local_date v] is the string that [fetchManagerProfit] builds from
    [new Date(v)] with [getFullYear], [getMonth] and [getDate] (for an
    invalid date, the string made of three [NaN]); [iso_date v] is
    [new Date(v).toISOString().split('T')[0]], and [None] when
    [toISOString] throws on an invalid date. *)
Context (CACHE_TTL : CacheTtl) (ToNumber_other : jsval → option Q)
        (local_date : jsval → string) (iso_date : jsval → option string).

(** *** [fetchManagerProfit] *)

Definition profit_point (item : jsval) : ManagerProfitPoint.t :=
  {| ManagerProfitPoint.date := local_date (js_index item 0);
     ManagerProfitPoint.profit := or_0 (js_index item 1) |}.

(** The body of the sampling loop: a point is pushed for an array of at
    least two elements. *)
Definition sampled_point (item : jsval) : option ManagerProfitPoint.t :=
  match item with
  | JArr elems =>
      if bool_decide (2 ≤ length elems)%nat then Some (profit_point item)
      else None
  | _ => None
  end.

(** The [try] block of [onload] once [Data_grandTotal] is known to be a
    non-empty array: the points to resolve with, or [None] when an
    exception is thrown. *)
Definition manager_profit_points (grandTotal : list jsval) :
    option (list ManagerProfitPoint.t) :=
  let step := (1 `max` (length grandTotal `div` 200))%nat in
  let result := omap sampled_point (every_nth step 0 grandTotal) in
  let last_item := default JUndefined (last grandTotal) in
  match last result with
  | Some lastResult =>
      if truthy last_item then
        iso ← iso_date (js_index last_item 0);
        if bool_decide (ManagerProfitPoint.date lastResult ≠ iso)
        then Some (result ++ [profit_point last_item])
        else Some result
      else Some result
  | None => Some result
  end.

(** The entries of the cache under the prefix [manager_profit_] hold lists
    of points, and no other key of the cache is read or written here; the
    global is [JUndefined] when the script did not set it. *)
Definition fetchManagerProfit (now now2 : Z) (fundCode : string)
    (c : gmap string (CacheEntry (list ManagerProfitPoint.t)))
    (res : script_result jsval) :
    list ManagerProfitPoint.t
    * gmap string (CacheEntry (list ManagerProfitPoint.t)) :=
  let cacheKey := "manager_profit_" +:+ fundCode in
  match cache.get now cacheKey c with
  | (Some cached, c) => (cached, c)
  | (None, c) =>
      match res with
      | TimedOut => ([], c)
      | LoadFailed => ([], c)
      | Loaded global =>
          let grandTotal := if truthy global then global else JArr [] in
          match grandTotal with
          | JArr [] => ([], c)
          | JArr items =>
              match manager_profit_points items with
              | Some result =>
                  (result,
                   cache.set now2 cacheKey result (NET_VALUE CACHE_TTL) c)
              | None => ([], c)
              end
          | _ => ([], c)
          end
      end
  end.

(** *** [fetchIndustryAllocation] *)

(** The callback of [filter]: [item.y > 0], a [TypeError] ([None]) when
    [item] is [undefined] or [null]. *)
Definition positive_share (item : jsval) : option bool :=
  y ← prop item "y"; Some (gt_0 ToNumber_other y).

(** [filter] with a callback that may throw. *)
Fixpoint filterM {A} (p : A → option bool) (l : list A) : option (list A) :=
  match l with
  | [] => Some []
  | x :: rest =>
      b ← p x; kept ← filterM p rest;
      Some (if b : bool then x :: kept else kept)
  end.

(** The callback of [map].  [item.y?.toFixed(2)] calls [toFixed], which
    only a number has: for another value that passed the filter the call
    throws. *)
Definition industry_entry (idx : nat) (item : jsval) :
    option IndustryAllocation.t :=
  name ← prop item "name";
  y ← prop item "y";
  ratio ← match y with
          | JNum q => Some (toFixed2 q)
          | JUndefined | JNull | JNaN => Some 0%Q
          | _ => None
          end;
  Some {| IndustryAllocation.name := if truthy name then name else JStr "其他";
          IndustryAllocation.ratio := ratio;
          IndustryAllocation.color :=
            default "" (CHART_COLORS !! (idx `mod` length CHART_COLORS)%nat) |}.

(** The [try] block of [onload]; in the outer [option], [None] is an
    exception, in the inner one [None] is the early [resolve([])] that
    writes nothing. *)
Definition industry_body (data : jsval) :
    option (option (list IndustryAllocation.t)) :=
  let series_data := opt_prop (opt_index (opt_prop data "series") 0) "data" in
  if negb (truthy series_data) then Some None
  else
    items ← as_array series_data;
    kept ← filterM positive_share items;
    industries ← mapM (λ p, industry_entry p.1 p.2) (imap pair (take 10 kept));
    Some (Some industries).

Definition fetchIndustryAllocation (now now2 : Z) (code : string)
    (c : gmap string (CacheEntry (list IndustryAllocation.t)))
    (res : script_result jsval) :
    list IndustryAllocation.t
    * gmap string (CacheEntry (list IndustryAllocation.t)) :=
  let cacheKey := "industry_" +:+ code in
  match cache.get now cacheKey c with
  | (Some cached, c) => (cached, c)
  | (None, c) =>
      match res with
      | TimedOut => ([], c)
      | LoadFailed => ([], c)
      | Loaded data =>
          match industry_body data with
          | Some (Some industries) =>
              (industries,
               cache.set now2 cacheKey industries (FUND_INFO CACHE_TTL) c)
          | Some None => ([], c)
          | None => ([], c)
          end
      end
  end.

End more_fetchers.


(** ** Batches of estimates ([fetchFundEstimatesBatch]) *)



(** ** The chart component (the last component of [src/views/Filter.vue]) *)

Module Chart.

(** A point of the series that the chart draws; [volume] is the simulated
    volume. *)
Record Point := { time : string; value : Q; change : Q; volume : Q }.

Module IntradayPoint.
Record t := { time : string; value : Q; volume : Q }.
End IntradayPoint.

(** The props ([fundCode], [realtimeValue], [realtimeChange], [lastClose])
    and the refs of the component. *)
Record state := State {
  fundCode : string;
  realtimeValue : Q;
  realtimeChange : Q;
  lastClose : Q;
  chartData : list SimpleKLineData.t;
  periodReturns : list PeriodReturn.t;
  activePeriod : string;
  intradayData : list IntradayPoint.t;
  baseValue : Q
}.

Definition set_intraday (data : list IntradayPoint.t) (base : Q) (s : state) :
    state :=
  State (fundCode s) (realtimeValue s) (realtimeChange s) (lastClose s)
        (chartData s) (periodReturns s) (activePeriod s) data base.

(** [a || b] for numbers. *)
Definition or_else (a b : Q) : Q := if Qeq_bool a 0 then b else a.


Definition isIntradayMode (s : state) : bool :=
  bool_decide (activePeriod s = "1d").

Definition showIntradayChart (s : state) : bool :=
  isIntradayMode s
  && (bool_decide (0 < length (intradayData s))%nat
      || Qltb 0 (realtimeValue s)).

(** *** The intraday buffer *)

Definition maxPoints : nat := 500.

(** [addIntradayPoint(value)]; [timeStr] is the time of day read from the
    clock and [random] the number drawn by [Math.random()]. *)
Definition addIntradayPoint (timeStr : string) (random : Q) (value : Q)
    (s : state) : state :=
  if Qle_bool value 0 then s
  else
    let base :=
      if Qeq_bool (baseValue s) 0 then or_else (lastClose s) value
      else baseValue s in
    let lastValue :=
      match last (intradayData s) with
      | Some p => IntradayPoint.value p
      | None => value
      end in
    let priceChange := Qabs (value - lastValue) in
    let volume := (100 + priceChange * 10000 + random * 50)%Q in
    let data :=
      if bool_decide (maxPoints ≤ length (intradayData s))%nat
      then slice_last (maxPoints - 1) (intradayData s)
      else intradayData s in
    set_intraday
      (data ++ [ {| IntradayPoint.time := timeStr;
                    IntradayPoint.value := value;
                    IntradayPoint.volume := volume |} ])
      base s.

Definition resetIntradayData (s : state) : state :=
  set_intraday [] (or_else (lastClose s) 0) s.

(** The component once [setup] has run: the period is ['5d'], there is no
    data yet, and the watcher of [fundCode], which is immediate, has reset
    the intraday data. *)
Definition setup (code : string) (rtValue rtChange close : Q) : state :=
  resetIntradayData (State code rtValue rtChange close [] [] "5d" [] 0).

(** [selectPeriod(key)], without the animation and the redraw. *)
Definition selectPeriod (timeStr : string) (random : Q) (key : string)
    (s : state) : state :=
  let s :=
    if bool_decide (key = "1d") then
      let s := resetIntradayData s in
      let val := or_else (realtimeValue s) (or_else (lastClose s) 1) in
      if Qltb 0 val then addIntradayPoint timeStr random val s else s
    else s in
  State (fundCode s) (realtimeValue s) (realtimeChange s) (lastClose s)
        (chartData s) (periodReturns s) key (intradayData s) (baseValue s).

(** The prop [realtimeValue] changes and its watcher runs. *)
Definition on_realtimeValue (timeStr : string) (random : Q) (newVal : Q)
    (s : state) : state :=
  let s := State (fundCode s) newVal (realtimeChange s) (lastClose s)
                 (chartData s) (periodReturns s) (activePeriod s)
                 (intradayData s) (baseValue s) in
  if Qltb 0 newVal && isIntradayMode s
  then addIntradayPoint timeStr random newVal s
  else s.

(** The prop [lastClose] changes and its watcher runs. *)
Definition on_lastClose (newVal : Q) (s : state) : state :=
  let s := State (fundCode s) (realtimeValue s) (realtimeChange s) newVal
                 (chartData s) (periodReturns s) (activePeriod s)
                 (intradayData s) (baseValue s) in
  if Qltb 0 newVal && Qeq_bool (baseValue s) 0
  then set_intraday (intradayData s) newVal s
  else s.

(** [onMounted], without the observer and the animation. *)
Definition onMounted (timeStr : string) (random : Q) (s : state) : state :=
  if Qltb 0 (realtimeValue s)
  then addIntradayPoint timeStr random (realtimeValue s) s
  else s.

(** The prop [realtimeChange] changes; it has no watcher. *)
Definition on_realtimeChange (newVal : Q) (s : state) : state :=
  State (fundCode s) (realtimeValue s) newVal (lastClose s)
        (chartData s) (periodReturns s) (activePeriod s)
        (intradayData s) (baseValue s).

(** The watcher of [fundCode], up to the call of [loadData]; the data that
    [loadData] delivers arrives with [Loaded_data]. *)
Definition on_fundCode (code : string) (s : state) : state :=
  resetIntradayData
    (State code (realtimeValue s) (realtimeChange s) (lastClose s)
           (chartData s) (periodReturns s) (activePeriod s)
           (intradayData s) (baseValue s)).

Definition on_loaded (kline : list SimpleKLineData.t)
    (returns : list PeriodReturn.t) (s : state) : state :=
  State (fundCode s) (realtimeValue s) (realtimeChange s) (lastClose s)
        kline returns (activePeriod s) (intradayData s) (baseValue s).

(** *** The series on display ([filteredData]) *)

Definition periods : list (string * string * Z) :=
  [("1d", "当日", 0); ("5d", "5日", 5); ("1m", "1月", 30); ("3m", "3月", 90);
   ("6m", "6月", 180); ("1y", "1年", 365)].

Section view.
(** [tz]: offset of the local time zone.  [Date_parse]: [new Date(s)] as a
    timestamp, [None] for an invalid date. *)
Context (tz : Z) (Date_parse : string → option Z).

(** [now.getHours() * 60 + now.getMinutes()] *)
Definition local_minutes (now : Z) : Z :=
  ((now + tz) `mod` msPerDay) `div` 60000.

Definition hours_minutes (now : Z) : string :=
  padStart2 (local_minutes now `div` 60) +:+ ":"
  +:+ padStart2 (local_minutes now `mod` 60).

(** [new Date(item.time) >= from]; a comparison with an invalid date is
    false. *)
Definition since (from : Z) (item : SimpleKLineData.t) : bool :=
  match Date_parse (SimpleKLineData.time item) with
  | Some t => bool_decide (from ≤ t)
  | None => false
  end.

(** The callback of [map]: the item with its simulated volume. *)
Definition with_volume (i : nat) (item : SimpleKLineData.t) : Point :=
  {| time := SimpleKLineData.time item;
     value := SimpleKLineData.value item;
     change := SimpleKLineData.change item;
     volume := (50 + Qabs (SimpleKLineData.change item) * 30
                + inject_Z (Z.of_nat (i `mod` 5)) * 10)%Q |}.

Definition window (from : Z) (s : state) : list Point :=
  imap with_volume (filter (λ item, since from item = true) (chartData s)).

Definition percent_of (base v : Q) : Q :=
  if Qltb 0 base then ((v - base) / base * 100)%Q else 0%Q.

Definition filteredData (now : Z) (s : state) : list Point :=
  let today := local_date_string tz now in
  if showIntradayChart s then
    if bool_decide (0 < length (intradayData s))%nat then
      (λ p, {| time := IntradayPoint.time p;
               value := IntradayPoint.value p;
               change := percent_of (baseValue s) (IntradayPoint.value p);
               volume := IntradayPoint.volume p |}) <$> intradayData s
    else if Qltb 0 (realtimeValue s) then
      let base :=
        or_else (baseValue s) (or_else (lastClose s) (realtimeValue s)) in
      [ {| time := hours_minutes now; value := realtimeValue s;
           change := percent_of base (realtimeValue s); volume := 50 |} ]
    else
      let fallbackData := window (now - 5 * msPerDay) s in
      if bool_decide (length fallbackData = 0%nat)
      then [ {| time := today; value := 1; change := 0; volume := 50 |} ]
      else fallbackData
  else
    let days :=
      match find (λ p, bool_decide (p.1.1 = activePeriod s)) periods with
      | Some p => if bool_decide (p.2 = 0) then 5 else p.2
      | None => 5
      end in
    let data := window (now - days * msPerDay) s in
    if Qltb 0 (realtimeValue s) && bool_decide (0 < length data)%nat then
      match last data with
      | Some lastItem =>
          if bool_decide (time lastItem = today) then
            take (length data - 1) data
            ++ [ {| time := time lastItem; value := realtimeValue s;
                    change := realtimeChange s;
                    volume := volume lastItem |} ]
          else
            data
            ++ [ {| time := today; value := realtimeValue s;
                    change := realtimeChange s;
                    volume := (50 + Qabs (realtimeChange s) * 30)%Q |} ]
      | None => data
      end
    else data.

(** *** The geometry of [drawChart] *)

Definition padding_top : Q := 15.
Definition padding_right : Q := 60.
Definition padding_bottom : Q := 25.
Definition padding_left : Q := 55.

(** [Math.min(...l)] and [Math.max(...l)] for a list that is not empty
    ([drawChart] returns before it draws when there is no data). *)
Definition min_of (l : list Q) : Q :=
  match l with
  | [] => 0%Q
  | x :: rest => foldl Qmin x rest
  end.
Definition max_of (l : list Q) : Q :=
  match l with
  | [] => 0%Q
  | x :: rest => foldl Qmax x rest
  end.

(** [mainHeight]: the intraday chart takes the whole height but the room
    of the time axis, the K-line chart 65% of the height. *)
Definition mainHeight (s : state) (height : Q) : Q :=
  if showIntradayChart s then (height - 25)%Q else (height * (65 # 100))%Q.

Definition chartWidth (width : Q) : Q :=
  (width - padding_left - padding_right)%Q.

(** [minValue], [maxValue] and [valueRange]. *)
Definition price_range (s : state) (data : list Point) : Q * Q * Q :=
  let values := value <$> data in
  let minValue := min_of values in
  let maxValue := max_of values in
  let '(minValue, maxValue) :=
    if showIntradayChart s && Qltb 0 (baseValue s) then
      let margin :=
        or_else (Qabs (maxValue - minValue) * (15 # 100))
                (baseValue s * (5 # 1000)) in
      (Qmin minValue (baseValue s) - margin,
       Qmax maxValue (baseValue s) + margin)%Q
    else
      let margin := or_else ((maxValue - minValue) * (1 # 10)) (1 # 100) in
      (minValue - margin, maxValue + margin)%Q in
  (minValue, maxValue, or_else (maxValue - minValue) 1).

(** [Math.max(data.length - 1, 1)] *)
Definition spans (data : list Point) : Q :=
  inject_Z (Z.of_nat (length data - 1) `max` 1).

(** The vertices that the K-line branch hands to [lineTo] for the curve. *)
Definition kline_polyline (width height : Q) (s : state) (data : list Point) :
    list (Q * Q) :=
  let '(minValue, _, valueRange) := price_range s data in
  imap (λ i point,
          (padding_left
           + chartWidth width / spans data * inject_Z (Z.of_nat i),
           padding_top
           + (mainHeight s height - padding_top)
             * (1 - (value point - minValue) / valueRange))%Q)
       data.

(** The share of the trading day (09:30 to 15:00) that has passed;
    outside trading hours a share between 5% and 15% that grows with the
    number of points. *)
Definition timeProgress (now : Z) (data : list Point) : Q :=
  let currentMinutes := local_minutes now in
  let marketStart := 9 * 60 + 30 in
  let marketEnd := 15 * 60 in
  let totalMarketMinutes := marketEnd - marketStart in
  let elapsedMinutes :=
    0 `max` ((currentMinutes - marketStart) `min` totalMarketMinutes) in
  let timeProgress := (inject_Z elapsedMinutes / inject_Z totalMarketMinutes)%Q in
  if Qeq_bool timeProgress 0 || bool_decide (currentMinutes < marketStart)
     || bool_decide (marketEnd < currentMinutes)
  then
    let timeProgress :=
      Qmin (inject_Z (Z.of_nat (length data)) / 50) (15 # 100) in
    if Qltb timeProgress (5 # 100) then (5 # 100)%Q else timeProgress
  else timeProgress.

(** [base], the changes in percent, and [changeRange]. *)
Definition intraday_base (s : state) (data : list Point) : Q :=
  or_else (baseValue s) (or_else (default 0%Q (value <$> head data)) 1).

Definition changeRange (s : state) (data : list Point) : Q :=
  let base := intraday_base s data in
  let changes := (λ p, (value p - base) / base * 100)%Q <$> data in
  let maxChange := max_of (changes ++ [(1 # 10)%Q]) in
  let minChange := min_of (changes ++ [(- (1 # 10))%Q]) in
  let absMaxChange := Qmax (Qabs maxChange) (Qabs minChange) in
  (absMaxChange * (12 # 10))%Q.

(** The vertices that the intraday branch hands to [lineTo] for the
    curve. *)
Definition intraday_polyline (now : Z) (width height : Q) (s : state)
    (data : list Point) : list (Q * Q) :=
  let base := intraday_base s data in
  let baseY := (padding_top + (mainHeight s height - padding_top) / 2)%Q in
  let lastX := (padding_left + chartWidth width * timeProgress now data)%Q in
  imap (λ i point,
          let change := ((value point - base) / base * 100)%Q in
          (padding_left
           + (lastX - padding_left) * (inject_Z (Z.of_nat i) / spans data),
           baseY
           - change / changeRange s data
             * ((mainHeight s height - padding_top) / 2))%Q)
       data.

(** The curve that [drawChart] strokes on a canvas of the given size;
    [None] when it returns without drawing. *)
Definition drawChart (now : Z) (width height : Q) (s : state) :
    option (list (Q * Q)) :=
  let data := filteredData now s in
  if bool_decide (length data = 0%nat) then None
  else if Qeq_bool width 0 || Qeq_bool height 0 then None
  else if showIntradayChart s
       then Some (intraday_polyline now width height s data)
       else Some (kline_polyline width height s data).

(** The indices of the points that get a label on the time axis of the
    K-line chart. *)
Definition label_indices (data : list Point) : list nat :=
  let labelCount := (5 `min` length data)%nat in
  (λ i, ((length data - 1) * i) `div` ((labelCount - 1) `max` 1))%nat
    <$> seq 0 labelCount.

End view.

(** *** Loading ([loadData]) *)

Section load.
Context (covers : string → string → bool).
Context (CACHE_TTL : CacheTtl) (tz : Z) (Date_parse : string → option Z).

(** [loadData], called at time [now]: the cache of the fund is cleared,
    both fetchers are called, and their answers are stored in the
    component.  The two calls are made one after the other before either
    download completes, and each reads the cache in the part it runs at
    once: both read the cache as [clearFundCache] left it.  [res1] and
    [res2] are the outcomes of the two downloads, which complete at [t1]
    and [t2]. *)
Definition loadData (now t1 t2 : Z) (c : Cache)
    (res1 res2 : script_result (option (list (option TrendItem))))
    (s : state) : state :=
  if bool_decide (fundCode s = "") then s
  else
    let c := clearFundCache covers (fundCode s) c in
    let kline :=
      (fetchSimpleKLineData CACHE_TTL tz now t1 (fundCode s) 400 c res1).1 in
    let returns :=
      (calculatePeriodReturns CACHE_TTL tz Date_parse now t2 (fundCode s) c
                              res2).1 in
    on_loaded kline returns s.

End load.

(** *** Events *)

(** What happens to a mounted component.  [Math.random()] is at least 0
    and less than 1. *)
Inductive event :=
| Mounted (timeStr : string) (random : Q)
| RealtimeValue (timeStr : string) (random : Q) (newVal : Q)
| RealtimeChange (newVal : Q)
| LastClose (newVal : Q)
| FundCode (code : string)
| SelectPeriod (timeStr : string) (random : Q) (key : string)
| DataLoaded (kline : list SimpleKLineData.t) (returns : list PeriodReturn.t).

Definition is_random (r : Q) : bool := Qle_bool 0 r && Qltb r 1.

Definition step (e : event) (s : state) : option state :=
  match e with
  | Mounted timeStr random =>
      if is_random random then Some (onMounted timeStr random s) else None
  | RealtimeValue timeStr random newVal =>
      if is_random random
      then Some (on_realtimeValue timeStr random newVal s) else None
  | RealtimeChange newVal => Some (on_realtimeChange newVal s)
  | LastClose newVal => Some (on_lastClose newVal s)
  | FundCode code => Some (on_fundCode code s)
  | SelectPeriod timeStr random key =>
      if is_random random
      then Some (selectPeriod timeStr random key s) else None
  | DataLoaded kline returns => Some (on_loaded kline returns s)
  end.

Fixpoint exec (evs : list event) (s : state) : option state :=
  match evs with
  | [] => Some s
  | e :: evs' =>
      match step e s with
      | Some s' => exec evs' s'
      | None => None
      end
  end.

End Chart.


(** ** The fund filter (the first component of [src/views/Filter.vue]) *)

Module FilterView.

Module FilteredFund.
Record t := {
  code : string; name : string; type : string;
  dayReturn : Q; weekReturn : Q; monthReturn : Q; yearReturn : Q;
  netValue : Q
}.
End FilteredFund.

(** The values of [sortBy]. *)
Inductive SortKey := dayReturn | weekReturn | monthReturn | yearReturn.

Definition pageSize : nat := 30.

(** [typeMap[type] || ''] *)
Definition getTypeCode (type : string) : string :=
  if bool_decide (type = "gp") then "001"
  else if bool_decide (type = "hh") then "002"
  else if bool_decide (type = "zq") then "003"
  else if bool_decide (type = "zs") then "005"
  else if bool_decide (type = "qdii") then "006"
  else if bool_decide (type = "fof") then "015"
  else if bool_decide (type = "hb") then "004"
  else "".

Definition getSortField (sort : SortKey) : string :=
  match sort with
  | dayReturn => "rzdf"
  | weekReturn => "zzf"
  | monthReturn => "jzzzf"
  | yearReturn => "lnzz"
  end.

(** [f[sortKey]] *)
Definition sort_value (sort : SortKey) (f : FilteredFund.t) : Q :=
  match sort with
  | dayReturn => FilteredFund.dayReturn f
  | weekReturn => FilteredFund.weekReturn f
  | monthReturn => FilteredFund.monthReturn f
  | yearReturn => FilteredFund.yearReturn f
  end.

(** The parameters of the request that [loadFunds] sends: [ft], [sc], [pi]
    and [pn] of the query. *)
Record request := { ft : string; sc : string; pi : nat; pn : nat }.

(** The refs of the component.  [inflight] is the [reset] argument of the
    call of [loadFunds] that is waiting for its response, if any;
    [requested] logs the pages asked for since the list was last reset. *)
Record state := State {
  fundType : string;
  minReturn : string;
  sortBy : SortKey;
  fundList : list FilteredFund.t;
  isLoading : bool;
  hasMore : bool;
  page : nat;
  inflight : option bool;
  requested : list nat
}.

Definition init : state := State "" "" dayReturn [] false true 1 None [].

(** [loadFunds(reset)] up to its [await]: the request that is sent, if
    any. *)
Definition loadFunds_start (reset : bool) (s : state) : state * option request :=
  if isLoading s then (s, None)
  else if negb reset && negb (hasMore s) then (s, None)
  else
    let '(list, more, pg, log) :=
      if reset then ([], true, 1%nat, [])
      else (fundList s, hasMore s, page s, requested s) in
    let typeCode :=
      if bool_decide (fundType s ≠ "") then getTypeCode (fundType s) else "" in
    (State (fundType s) (minReturn s) (sortBy s) list true more pg
           (Some reset) (log ++ [pg]),
     Some {| ft := typeCode; sc := getSortField (sortBy s); pi := pg;
             pn := pageSize |}).

Section finish.
(** [parseFloat]; [None] is [NaN]. *)
Context (parseFloat : string → option Q).

(** The rest of [loadFunds(reset)], once the promise of the request has
    resolved with [response] (it never rejects: a failure or the timeout of
    three seconds resolves it with the empty list). *)
Definition loadFunds_finish (reset : bool) (response : list FilteredFund.t)
    (s : state) : state :=
  let more :=
    if bool_decide (length response < pageSize)%nat then false
    else hasMore s in
  let filtered :=
    if bool_decide (minReturn s ≠ "") then
      match parseFloat (minReturn s) with
      | Some minVal =>
          filter (λ f, Qle_bool minVal (sort_value (sortBy s) f) = true) response
      | None => response
      end
    else response in
  State (fundType s) (minReturn s) (sortBy s)
        (if reset then filtered else fundList s ++ filtered)
        false more (page s + 1) None (requested s).

Inductive event :=
| SetFundType (v : string)
| SetMinReturn (v : string)
| SetSortBy (v : SortKey)
| Load (reset : bool)
| Responds (response : list FilteredFund.t).

Definition step (e : event) (s : state) : option state :=
  match e with
  | SetFundType v =>
      Some (State v (minReturn s) (sortBy s) (fundList s) (isLoading s)
                  (hasMore s) (page s) (inflight s) (requested s))
  | SetMinReturn v =>
      Some (State (fundType s) v (sortBy s) (fundList s) (isLoading s)
                  (hasMore s) (page s) (inflight s) (requested s))
  | SetSortBy v =>
      Some (State (fundType s) (minReturn s) v (fundList s) (isLoading s)
                  (hasMore s) (page s) (inflight s) (requested s))
  | Load reset => Some (loadFunds_start reset s).1
  | Responds response =>
      match inflight s with
      | Some reset => Some (loadFunds_finish reset response s)
      | None => None
      end
  end.

Fixpoint exec (evs : list event) (s : state) : option state :=
  match evs with
  | [] => Some s
  | e :: evs' =>
      match step e s with
      | Some s' => exec evs' s'
      | None => None
      end
  end.

End finish.
End FilterView.


(** ** The theme store ([src/stores/theme.ts]) *)

Module Theme.

(** [ThemeMode]; the displayed theme is one of the first two. *)
Inductive ThemeMode := light | dark | auto.

#[global] Instance ThemeMode_eq_dec : EqDecision ThemeMode.
Proof. solve_decision. Defined.

Definition STORAGE_KEY : string := "fund_theme".

(** The store and the part of the browser that it acts on: the entry of
    [STORAGE_KEY] in [localStorage], and whether [localStorage] works (its
    methods throw when it does not); what
    [matchMedia('(prefers-color-scheme: dark)').matches] answers, [None]
    when the browser has no [matchMedia]; the attribute [data-theme] of the
    root element; the content of the [theme-color] meta element, [None]
    when the page has none; whether the listener of [initTheme] is
    installed. *)
Record state := State {
  storage_works : bool;
  stored : option string;
  media : option bool;
  mode : ThemeMode;
  actualTheme : ThemeMode;
  data_theme : option ThemeMode;
  meta_theme : option string;
  listening : bool
}.

Definition mode_string (m : ThemeMode) : string :=
  match m with light => "light" | dark => "dark" | auto => "auto" end.

Definition mode_of_string (s : string) : option ThemeMode :=
  if bool_decide (s = "light") then Some light
  else if bool_decide (s = "dark") then Some dark
  else if bool_decide (s = "auto") then Some auto
  else None.

Definition getSystemTheme (media : option bool) : ThemeMode :=
  match media with
  | Some true => dark
  | _ => light
  end.

(** [loadTheme]: the saved mode when it is one of the three, and [light]
    otherwise, also when reading throws. *)
Definition loadTheme (storage_works : bool) (stored : option string) :
    ThemeMode :=
  if storage_works then
    match stored with
    | Some saved => default light (mode_of_string saved)
    | None => light
    end
  else light.

(** [mode === 'auto' ? getSystemTheme() : mode] *)
Definition resolve (m : ThemeMode) (media : option bool) : ThemeMode :=
  match m with
  | auto => getSystemTheme media
  | _ => m
  end.

Definition applyTheme (m : ThemeMode) (s : state) : state :=
  let actual := resolve m (media s) in
  State (storage_works s) (stored s) (media s) (mode s) (actualTheme s)
        (Some actual)
        (match meta_theme s with
         | Some _ =>
             Some (if bool_decide (actual = dark) then "#0b0e11" else "#ffffff")
         | None => None
         end)
        (listening s).

(** The store as [useThemeStore] creates it in a page whose root element
    has the attribute [attr]. *)
Definition create (works : bool) (saved : option string) (media : option bool)
    (attr : option ThemeMode) (meta : option string) : state :=
  let m := loadTheme works saved in
  State works saved media m (resolve m media) attr meta false.

(** [setTheme]; when [localStorage.setItem] throws, the mode has been
    assigned and the rest of the function does not run. *)
Definition setTheme (newMode : ThemeMode) (s : state) : state :=
  let s := State (storage_works s) (stored s) (media s) newMode
                 (actualTheme s) (data_theme s) (meta_theme s) (listening s) in
  if storage_works s then
    let s := State (storage_works s) (Some (mode_string newMode)) (media s)
                   (mode s) (actualTheme s) (data_theme s) (meta_theme s)
                   (listening s) in
    let s := applyTheme newMode s in
    State (storage_works s) (stored s) (media s) (mode s)
          (resolve newMode (media s)) (data_theme s) (meta_theme s)
          (listening s)
  else s.

Definition toggleTheme (s : state) : state :=
  match mode s with
  | auto =>
      setTheme (if bool_decide (getSystemTheme (media s) = dark)
                then light else dark) s
  | m => setTheme (if bool_decide (m = dark) then light else dark) s
  end.

(** [initTheme]: the listener is installed when the browser has
    [matchMedia]. *)
Definition initTheme (s : state) : state :=
  let s := applyTheme (mode s) s in
  State (storage_works s) (stored s) (media s) (mode s) (actualTheme s)
        (data_theme s) (meta_theme s)
        (listening s || bool_decide (is_Some (media s))).

(** The system preference changes: the listener, if installed, updates
    [actualTheme] in auto mode. *)
Definition system_changes (matches : bool) (s : state) : state :=
  State (storage_works s) (stored s) (Some matches) (mode s)
        (if listening s && bool_decide (mode s = auto)
         then (if matches then dark else light)
         else actualTheme s)
        (data_theme s) (meta_theme s) (listening s).

Inductive event :=
| SetTheme (newMode : ThemeMode)
| ToggleTheme
| InitTheme
| SystemChanges (matches : bool).

(** The preference of the system can be seen to change only where the
    browser has [matchMedia]. *)
Definition step (e : event) (s : state) : option state :=
  match e with
  | SetTheme newMode => Some (setTheme newMode s)
  | ToggleTheme => Some (toggleTheme s)
  | InitTheme => Some (initTheme s)
  | SystemChanges matches =>
      if bool_decide (is_Some (media s)) then Some (system_changes matches s)
      else None
  end.

Fixpoint exec (evs : list event) (s : state) : option state :=
  match evs with
  | [] => Some s
  | e :: evs' =>
      match step e s with
      | Some s' => exec evs' s'
      | None => None
      end
  end.

End Theme.


(** * Verification *)

(** ** Facts about the list helpers *)

Section list_helper_facts.
Context {A : Type}.
Implicit Types (p : A → bool) (l : list A).

Lemma find_splice_none p l :
  (find_splice p l).1 = None → (find_splice p l).2 = l ∧ count_if p l = 0%nat.
Proof.
  induction l as [|x l IH]; simpl; [done|].
  destruct (p x) eqn:Hp; simpl; [done|].
  destruct (find_splice p l) as [r k]; simpl in *.
  intros ->. destruct IH as [-> ->]; done.
Qed.

Lemma find_splice_some p l x :
  (find_splice p l).1 = Some x →
  p x = true ∧ x ∈ l
  ∧ S (length (find_splice p l).2) = length l
  ∧ ∀ q, (count_if q (find_splice p l).2 + (if q x then 1 else 0))%nat
         = count_if q l.
Proof.
  induction l as [|y l IH]; simpl; [done|].
  destruct (p y) eqn:Hp; simpl.
  - intros [= ->]. split_and!; [done|left|done|]. intros q. lia.
  - destruct (find_splice p l) as [r k]; simpl in *.
    intros ->. destruct IH as (? & ? & ? & Hc); [done|].
    split_and!; [done|by right|lia|].
    intros q. specialize (Hc q). simpl. lia.
Qed.

Lemma find_splice_elem p l x :
  x ∈ l → p x = true → is_Some (find_splice p l).1.
Proof.
  induction 1 as [y l|y z l Hin IH]; simpl; intros Hp.
  - rewrite Hp. by eexists.
  - destruct (p z); simpl; [by eexists|].
    destruct (find_splice p l) as [r k]; simpl in *. by apply IH.
Qed.

Lemma count_if_app p l k :
  count_if p (l ++ k) = (count_if p l + count_if p k)%nat.
Proof. induction l as [|x l IH]; simpl; [done|]. rewrite IH. lia. Qed.

Lemma count_if_elem p l x : x ∈ l → p x = true → (1 ≤ count_if p l)%nat.
Proof.
  induction 1 as [y l|y z l Hin IH]; simpl; intros Hp.
  - rewrite Hp. lia.
  - specialize (IH Hp). lia.
Qed.

Lemma find_splice_count_zero p l :
  count_if p l = 0%nat → (find_splice p l).1 = None.
Proof.
  intros Hc. destruct (find_splice p l).1 as [x|] eqn:Hf; [|done].
  apply find_splice_some in Hf as (Hp & _ & _ & Hq).
  specialize (Hq p). rewrite Hp in Hq. lia.
Qed.

Lemma find_splice_app_new p l x :
  (find_splice p l).1 = None → p x = true →
  (find_splice p (l ++ [x])).1 = Some x.
Proof.
  induction l as [|y l IH]; simpl; intros Hn Hp.
  - by rewrite Hp.
  - destruct (p y); [done|].
    destruct (find_splice p l) as [r k]; simpl in *.
    destruct (find_splice p (l ++ [x])) as [r' k']; simpl in *. by apply IH.
Qed.

Lemma count_if_le_length p l : (count_if p l ≤ length l)%nat.
Proof. induction l as [|x l IH]; simpl; [done|]. destruct (p x); lia. Qed.
End list_helper_facts.

(** ** The concurrency limiter *)

Module LimiterFacts.
Import Limiter.
Section facts.
Context {Task R E : Type} `{!EqDecision Task}.
Abbreviation state := (@Limiter.state Task R E).
Abbreviation event := (@Limiter.event Task R E).
Abbreviation outcome := (@Limiter.outcome R E).
Implicit Types (s : state) (t : Task) (o : outcome).

(** What holds in every state of every interleaving: the counter counts the
    tasks that hold a slot, it never passes the bound, a task waits in the
    queue only while all slots are taken, and the tasks were started in the
    order in which they were submitted. *)
Definition inv s : Prop :=
  activeRequests s = Z.of_nat (length (running s) + length (awaiting s))
  ∧ activeRequests s ≤ MAX_CONCURRENT
  ∧ (requestQueue s ≠ [] → activeRequests s = MAX_CONCURRENT)
  ∧ submitted s = started s ++ requestQueue s.

Lemma inv_init : inv init.
Proof. unfold inv, MAX_CONCURRENT; simpl. split_and!; [done|lia|done|done]. Qed.

Lemma inv_withConcurrencyControl t s :
  inv s → inv (withConcurrencyControl t s).1.
Proof.
  intros (Hc & Hle & Hq & Hs). unfold withConcurrencyControl, inv; simpl.
  case_bool_decide as Hlt; simpl.
  - assert (requestQueue s = []) as Hnil.
    { destruct (requestQueue s) eqn:Heq; [done|].
      assert (activeRequests s = MAX_CONCURRENT) by (apply Hq; done). lia. }
    rewrite !length_app; simpl. rewrite Hs, Hnil.
    split_and!; [lia|lia|done|by rewrite !app_nil_r].
  - split_and!; [done|done|intros _; lia|by rewrite Hs, app_assoc].
Qed.

Lemma inv_settle t o s : inv s → inv (settle t o s).
Proof.
  intros (Hc & Hle & Hq & Hs). unfold settle.
  destruct (decide (t ∈ running s)) as [Hin|]; [|done].
  destruct (find_splice_elem (is_task t) (running s) t Hin) as [u Hu].
  { unfold is_task. by apply bool_decide_eq_true. }
  apply find_splice_some in Hu as (_ & _ & Hlen & _).
  unfold inv; simpl. rewrite length_app; simpl.
  split_and!; [lia|done|done|done].
Qed.

Lemma inv_resume t o s :
  inv s → settled_with t s = Some o → inv (resume t o s).1.
Proof.
  intros (Hc & Hle & Hq & Hs) Hw. unfold settled_with in Hw.
  destruct (find_splice (is_awaiting t) (awaiting s)).1 as [p|] eqn:Hf; [|done].
  apply find_splice_some in Hf as (_ & _ & Hlen & _).
  unfold resume, executeNext, inv; simpl.
  destruct (requestQueue s) as [|next rest] eqn:Hqueue; simpl.
  - split_and!; [lia|lia|done|done].
  - assert (activeRequests s = MAX_CONCURRENT) as Hfull by (by apply Hq).
    rewrite bool_decide_eq_true_2 by lia. simpl.
    rewrite length_app; simpl.
    split_and!; [lia|lia|intros _; lia|by rewrite Hs, <- app_assoc].
Qed.

Lemma inv_step e s s' : inv s → step e s = Some s' → inv s'.
Proof.
  intros Hinv. destruct e as [t|t o|t]; simpl.
  - case_decide; [done|]. intros [= <-]. by apply inv_withConcurrencyControl.
  - case_decide; [|done]. intros [= <-]. by apply inv_settle.
  - destruct (settled_with t s) as [o|] eqn:Hw; [|done].
    intros [= <-]. by apply inv_resume.
Qed.

Lemma inv_exec evs s s' : inv s → exec evs s = Some s' → inv s'.
Proof.
  revert s. induction evs as [|e evs IH]; simpl; intros s Hinv.
  - by intros [= <-].
  - destruct (step e s) as [s1|] eqn:Hstep; [|done].
    apply IH. by eapply inv_step.
Qed.

Lemma inv_reachable evs s : exec evs init = Some s → inv s.
Proof. apply inv_exec, inv_init. Qed.

Lemma executeNext_returned s : returned (executeNext s).1 = returned s.
Proof.
  unfold executeNext.
  destruct (_ && _); [|done]. by destruct (requestQueue s).
Qed.

(** Every task is in one place at most: in the queue, running, waiting to
    resume, or answered; and only a submitted task is anywhere. *)
Definition occurrences t s : nat :=
  (count_if (is_task t) (requestQueue s) + count_if (is_task t) (running s)
   + count_if (is_awaiting t) (awaiting s)
   + count_if (is_awaiting t) (returned s))%nat.

Definition unique s : Prop :=
  ∀ t, (occurrences t s ≤ 1)%nat ∧ (t ∉ submitted s → occurrences t s = 0%nat).

Lemma unique_init : unique init.
Proof. intros t. unfold occurrences; simpl. split; [lia|done]. Qed.

Lemma is_task_sym t u : is_task t u = is_task u t.
Proof. unfold is_task. apply bool_decide_ext. naive_solver. Qed.

Lemma unique_withConcurrencyControl t s :
  t ∉ submitted s → unique s → unique (withConcurrencyControl t s).1.
Proof.
  intros Hfresh Huniq u. destruct (Huniq u) as [Hle Hzero].
  destruct (Huniq t) as [_ Ht]. specialize (Ht Hfresh).
  unfold withConcurrencyControl, occurrences in *; simpl.
  case_bool_decide; simpl; rewrite !count_if_app; simpl.
  all: rewrite not_elem_of_app, list_elem_of_singleton.
  all: destruct (decide (u = t)) as [->|Hne].
  all: try (assert (is_task t t = true) as -> by (by apply bool_decide_eq_true);
            split; [lia|by intros [_ ?]]).
  all: assert (is_task u t = false) as ->
         by (apply bool_decide_eq_false; congruence).
  all: split; [lia|]; intros [Hu _]; specialize (Hzero Hu); lia.
Qed.

Lemma unique_settle t o s : unique s → unique (settle t o s).
Proof.
  intros Huniq. unfold settle.
  destruct (decide (t ∈ running s)) as [Hin|]; [|done].
  destruct (find_splice_elem (is_task t) (running s) t Hin) as [x Hx].
  { unfold is_task. by apply bool_decide_eq_true. }
  apply find_splice_some in Hx as (Hp & _ & _ & Hq).
  unfold is_task in Hp. apply bool_decide_eq_true in Hp as ->.
  intros u. destruct (Huniq u) as [Hle Hzero]. specialize (Hq (is_task u)).
  unfold occurrences in *; simpl. rewrite count_if_app; simpl.
  change (is_awaiting u (t, o)) with (is_task u t).
  destruct (is_task u t); (split; [|intros Hu; specialize (Hzero Hu)]); lia.
Qed.

Lemma executeNext_occurrences t s :
  occurrences t (executeNext s).1 = occurrences t s.
Proof.
  unfold executeNext. destruct (_ && _); [|done].
  destruct (requestQueue s) as [|next rest] eqn:Hqueue; [done|].
  unfold occurrences; simpl. rewrite Hqueue, count_if_app; simpl. lia.
Qed.

Lemma executeNext_submitted s : submitted (executeNext s).1 = submitted s.
Proof.
  unfold executeNext. destruct (_ && _); [|done]. by destruct (requestQueue s).
Qed.

Lemma unique_resume t o s :
  unique s → settled_with t s = Some o → unique (resume t o s).1.
Proof.
  intros Huniq Hw u. unfold settled_with in Hw.
  destruct (find_splice (is_awaiting t) (awaiting s)).1 as [x|] eqn:Hx; [|done].
  apply find_splice_some in Hx as (Hp & _ & _ & Hq).
  unfold is_awaiting in Hp. apply bool_decide_eq_true in Hp.
  destruct (Huniq u) as [Hle Hzero]. specialize (Hq (is_awaiting u)).
  unfold resume. rewrite executeNext_occurrences, executeNext_submitted.
  assert (is_awaiting u x = is_task u t) as Hx
    by (unfold is_awaiting, is_task; by rewrite Hp).
  rewrite Hx in Hq.
  unfold occurrences in *; simpl. rewrite count_if_app; simpl.
  change (is_awaiting u (t, o)) with (is_task u t).
  destruct (is_task u t); (split; [|intros Hu; specialize (Hzero Hu)]); lia.
Qed.

(** A running task settles with the outcome it is given, and hands that
    outcome to its caller when it resumes. *)
Lemma settle_running t o s :
  unique s → t ∈ running s →
  settled_with t (settle t o s) = Some o
  ∧ running (settle t o s) = (find_splice (is_task t) (running s)).2.
Proof.
  intros Huniq Hin. destruct (Huniq t) as [Hle _].
  pose proof (count_if_elem (is_task t) _ t Hin) as Hrun.
  unfold occurrences in Hle. unfold settle, settled_with.
  rewrite decide_True by done. simpl. split; [|done].
  rewrite (find_splice_app_new (is_awaiting t) _ (t, o)); [done| |].
  - apply find_splice_count_zero.
    assert (is_task t t = true) as Htt by (by apply bool_decide_eq_true).
    specialize (Hrun Htt). lia.
  - unfold is_awaiting. by apply bool_decide_eq_true.
Qed.

Lemma resume_returns t o s :
  unique s → settled_with t s = Some o →
  result_of t (resume t o s).1 = Some o.
Proof.
  intros Huniq Hw. destruct (Huniq t) as [Hle _].
  unfold settled_with in Hw.
  destruct (find_splice (is_awaiting t) (awaiting s)).1 as [x|] eqn:Hx; [|done].
  apply find_splice_some in Hx as (Hp & Hin & _ & _).
  pose proof (count_if_elem (is_awaiting t) _ x Hin Hp) as Haw.
  unfold occurrences in Hle.
  unfold result_of, resume. rewrite executeNext_returned. simpl.
  rewrite (find_splice_app_new (is_awaiting t) _ (t, o)); [done| |].
  - apply find_splice_count_zero. lia.
  - unfold is_awaiting. by apply bool_decide_eq_true.
Qed.

(** How the three operations change the set of running tasks. *)
Lemma withConcurrencyControl_running t s :
  match (withConcurrencyControl t s).2 with
  | Some t' => t' = t ∧ running (withConcurrencyControl t s).1 = running s ++ [t]
  | None => running (withConcurrencyControl t s).1 = running s
  end
  ∧ submitted (withConcurrencyControl t s).1 = submitted s ++ [t].
Proof. unfold withConcurrencyControl; simpl. by case_bool_decide. Qed.

Lemma resume_running t o s :
  match (resume t o s).2 with
  | Some next => running (resume t o s).1 = running s ++ [next]
  | None => running (resume t o s).1 = running s
  end
  ∧ submitted (resume t o s).1 = submitted s.
Proof.
  unfold resume, executeNext; simpl. destruct (_ && _); [|done].
  by destruct (requestQueue s).
Qed.

Lemma settle_running_count (q : Task → bool) t o s :
  (count_if q (running (settle t o s))
   + (if decide (t ∈ running s) then if q t then 1 else 0 else 0))%nat
  = count_if q (running s)
  ∧ submitted (settle t o s) = submitted s.
Proof.
  unfold settle. destruct (decide (t ∈ running s)) as [Hin|]; [|split; [lia|done]].
  destruct (find_splice_elem (is_task t) (running s) t Hin) as [x Hx].
  { unfold is_task. by apply bool_decide_eq_true. }
  apply find_splice_some in Hx as (Hp & _ & _ & Hq).
  unfold is_task in Hp. apply bool_decide_eq_true in Hp as ->.
  simpl. split; [apply Hq|done].
Qed.

Lemma find_splice_returned_other t u o (l : list (Task * outcome)) :
  u ≠ t →
  (find_splice (is_awaiting u) (l ++ [(t, o)])).1
  = (find_splice (is_awaiting u) l).1.
Proof.
  intros Hne. induction l as [|x l IH]; simpl.
  - unfold is_awaiting; simpl. rewrite bool_decide_eq_false_2; done.
  - destruct (is_awaiting u x); [done|].
    destruct (find_splice _ (l ++ _)) as [r k], (find_splice _ l) as [r' k'].
    done.
Qed.

(** C1. After any sequence of submissions, completions and resumptions, at
    most 5 ([MAX_CONCURRENT]) tasks have been started and are not yet
    completed; the tasks that completed but still hold their slot are
    counted in. *)
Theorem at_most_five_tasks_run evs s :
  exec evs init = Some s →
  (length (running s) ≤ 5)%nat
  ∧ (length (running s) + length (awaiting s) ≤ 5)%nat
  ∧ 0 ≤ activeRequests s ≤ MAX_CONCURRENT.
Proof.
  intros Hreach. destruct (inv_reachable _ _ Hreach) as (Hc & Hle & _).
  unfold MAX_CONCURRENT in *. lia.
Qed.

(** C6. In every state of every interleaving: (1) the tasks were started
    in the order of their submission, and the queue holds the submissions
    that are not started yet, oldest first; a task waits in the queue only
    while all five slots are taken; (2) a submission that finds all slots
    taken is appended to the queue and not started; (3) when a task
    that has completed, with success or with failure, resumes, the oldest
    queued task is taken off the queue and started in the same step; (4)
    whether the task succeeded or failed changes nothing but the outcome
    handed to its own caller: the counter, the queue and the running tasks
    are the same in both cases, and the outcome handed to any other task
    is untouched. *)
Theorem fifo_admission_and_failure_isolation evs s :
  exec evs init = Some s →
  submitted s = started s ++ requestQueue s
  ∧ (requestQueue s ≠ [] → activeRequests s = MAX_CONCURRENT)
  ∧ (∀ t, MAX_CONCURRENT ≤ activeRequests s →
       requestQueue (withConcurrencyControl t s).1 = requestQueue s ++ [t]
       ∧ (withConcurrencyControl t s).2 = None
       ∧ running (withConcurrencyControl t s).1 = running s)
  ∧ (∀ t o next rest,
       settled_with t s = Some o → requestQueue s = next :: rest →
       (resume t o s).2 = Some next
       ∧ requestQueue (resume t o s).1 = rest
       ∧ running (resume t o s).1 = running s ++ [next]
       ∧ started (resume t o s).1 = started s ++ [next])
  ∧ (∀ t r e,
       let ok := (resume t (Fulfilled r) s).1 in
       let ko := (resume t (Failed e) s).1 in
       activeRequests ko = activeRequests ok
       ∧ requestQueue ko = requestQueue ok
       ∧ running ko = running ok
       ∧ awaiting ko = awaiting ok
       ∧ started ko = started ok
       ∧ (resume t (Failed e) s).2 = (resume t (Fulfilled r) s).2
       ∧ ∀ u, u ≠ t → result_of u ko = result_of u s
                     ∧ result_of u ok = result_of u s).
Proof.
  intros Hreach. destruct (inv_reachable _ _ Hreach) as (Hc & Hle & Hq & Hs).
  split_and!.
  - done.
  - done.
  - intros t Hfull. unfold withConcurrencyControl; simpl.
    rewrite bool_decide_eq_false_2 by lia. done.
  - intros t o next rest Hw Hqueue.
    assert (activeRequests s = MAX_CONCURRENT) as Hfull.
    { apply Hq. by rewrite Hqueue. }
    unfold resume, executeNext; simpl. rewrite Hqueue; simpl.
    rewrite bool_decide_eq_true_2 by lia. done.
  - intros t r e. simpl. unfold resume, executeNext; simpl.
    destruct (_ && _).
    + destruct (requestQueue s); simpl; split_and!; try done.
      all: intros u Hne; unfold result_of; simpl;
        by rewrite !find_splice_returned_other.
    + simpl. split_and!; try done.
      intros u Hne; unfold result_of; simpl.
      by rewrite !find_splice_returned_other.
Qed.

End facts.

(** Seven submissions: five start, two wait; the first task then fails and
    its resumption admits the sixth. *)
Definition seven_tasks : list (@Limiter.event nat unit unit) :=
  [Submit 1%nat; Submit 2%nat; Submit 3%nat; Submit 4%nat; Submit 5%nat;
   Submit 6%nat; Submit 7%nat; Settle 1%nat (Failed ()); Resume 1%nat].

Lemma at_most_five_tasks_run_witness :
  ∃ s, exec seven_tasks init = Some s
       ∧ running s = [2; 3; 4; 5; 6]%nat
       ∧ requestQueue s = [7%nat]
       ∧ (length (running s) ≤ 5)%nat.
Proof.
  eexists. split; [vm_compute; reflexivity|].
  split; [reflexivity|]. split; [reflexivity|].
  apply (at_most_five_tasks_run seven_tasks). vm_compute. reflexivity.
Defined.

Lemma fifo_admission_witness :
  ∃ s, exec seven_tasks init = Some s
       ∧ submitted s = started s ++ requestQueue s
       ∧ started s = [1; 2; 3; 4; 5; 6]%nat.
Proof.
  eexists. split; [vm_compute; reflexivity|].
  split; [|reflexivity].
  apply (fifo_admission_and_failure_isolation seven_tasks). vm_compute.
  reflexivity.
Defined.

End LimiterFacts.

(** ** Cache invalidation *)

Module CacheFacts.

(** The keys that [clearFundCache code] builds, in the order of the calls
    of [cache.delete]. *)
Definition fund_keys (code : string) : list string :=
  clear_prefixes ≫= λ prefix,
    (key3 prefix code <$> clear_days) ++ [key2 prefix code].

Section facts.
Context {V : Type} (covers : string → string → bool).
Implicit Types (c : gmap string (CacheEntry V)).

Lemma delete_lookup pattern c k :
  cache.delete covers pattern c !! k
  = if covers pattern k then None else c !! k.
Proof.
  unfold cache.delete. rewrite map_lookup_filter. simpl.
  destruct (c !! k) as [e|]; simpl; [|by destruct (covers pattern k)].
  destruct (covers pattern k); by case_guard.
Qed.

Lemma foldl_delete_lookup (ks : list string) c k :
  foldl (λ c pattern, cache.delete covers pattern c) c ks !! k
  = if existsb (λ pattern, covers pattern k) ks then None else c !! k.
Proof.
  revert c. induction ks as [|k' ks IH]; intros c; [done|].
  simpl. rewrite IH, delete_lookup.
  destruct (covers k' k); simpl; [|done].
  by destruct (existsb _ ks).
Qed.

Lemma clearFundCache_fold code c :
  clearFundCache covers code c
  = foldl (λ c pattern, cache.delete covers pattern c) c (fund_keys code).
Proof. reflexivity. Qed.

(** Exact effect of [clearFundCache] on every key. *)
Lemma clearFundCache_lookup code c k :
  clearFundCache covers code c !! k
  = if existsb (λ pattern, covers pattern k) (fund_keys code) then None
    else c !! k.
Proof. rewrite clearFundCache_fold. apply foldl_delete_lookup. Qed.

Lemma elem_of_fund_keys code k :
  k ∈ fund_keys code ↔
  ∃ prefix, prefix ∈ clear_prefixes
            ∧ (k = key2 prefix code
               ∨ ∃ days, days ∈ clear_days ∧ k = key3 prefix code days).
Proof.
  unfold fund_keys. rewrite list_elem_of_bind. split.
  - intros (prefix & Hk & Hp). exists prefix. split; [done|].
    apply elem_of_app in Hk as [Hk|Hk].
    + apply list_elem_of_fmap in Hk as (days & -> & Hd). right. by exists days.
    + apply list_elem_of_singleton in Hk. by left.
  - intros (prefix & Hp & Hk). exists prefix. split; [|done].
    apply elem_of_app. destruct Hk as [->|(days & Hd & ->)].
    + right. by apply list_elem_of_singleton.
    + left. by apply list_elem_of_fmap_2.
Qed.

(** A key that [clearFundCache] builds has no entry afterwards, when a key
    given to [cache.delete] covers itself. *)
Lemma clearFundCache_built_key code c k :
  (∀ key, covers key key = true) → k ∈ fund_keys code →
  clearFundCache covers code c !! k = None.
Proof.
  intros Hself Hk. rewrite clearFundCache_lookup.
  assert (existsb (λ pattern, covers pattern k) (fund_keys code) = true) as ->;
    [|done].
  apply existsb_exists. exists k. split; [|apply Hself].
  by apply list_elem_of_In.
Qed.

(** X23. What [clearFundCache] clears, whatever the key patterns of
    [cache.delete] cover.  It gives 28 keys to [cache.delete]: for each of
    estimate, netvalue, kline and period the key [prefix_code] and the
    keys [prefix_code_days] for [days] among 30, 60, 90, 180, 365 and 400.
    An entry of the cache is removed or left as it was, never altered; it
    is removed exactly when one of the 28 keys covers its key, and no entry
    is added.  When a key covers itself, none of the 28 keys has an entry
    afterwards. *)
Theorem clearFundCache_clears_what_its_keys_cover code c :
  (∀ key, covers key key = true) →
  length (fund_keys code) = 28%nat
  ∧ (∀ k e, c !! k = Some e →
       (clearFundCache covers code c !! k = None
        ↔ ∃ pattern, pattern ∈ fund_keys code ∧ covers pattern k = true)
       ∧ (clearFundCache covers code c !! k = Some e
          ↔ ∀ pattern, pattern ∈ fund_keys code → covers pattern k = false))
  ∧ (∀ k, c !! k = None → clearFundCache covers code c !! k = None)
  ∧ (∀ prefix, prefix ∈ clear_prefixes →
       clearFundCache covers code c !! key2 prefix code = None
       ∧ ∀ days, days ∈ clear_days →
                 clearFundCache covers code c !! key3 prefix code days = None).
Proof.
  intros Hself. split_and!.
  - reflexivity.
  - intros k e Hk. rewrite clearFundCache_lookup, Hk.
    destruct (existsb _ (fund_keys code)) eqn:Hcov.
    + apply existsb_exists in Hcov as (pattern & Hin & Hcov).
      apply list_elem_of_In in Hin. split.
      * split; [|done]. intros _. by exists pattern.
      * split; [done|]. intros Hnone. by rewrite (Hnone pattern Hin) in Hcov.
    + split.
      * split; [done|]. intros (pattern & Hin & Hp).
        assert (existsb (λ pattern, covers pattern k) (fund_keys code) = true)
          as Hex; [|congruence].
        apply existsb_exists. exists pattern. split; [|done].
        by apply list_elem_of_In.
      * split; [|done]. intros _ pattern Hin.
        destruct (covers pattern k) eqn:Hp; [|done].
        assert (existsb (λ pattern, covers pattern k) (fund_keys code) = true)
          as Hex; [|congruence].
        apply existsb_exists. exists pattern. split; [|done].
        by apply list_elem_of_In.
  - intros k Hk. rewrite clearFundCache_lookup, Hk. by destruct (existsb _ _).
  - intros prefix Hp. split; [|intros days Hd].
    + apply clearFundCache_built_key; [done|].
      apply elem_of_fund_keys. exists prefix. split; [done|by left].
    + apply clearFundCache_built_key; [done|].
      apply elem_of_fund_keys. exists prefix. split; [done|].
      right. by exists days.
Qed.

End facts.

(** Two readings of a key given to [cache.delete]: the key covers itself
    only, or it covers every key that starts with it. *)
Definition literal_keys : string → string → bool := String.eqb.
Definition prefix_keys : string → string → bool := String.prefix.

Lemma prefix_keys_self key : prefix_keys key key = true.
Proof.
  unfold prefix_keys. induction key as [|a key IH]; simpl; [done|].
  by destruct (ascii_dec a a).
Qed.

(** A cache that holds the estimate of two funds and two K-line series of
    the first. *)
Definition two_funds : gmap string (CacheEntry nat) :=
  <["estimate_000001" := {| payload := 1%nat; expiry := 10 |}]>
  (<["kline_000001_400" := {| payload := 2%nat; expiry := 10 |}]>
  (<["kline_000001_120" := {| payload := 3%nat; expiry := 10 |}]>
  (<["estimate_110022" := {| payload := 4%nat; expiry := 10 |}]> ∅))).

(** What becomes of an entry cached under a [days] value that
    [clearFundCache] does not spell out is decided by the patterns of
    [cache.delete], which are not part of the sources at hand: the series
    cached under [kline_000001_120] stays when a key covers itself only,
    and goes when the key [kline_000001] covers the keys that start with
    it. *)
Lemma other_days_follow_the_patterns :
  clearFundCache literal_keys "000001" two_funds !! key3 "kline" "000001" 120
  = two_funds !! key3 "kline" "000001" 120
  ∧ is_Some (two_funds !! key3 "kline" "000001" 120)
  ∧ clearFundCache prefix_keys "000001" two_funds !! key3 "kline" "000001" 120
    = None.
Proof.
  rewrite !clearFundCache_lookup. split_and!.
  - vm_compute. reflexivity.
  - vm_compute. by eexists.
  - vm_compute. reflexivity.
Qed.

Lemma clearFundCache_witness :
  clearFundCache literal_keys "000001" two_funds !! key3 "kline" "000001" 400
  = None
  ∧ clearFundCache literal_keys "000001" two_funds !! key2 "estimate" "110022"
    = two_funds !! key2 "estimate" "110022".
Proof.
  destruct (clearFundCache_clears_what_its_keys_cover literal_keys "000001"
              two_funds String.eqb_refl) as (_ & Hkept & _ & Hbuilt).
  split.
  - apply (Hbuilt "kline");
      [do 2 apply list_elem_of_further; apply list_elem_of_here
      |do 5 apply list_elem_of_further; apply list_elem_of_here].
  - apply (Hkept (key2 "estimate" "110022") {| payload := 4%nat; expiry := 10 |});
      [vm_compute; reflexivity|].
    intros pattern Hin. unfold fund_keys, clear_prefixes, clear_days in Hin.
    simpl in Hin.
    repeat (apply elem_of_cons in Hin as [->|Hin]; [vm_compute; reflexivity|]).
    by apply elem_of_nil in Hin.
Defined.

End CacheFacts.

(** ** Derived analytics *)

Module AnalyticsFacts.


Lemma key3_netvalue_kline code days :
  key3 "netvalue" code days ≠ key3 "kline" code days.
Proof. discriminate. Qed.

Lemma cache_get_other {V} now key key' (c : gmap string (CacheEntry V)) :
  key' ≠ key → (cache.get now key c).2 !! key' = c !! key'.
Proof.
  intros Hne. unfold cache.get. destruct (c !! key) as [e|]; [|done].
  case_bool_decide; simpl; [|done]. by rewrite lookup_delete_ne.
Qed.

Section facts.
Context (CACHE_TTL : CacheTtl) (tz : Z) (Date_parse : string → option Z).



(** *** Period returns *)















Lemma Qltb_lt a b : Qltb a b = true ↔ (a < b)%Q.
Proof.
  unfold Qltb. rewrite negb_true_iff. split.
  - intros Hb. apply Qnot_le_lt. intros Hle.
    apply Qle_bool_iff in Hle. congruence.
  - intros Hlt. destruct (Qle_bool b a) eqn:Hb; [|done].
    apply Qle_bool_iff in Hb. by apply Qlt_not_le in Hlt.
Qed.

(** Rounding to two decimals moves a number by half a unit of the second
    decimal at most. *)
Lemma toFixed2_error x : (Qabs (toFixed2 x - x) <= 1 # 200)%Q.
Proof.
  unfold toFixed2.
  pose proof (Qfloor_le (Qabs x * 100 + (1 # 2))) as Hlo.
  pose proof (Qlt_floor (Qabs x * 100 + (1 # 2))) as Hhi.
  set (n := Qfloor _) in *.
  rewrite inject_Z_plus in Hhi. change (inject_Z 1) with 1%Q in Hhi.
  assert (inject_Z n == 100 * (inject_Z n / 100))%Q as Hn by (field; lra).
  apply Qabs_Qle_condition.
  destruct (Qltb x 0) eqn:Hx.
  - apply Qltb_lt in Hx.
    rewrite (Qabs_neg x) in Hlo, Hhi by lra.
    rewrite (Qmake_Qdiv (- n) 100), inject_Z_opp.
    change (inject_Z (Z.pos 100)) with (100%Q).
    assert (- inject_Z n / 100 == - (inject_Z n / 100))%Q as -> by (field; lra).
    set (m := (inject_Z n / 100)%Q) in *. lra.
  - assert (0 <= x)%Q as Hx'.
    { apply Qnot_lt_le. intros H. apply Qltb_lt in H. congruence. }
    rewrite (Qabs_pos x) in Hlo, Hhi by lra.
    rewrite (Qmake_Qdiv n 100).
    change (inject_Z (Z.pos 100)) with (100%Q).
    set (m := (inject_Z n / 100)%Q) in *. lra.
Qed.

(** The value that [calculatePeriodReturns] computes from a history of at
    least two records whose latest value is positive. *)
Lemma calculatePeriodReturns_value now now2 code (c : Cache) res latest rest c1 :
  (cache_get_as as_period now (key2 "period" code) c).1 = None →
  fetchNetValueHistoryFast CACHE_TTL tz now now2 code 400
    (cache.get now (key2 "period" code) c).2 res = (latest :: rest, c1) →
  rest ≠ [] → (0 < netValue latest)%Q →
  (calculatePeriodReturns CACHE_TTL tz Date_parse now now2 code c res).1
  = omap (period_return Date_parse now2 (latest :: rest) latest) periods.
Proof.
  intros Hmiss Hfetch Hrest Hpos. unfold calculatePeriodReturns.
  unfold cache_get_as in *. simpl in Hmiss |- *. rewrite Hmiss, Hfetch.
  rewrite bool_decide_eq_false_2.
  2:{ destruct rest; [done|]. simpl. lia. }
  destruct (Qle_bool (netValue latest) 0) eqn:Hle; [|done].
  apply Qle_bool_iff in Hle. by apply Qlt_not_le in Hpos.
Qed.

End facts.

(** A concrete run: China Standard Time, 11 March 2024 at 10:00, and a
    trend of two daily values, 1.00 on 3 March and 1.10 on 11 March. *)
Definition sample_ttl : CacheTtl :=
  {| ESTIMATE := 60000; NET_VALUE := 300000; MARKET_INDEX := 30000;
     FUND_INFO := 3600000 |}.







End AnalyticsFacts.

(** ** The estimate channel *)

Module EstimateFacts.
Import Estimate.

Definition for_code (c : string) : Call → bool :=
  λ cl, bool_decide (call_code cl = c).

(** The record that [fn] pushes for a call. *)
Definition record_of (cl : Call) : PendingRequest.t :=
  {| PendingRequest.code := call_code cl; PendingRequest.resolve := cl;
     PendingRequest.reject := cl; PendingRequest.timeout := call_id cl |}.

(** Removing the first record of a code. *)
Lemma splice_has_code c0 (pend : list PendingRequest.t) :
  let pend' := (find_splice (has_code c0) pend).2 in
  (∀ c, count_if (has_code c) pend' ≤ count_if (has_code c) pend)%nat
  ∧ count_if (has_code c0) pend' = (count_if (has_code c0) pend - 1)%nat
  ∧ (∀ c, c ≠ c0 → count_if (has_code c) pend' = count_if (has_code c) pend)
  ∧ (∀ req, req ∈ pend' → req ∈ pend).
Proof.
  intros pend'. subst pend'.
  destruct (find_splice (has_code c0) pend).1 as [req|] eqn:Hf.
  - apply find_splice_some in Hf as (Hp & Hin & _ & Hq).
    unfold has_code in Hp. apply bool_decide_eq_true in Hp.
    split_and!.
    + intros c. specialize (Hq (has_code c)). lia.
    + specialize (Hq (has_code c0)).
      assert (has_code c0 req = true) as Hb by (by apply bool_decide_eq_true).
      rewrite Hb in Hq. lia.
    + intros c Hne. specialize (Hq (has_code c)).
      assert (has_code c req = false) as Hb
        by (apply bool_decide_eq_false; congruence).
      rewrite Hb in Hq. lia.
    + intros r Hr. clear Hq Hin Hp.
      induction pend as [|y l IH]; simpl in *; [done|].
      destruct (has_code c0 y); simpl in *; [by right|].
      destruct (find_splice (has_code c0) l) as [r' k]; simpl in *.
      apply elem_of_cons in Hr as [->|Hr]; [by left|right; by apply IH].
  - apply find_splice_none in Hf as [-> Hz]. rewrite Hz. done.
Qed.


Section facts.
Context (CACHE_TTL : CacheTtl).

(** What holds of the channel in every state of every interleaving. *)
Definition consistent (s : state) : Prop :=
  LimiterFacts.inv (limiter s)
  ∧ LimiterFacts.unique (limiter s)
  ∧ (∀ req, req ∈ pendingRequests s →
       call_code (PendingRequest.resolve req) = PendingRequest.code req)
  ∧ (∀ c, count_if (has_code c) (pendingRequests s)
          ≤ count_if (for_code c) (Limiter.running (limiter s)))%nat.

Lemma consistent_init : consistent init.
Proof.
  split_and!; [apply LimiterFacts.inv_init|apply LimiterFacts.unique_init| |].
  - intros req Hreq. by apply elem_of_nil in Hreq.
  - intros c. simpl. lia.
Qed.

(** A closure of the channel settles its promise: the records that remain
    are among the old ones, and one record of the call's code is gone
    whenever there was one. *)
Lemma consistent_settle cl o s pend' :
  consistent s →
  (∀ c, count_if (has_code c) pend' ≤ count_if (has_code c) (pendingRequests s))%nat →
  count_if (has_code (call_code cl)) pend'
  = (count_if (has_code (call_code cl)) (pendingRequests s) - 1)%nat →
  (∀ req, req ∈ pend' → req ∈ pendingRequests s) →
  ∀ s', limiter s' = Limiter.settle cl o (limiter s) →
        pendingRequests s' = pend' → consistent s'.
Proof.
  intros (Hinv & Huniq & Hcode & Hcount) Hle Hone Hsub s' Hlim Hpend.
  unfold consistent. rewrite Hlim, Hpend. split_and!.
  - by apply LimiterFacts.inv_settle.
  - by apply LimiterFacts.unique_settle.
  - intros req Hreq. by apply Hcode, Hsub.
  - intros c. specialize (Hcount c). specialize (Hle c).
    destruct (LimiterFacts.settle_running_count (for_code c) cl o (limiter s))
      as [Hrun _].
    destruct (decide (cl ∈ Limiter.running (limiter s))) as [Hin|]; [|lia].
    destruct (for_code c cl) eqn:Hc; [|lia].
    unfold for_code in Hc. apply bool_decide_eq_true in Hc as <-.
    assert (for_code (call_code cl) cl = true) as Hb
      by (by apply bool_decide_eq_true).
    pose proof (count_if_elem (for_code (call_code cl)) _ cl Hin Hb) as Hpos.
    lia.
Qed.

Lemma consistent_fall_back cl msg s pend' base :
  consistent s →
  (∀ c, count_if (has_code c) pend' ≤ count_if (has_code c) (pendingRequests s))%nat →
  count_if (has_code (call_code cl)) pend'
  = (count_if (has_code (call_code cl)) (pendingRequests s) - 1)%nat →
  (∀ req, req ∈ pend' → req ∈ pendingRequests s) →
  limiter base = limiter s → pendingRequests base = pend' →
  consistent (fall_back cl msg base).
Proof.
  intros Hs Hle Hone Hsub Hlim Hpend. unfold fall_back.
  destruct (call_persisted cl) as [p|].
  - eapply (consistent_settle cl _ s pend'); try done.
    unfold promise_resolve; simpl. by rewrite Hlim.
  - eapply (consistent_settle cl _ s pend'); try done.
    unfold promise_reject; simpl. by rewrite Hlim.
Qed.

(** The limiter admits a closure, or not, and the closure it admits runs. *)
Lemma consistent_run_admitted admitted l s :
  consistent s →
  LimiterFacts.inv l → LimiterFacts.unique l →
  match admitted with
  | Some cl => Limiter.running l = Limiter.running (limiter s) ++ [cl]
  | None => Limiter.running l = Limiter.running (limiter s)
  end →
  consistent (run_admitted admitted (set_limiter l s)).
Proof.
  intros (_ & _ & Hcode & Hcount) Hinv Huniq Hrun.
  destruct admitted as [cl|]; simpl.
  - unfold consistent; simpl. split_and!; [done|done| |].
    + intros req [Hreq| ->%list_elem_of_singleton]%elem_of_app;
        [by apply Hcode|done].
    + intros c. rewrite Hrun, !count_if_app. simpl.
      specialize (Hcount c).
      assert (has_code c (record_of cl) = for_code c cl) as Hb by reflexivity.
      unfold record_of in Hb. rewrite Hb. destruct (for_code c cl); lia.
  - unfold consistent; simpl. rewrite Hrun. done.
Qed.

Lemma consistent_fetch id code now trading s :
  consistent s → id ∉ used_ids s →
  consistent (fetchFundEstimateFast CACHE_TTL id code now trading s).
Proof.
  intros Hs Hfresh. unfold fetchFundEstimateFast.
  destruct (cache_get_as as_estimate now (key2 "estimate" code) (live s))
    as [cached c] eqn:Hget.
  destruct cached as [cached|]; [done|]. simpl.
  destruct (if negb trading then _ else _) as [p|]; [done|].
  set (cl := {| call_id := id; call_code := code;
                call_persisted := _ |}).
  assert (cl ∉ Limiter.submitted (limiter s)) as Hnew.
  { intros Hin. apply Hfresh. unfold used_ids. apply elem_of_app. left.
    by apply (list_elem_of_fmap_2 call_id) in Hin. }
  destruct Hs as (Hinv & Huniq & Hcode & Hcount).
  destruct (LimiterFacts.withConcurrencyControl_running cl (limiter s))
    as [Hrun _].
  apply (consistent_run_admitted _ _ (set_live c s)).
  - done.
  - by apply LimiterFacts.inv_withConcurrencyControl.
  - by apply LimiterFacts.unique_withConcurrencyControl.
  - simpl. destruct (Limiter.withConcurrencyControl cl (limiter s)).2;
      [by destruct Hrun as [-> ?]|done].
Qed.

Lemma consistent_jsonpgz data now s :
  consistent s → consistent (jsonpgz CACHE_TTL data now s).
Proof.
  intros Hs. unfold jsonpgz. destruct data as [d|]; [|done].
  destruct (fundcode d) as [fc|]; [|done]. case_bool_decide; [done|].
  destruct (find_splice (has_code fc) (pendingRequests s)) as [found rest] eqn:Hf.
  destruct found as [req|]; [|done].
  assert ((find_splice (has_code fc) (pendingRequests s)).1 = Some req) as Hreq
    by (by rewrite Hf).
  apply find_splice_some in Hreq as (Hp & Hin & _ & _).
  unfold has_code in Hp. apply bool_decide_eq_true in Hp.
  destruct Hs as (Hinv & Huniq & Hcode & Hcount).
  pose proof (Hcode req Hin) as Hreqcode.
  destruct (splice_has_code fc (pendingRequests s)) as (Hle & Hone & _ & Hsub).
  rewrite Hf in Hle, Hone, Hsub. simpl in Hle, Hone, Hsub.
  eapply (consistent_settle (PendingRequest.resolve req) _ s rest);
    [done|done| |done|reflexivity|reflexivity].
  by rewrite Hreqcode, Hp.
Qed.

Lemma consistent_on_timeout cl s : consistent s → consistent (on_timeout cl s).
Proof.
  intros Hs. unfold on_timeout.
  destruct (splice_has_code (call_code cl) (pendingRequests s))
    as (Hle & Hone & _ & Hsub).
  by eapply (consistent_fall_back cl _ s).
Qed.

Lemma consistent_on_script_error cl s :
  consistent s → consistent (on_script_error cl s).
Proof.
  intros Hs. unfold on_script_error.
  destruct (splice_has_code (call_code cl) (pendingRequests s))
    as (Hle & Hone & _ & Hsub).
  simpl in *.
  destruct (find_splice (has_code (call_code cl)) (pendingRequests s))
    as [found rest] eqn:Hf.
  simpl in *. destruct found as [req|].
  - by eapply (consistent_fall_back cl _ s rest).
  - pose proof (find_splice_none (has_code (call_code cl)) (pendingRequests s))
      as Hnone.
    rewrite Hf in Hnone. destruct (Hnone eq_refl) as [Hrest _].
    simpl in Hrest. subst rest.
    by eapply (consistent_fall_back cl _ s (pendingRequests s)).
Qed.

Lemma consistent_resume cl o s :
  consistent s → Limiter.settled_with cl (limiter s) = Some o →
  consistent (resume cl o s).
Proof.
  intros Hs Hw. unfold resume.
  destruct (LimiterFacts.resume_running cl o (limiter s)) as [Hrun _].
  pose proof Hs as (Hinv & Huniq & _).
  apply consistent_run_admitted; [done| | |done].
  - by apply LimiterFacts.inv_resume.
  - by apply LimiterFacts.unique_resume.
Qed.

Lemma consistent_step e s s' :
  consistent s → step CACHE_TTL e s = Some s' → consistent s'.
Proof.
  intros Hs. destruct e as [id code now trading|data now|cl|cl|cl|cl]; simpl.
  - case_decide; [done|]. intros [= <-]. by apply consistent_fetch.
  - destruct (jsonpInitialized s); [|done]. intros [= <-].
    by apply consistent_jsonpgz.
  - case_decide; [|done]. intros [= <-]. by apply consistent_on_timeout.
  - case_decide; [|done]. intros [= <-]. by apply consistent_on_script_error.
  - case_decide; [|done]. by intros [= <-].
  - destruct (Limiter.settled_with cl (limiter s)) as [o|] eqn:Hw; [|done].
    intros [= <-]. by apply consistent_resume.
Qed.

Lemma consistent_exec evs s s' :
  consistent s → exec CACHE_TTL evs s = Some s' → consistent s'.
Proof.
  revert s. induction evs as [|e evs IH]; simpl; intros s Hs.
  - by intros [= <-].
  - destruct (step CACHE_TTL e s) as [s1|] eqn:Hstep; [|done].
    apply IH. by eapply consistent_step.
Qed.

Lemma consistent_reachable evs s :
  exec CACHE_TTL evs init = Some s → consistent s.
Proof. apply consistent_exec, consistent_init. Qed.

Lemma limiter_run_admitted admitted s :
  limiter (run_admitted admitted s) = limiter s.
Proof. by destruct admitted. Qed.

Lemma limiter_fall_back cl msg s :
  limiter (fall_back cl msg s)
  = Limiter.settle cl (match call_persisted cl with
                       | Some p => Limiter.Fulfilled p
                       | None => Limiter.Failed msg
                       end) (limiter s)
  ∧ live (fall_back cl msg s) = live s
  ∧ persist (fall_back cl msg s) = persist s
  ∧ pendingRequests (fall_back cl msg s) = pendingRequests s.
Proof. unfold fall_back. by destruct (call_persisted cl). Qed.

(** The outcome of the fallback: the value read from the persisted cache
    when the call was made, or an error. *)
Definition fallback_outcome (cl : Call) (msg : string) :
    @Limiter.outcome FundEstimate string :=
  match call_persisted cl with
  | Some p => Limiter.Fulfilled p
  | None => Limiter.Failed msg
  end.

(** A handler that ends with the fallback settles a running call with the
    outcome of the fallback, and the caller receives it when the limiter
    resumes the call. *)
Lemma fall_back_settles cl msg s base :
  consistent s → cl ∈ Limiter.running (limiter s) →
  limiter base = limiter s → consistent (fall_back cl msg base) →
  let s' := fall_back cl msg base in
  let o := fallback_outcome cl msg in
  Limiter.settled_with cl (limiter s') = Some o
  ∧ step CACHE_TTL (Resumes cl) s' = Some (resume cl o s')
  ∧ Limiter.result_of cl (limiter (resume cl o s')) = Some o.
Proof.
  intros (_ & Huniq & _) Hin Hbase (_ & Huniq' & _) s' o.
  destruct (limiter_fall_back cl msg base) as (Hlim & _).
  fold s' in Hlim, Huniq'. fold (fallback_outcome cl msg) in Hlim. fold o in Hlim.
  rewrite Hbase in Hlim.
  destruct (LimiterFacts.settle_running cl o (limiter s) Huniq Hin) as [Hw _].
  rewrite <- Hlim in Hw. split_and!.
  - done.
  - simpl. by rewrite Hw.
  - unfold resume. rewrite limiter_run_admitted. simpl.
    by apply LimiterFacts.resume_returns.
Qed.

(** C3, as the code has it.  [fetchFundEstimateFast] reads the persisted
    cache once, when it is called, and the closure it submits keeps that
    value.  When the timer of a call fires, or its script fails to load,
    while the promise of the call is still pending, the promise settles
    with that value if there was one and is rejected with an error
    otherwise; the caller receives the same outcome when the limiter
    resumes the call; neither cache is written. *)
Theorem timeout_or_error_falls_back evs s :
  exec CACHE_TTL evs init = Some s →
  (∀ id code now trading cl,
     cl ∈ Limiter.submitted
            (limiter (fetchFundEstimateFast CACHE_TTL id code now trading s)) →
     cl ∉ Limiter.submitted (limiter s) →
     cl = {| call_id := id; call_code := code;
             call_persisted :=
               persistCache.get (key2 "estimate" code) (persist s) |})
  ∧ (∀ cl, cl ∈ Limiter.running (limiter s) →
       (let s' := on_timeout cl s in
        let o := fallback_outcome cl ("超时: " +:+ call_code cl) in
        Limiter.settled_with cl (limiter s') = Some o
        ∧ step CACHE_TTL (Resumes cl) s' = Some (resume cl o s')
        ∧ Limiter.result_of cl (limiter (resume cl o s')) = Some o
        ∧ live s' = live s ∧ persist s' = persist s)
       ∧ (let s' := on_script_error cl s in
          let o := fallback_outcome cl ("失败: " +:+ call_code cl) in
          Limiter.settled_with cl (limiter s') = Some o
          ∧ step CACHE_TTL (Resumes cl) s' = Some (resume cl o s')
          ∧ Limiter.result_of cl (limiter (resume cl o s')) = Some o
          ∧ live s' = live s ∧ persist s' = persist s)).
Proof.
  intros Hreach. pose proof (consistent_reachable _ _ Hreach) as Hs. split.
  - intros id code now trading cl. unfold fetchFundEstimateFast.
    destruct (cache_get_as as_estimate now (key2 "estimate" code) (live s))
      as [cached c] eqn:Hget.
    destruct cached as [cached|]; [done|]. simpl.
    destruct (if negb trading then _ else _) as [p|]; [done|].
    rewrite limiter_run_admitted. simpl.
    destruct (LimiterFacts.withConcurrencyControl_running
                {| call_id := id; call_code := code;
                   call_persisted :=
                     persistCache.get (key2 "estimate" code) (persist s) |}
                (limiter s)) as [_ ->].
    intros [Hold| ->%list_elem_of_singleton]%elem_of_app Hnew; done.
  - intros cl Hin. split.
    + pose proof (consistent_on_timeout cl s Hs) as Hs'.
      unfold on_timeout in *.
      match type of Hs' with consistent (fall_back _ ?msg ?base) =>
        destruct (fall_back_settles cl msg s base Hs Hin eq_refl Hs')
          as (Hw & Hstep & Hres);
        destruct (limiter_fall_back cl msg base) as (_ & Hlive & Hpersist & _)
      end.
      split_and!; done.
    + pose proof (consistent_on_script_error cl s Hs) as Hs'.
      unfold on_script_error in *.
      match type of Hs' with consistent (fall_back _ ?msg ?base) =>
        assert (limiter base = limiter s ∧ live base = live s
                ∧ persist base = persist s) as (Hbl & Hbv & Hbp)
          by (by destruct (find_splice _ _) as [[?|] ?]);
        destruct (fall_back_settles cl msg s base Hs Hin Hbl Hs')
          as (Hw & Hstep & Hres);
        destruct (limiter_fall_back cl msg base) as (_ & Hlive & Hpersist & _)
      end.
      split_and!; [done|done|done|congruence|congruence].
Qed.

(** C4. A response that matches no pending record leaves the whole state
    as it is: [data] is missing, its [fundcode] is missing or empty, or no
    pending record carries that code.  Neither cache is written and no
    promise is settled.  In particular a response that comes after the
    timer of its call has fired and removed the only record of the code is
    discarded. *)
Theorem unmatched_response_is_discarded now s :
  (∀ data,
     match data with
     | None => True
     | Some d =>
         match fundcode d with
         | None => True
         | Some fc =>
             fc = "" ∨ ∀ req, req ∈ pendingRequests s →
                              PendingRequest.code req ≠ fc
         end
     end →
     jsonpgz CACHE_TTL data now s = s)
  ∧ (∀ cl d,
       fundcode d = Some (call_code cl) →
       (count_if (has_code (call_code cl)) (pendingRequests s) ≤ 1)%nat →
       let s' := on_timeout cl s in
       jsonpgz CACHE_TTL (Some d) now s' = s'
       ∧ live (jsonpgz CACHE_TTL (Some d) now s') = live s
       ∧ persist (jsonpgz CACHE_TTL (Some d) now s') = persist s).
Proof.
  split.
  - intros data Hun. unfold jsonpgz. destruct data as [d|]; [|done].
    destruct (fundcode d) as [fc|]; [|done].
    case_bool_decide as Hempty; [done|]. destruct Hun as [?|Hun]; [done|].
    destruct (find_splice (has_code fc) (pendingRequests s)) as [found rest] eqn:Hf.
    destruct found as [req|]; [|done].
    assert ((find_splice (has_code fc) (pendingRequests s)).1 = Some req) as Hreq
      by (by rewrite Hf).
    apply find_splice_some in Hreq as (Hp & Hin & _).
    unfold has_code in Hp. apply bool_decide_eq_true in Hp.
    by destruct (Hun req Hin).
  - intros cl d Hd Hcount s'.
    assert (jsonpgz CACHE_TTL (Some d) now s' = s') as Hsame.
    { unfold jsonpgz. rewrite Hd. case_bool_decide; [done|].
      destruct (splice_has_code (call_code cl) (pendingRequests s))
        as (_ & Hone & _).
      destruct (limiter_fall_back cl ("超时: " +:+ call_code cl)
                  (set_pendingRequests
                     (find_splice (has_code (call_code cl)) (pendingRequests s)).2
                     (cleanup cl
                        (set_timers (remove_id (call_id cl) (timers s)) s))))
        as (_ & _ & _ & Hpend).
      assert (pendingRequests s'
              = (find_splice (has_code (call_code cl)) (pendingRequests s)).2)
        as Hpend' by exact Hpend.
      rewrite Hpend'.
      pose proof (find_splice_count_zero (has_code (call_code cl))
                    (find_splice (has_code (call_code cl)) (pendingRequests s)).2)
        as Hz.
      destruct (find_splice (has_code (call_code cl))
                  (find_splice (has_code (call_code cl)) (pendingRequests s)).2)
        as [found rest].
      simpl in Hz. rewrite Hz; [done|]. lia. }
    rewrite Hsame. split; [done|].
    destruct (limiter_fall_back cl ("超时: " +:+ call_code cl)
                (set_pendingRequests
                   (find_splice (has_code (call_code cl)) (pendingRequests s)).2
                   (cleanup cl
                      (set_timers (remove_id (call_id cl) (timers s)) s))))
      as (_ & Hlive & Hpersist & _).
    split; [exact Hlive|exact Hpersist].
Qed.


End facts.

(** Concrete runs of the channel. *)
Definition ttl : CacheTtl :=
  {| ESTIMATE := 60000; NET_VALUE := 300000; MARKET_INDEX := 30000;
     FUND_INFO := 3600000 |}.
Definition estimate_000001 : FundEstimate :=
  {| fundcode := Some "000001"; properties := [("gsz", "1.2345")] |}.
Definition call_1 : Call :=
  {| call_id := 1; call_code := "000001"; call_persisted := None |}.
Definition call_2 : Call :=
  {| call_id := 2; call_code := "000001"; call_persisted := None |}.
Definition call_3 : Call :=
  {| call_id := 3; call_code := "000001";
     call_persisted := Some estimate_000001 |}.

(** Two overlapping fetches of one code, and the answer of the feed. *)
Definition overlapping_fetches : list event :=
  [Fetch 1 "000001" 1000 true; Fetch 2 "000001" 1001 true].
Definition overlapping_then_answer : list event :=
  overlapping_fetches ++ [Jsonp (Some estimate_000001) 1500].

(** A fetch that is answered, and a later one, after the live entry has
    expired, during trading hours. *)
Definition answered_then_refetched : list event :=
  [Fetch 1 "000001" 1000 true; Jsonp (Some estimate_000001) 1500;
   Resumes call_1; Fetch 3 "000001" 900000 true].

Lemma timeout_falls_back_witness :
  let s := default init (exec ttl answered_then_refetched init) in
  call_3 ∈ Limiter.running (limiter s)
  ∧ Limiter.result_of call_3
      (limiter (resume call_3 (Limiter.Fulfilled estimate_000001)
                       (on_timeout call_3 s)))
    = Some (Limiter.Fulfilled estimate_000001).
Proof.
  intros s.
  assert (exec ttl answered_then_refetched init = Some s) as Hreach
    by (vm_compute; reflexivity).
  assert (call_3 ∈ Limiter.running (limiter s)) as Hin
    by (vm_compute; apply list_elem_of_here).
  split; [exact Hin|].
  destruct (timeout_or_error_falls_back ttl answered_then_refetched s Hreach)
    as [_ Hrun].
  destruct (Hrun call_3 Hin) as [(_ & _ & Hres & _) _].
  exact Hres.
Defined.

(** C3 as stated fails when it is read with the persisted value at the
    time of the timeout: of two overlapping fetches of one code, the first
    is answered and writes the persisted cache; the timer of the second
    then fires, a persisted value exists, and the second fetch is
    rejected. *)
Lemma timeout_rejects_beside_persisted_value :
  ∃ s s', exec ttl overlapping_then_answer init = Some s
          ∧ persistCache.get (key2 "estimate" "000001") (persist s)
            = Some estimate_000001
          ∧ call_2 ∈ Limiter.running (limiter s)
          ∧ exec ttl [TimerFires call_2; Resumes call_2] s = Some s'
          ∧ Limiter.result_of call_2 (limiter s')
            = Some (Limiter.Failed "超时: 000001").
Proof.
  eexists _, _. split; [vm_compute; reflexivity|].
  split; [vm_compute; reflexivity|].
  split; [apply list_elem_of_here|].
  split; vm_compute; reflexivity.
Qed.

Lemma unmatched_response_witness :
  let s := default init
             (exec ttl [Fetch 1 "000001" 1000 true; TimerFires call_1] init) in
  pendingRequests s = []
  ∧ jsonpgz ttl (Some estimate_000001) 9500 s = s.
Proof.
  intros s.
  assert (pendingRequests s = []) as Hnil by (vm_compute; reflexivity).
  split; [exact Hnil|].
  destruct (unmatched_response_is_discarded ttl 9500 s) as [Hun _].
  apply (Hun (Some estimate_000001)). simpl. right.
  intros req Hreq. rewrite Hnil in Hreq. by apply elem_of_nil in Hreq.
Defined.



End EstimateFacts.

(** ** Fail-soft fetchers of market data *)

Module MarketFacts.

(** [undefined] or [null]: the values on which a property access throws. *)
Definition nullish (v : jsval) : Prop := v = JUndefined ∨ v = JNull.

(** A list of items that [map] cannot turn into entries: not an array, or
    an array with an [undefined] or [null] element. *)
Definition unreadable (diff : jsval) : Prop :=
  match diff with
  | JArr items => ∃ item, item ∈ items ∧ nullish item
  | _ => True
  end.

(** A network or parse failure of a direct request: the request fails,
    the body is not JSON, or the payload has a list of items that cannot
    be read. *)
Definition fetch_failure (res : fetch_result) : Prop :=
  match res with
  | NetworkError | BadJson => True
  | Json data =>
      let diff := opt_prop (opt_prop data "data") "diff" in
      truthy diff = true ∧ unreadable diff
  end.

(** A parse failure of the JSONP payload of the global indices: the list
    of items is not an array, or one of its first eight elements is
    [undefined] or [null]. *)
Definition callback_failure (data : jsval) : Prop :=
  let diff := opt_prop (opt_prop data "data") "diff" in
  truthy diff = true
  ∧ match diff with
    | JArr items =>
        ∃ i item, (i < 8)%nat ∧ items !! i = Some item ∧ nullish item
    | _ => True
    end.

Lemma prop_none item name : prop item name = None ↔ nullish item.
Proof.
  unfold nullish. destruct item; simpl; split; intros H;
    first [done|by left|by right|by destruct H].
Qed.

Lemma market_item_none item : nullish item → market_item item = None.
Proof. by intros [-> | ->]. Qed.

Lemma ranking_item_none item : nullish item → ranking_item item = None.
Proof. by intros [-> | ->]. Qed.

Lemma mapM_unreadable {B} (f : jsval → option B) diff :
  (∀ item, nullish item → f item = None) → unreadable diff →
  as_array diff ≫= mapM f = None.
Proof.
  intros Hf Hun. destruct diff; try done. simpl in *.
  destruct Hun as (item & Hin & Hnull). apply mapM_None.
  apply Exists_exists. exists item. split; [done|by apply Hf].
Qed.

Section facts.
Context (CACHE_TTL : CacheTtl) (ToNumber_other : jsval → option Q).

Lemma market_body_failure now2 (c : Cache) res :
  fetch_failure res → market_body CACHE_TTL now2 c res = None.
Proof.
  destruct res as [| |data]; [done|done|]. simpl. intros [Ht Hun].
  rewrite Ht. simpl.
  pose proof (mapM_unreadable market_item _ market_item_none Hun) as Hnone.
  destruct (as_array _) as [items|]; [|done]. simpl in *. by rewrite Hnone.
Qed.

Lemma ranking_body_failure now2 order pageSize (c : Cache) res :
  fetch_failure res → ranking_body now2 order pageSize c res = None.
Proof.
  destruct res as [| |data]; [done|done|]. simpl. intros [Ht Hun].
  rewrite Ht. simpl.
  pose proof (mapM_unreadable ranking_item _ ranking_item_none Hun) as Hnone.
  destruct (as_array _) as [items|]; [|done]. simpl in *. by rewrite Hnone.
Qed.

Lemma forEach_global_throws idx items results :
  (∃ i item, (idx + i < 8)%nat ∧ items !! i = Some item ∧ nullish item) →
  (forEach_global ToNumber_other idx items results).2 = true.
Proof.
  revert idx results. induction items as [|x items IH]; intros idx results.
  - by intros (i & item & _ & Hi & _).
  - intros (i & item & Hlt & Hi & Hnull). simpl.
    destruct (global_item ToNumber_other idx x results) as [results'|] eqn:Hx;
      [|done].
    destruct i as [|i]; simpl in Hi.
    + injection Hi as ->. unfold global_item in Hx.
      destruct (lookup_lt_is_Some_2 indices idx) as [[[code name] region] Hidx].
      { simpl. lia. }
      rewrite Hidx in Hx. apply prop_none with (name := "f2") in Hnull.
      by rewrite Hnull in Hx.
    + apply IH. exists i, item. split; [lia|done].
Qed.

Lemma global_results_failure data :
  callback_failure data →
  (global_results ToNumber_other (JsonpCallback data)).2 = true.
Proof.
  intros [Ht Hun]. unfold global_results. rewrite Ht.
  destruct (opt_prop (opt_prop data "data") "diff"); simpl; try done.
  by apply forEach_global_throws.
Qed.

(** C8, as the code has it.  None of the three fetchers ever rejects.
    When the cache has no live entry: on a network or parse failure
    [fetchMarketIndicesFast] and [fetchFundRankingFast] answer the empty
    list and write nothing; [fetchGlobalIndices] answers the hardcoded
    zero-valued list on a timeout or a transport error; on a payload that
    cannot be read to its end it answers the zero-valued list when no index
    was collected before the failure, and the indices collected so far
    otherwise. *)
Theorem market_fetchers_fail_soft now now2 (c : Cache) :
  (∀ res,
     (∃ r, fetchMarketIndicesFast CACHE_TTL now now2 c res = Fulfils r)
     ∧ ((cache_get_as as_market now "market_indices" c).1 = None →
        fetch_failure res →
        fetchMarketIndicesFast CACHE_TTL now now2 c res
        = Fulfils ([], (cache.get now "market_indices" c).2)))
  ∧ (∀ order pageSize res,
       (∃ r, fetchFundRankingFast now now2 order pageSize c res = Fulfils r)
       ∧ ((cache_get_as as_ranking now (ranking_key order pageSize) c).1 = None →
          fetch_failure res →
          fetchFundRankingFast now now2 order pageSize c res
          = Fulfils ([], (cache.get now (ranking_key order pageSize) c).2)))
  ∧ (∀ res,
       (∃ r, fetchGlobalIndices CACHE_TTL ToNumber_other now now2 c res
             = Fulfils r)
       ∧ ((cache_get_as as_global now "global_indices" c).1 = None →
          let c' := (cache.get now "global_indices" c).2 in
          (res = JsonpTimeout ∨ res = JsonpError →
           fetchGlobalIndices CACHE_TTL ToNumber_other now now2 c res
           = Fulfils (getDefaultGlobalIndices, c'))
          ∧ (∀ data, res = JsonpCallback data → callback_failure data →
               let collected := (global_results ToNumber_other res).1 in
               (global_results ToNumber_other res).2 = true
               ∧ (collected = [] →
                  fetchGlobalIndices CACHE_TTL ToNumber_other now now2 c res
                  = Fulfils (getDefaultGlobalIndices, c'))
               ∧ (collected ≠ [] →
                  fetchGlobalIndices CACHE_TTL ToNumber_other now now2 c res
                  = Fulfils (collected,
                             cache.set now2 "global_indices" (CGlobal collected)
                                       (MARKET_INDEX CACHE_TTL) c'))))).
Proof.
  split_and!.
  - intros res. unfold fetchMarketIndicesFast, cache_get_as. simpl. split.
    + destruct (_ ≫= as_market); [by eexists|].
      destruct (market_body _ _ _ _); by eexists.
    + intros -> Hfail. by rewrite market_body_failure.
  - intros order pageSize res. unfold fetchFundRankingFast, cache_get_as.
    simpl. split.
    + destruct (_ ≫= as_ranking); [by eexists|].
      destruct (ranking_body _ _ _ _ _); by eexists.
    + intros -> Hfail. by rewrite ranking_body_failure.
  - intros res. split.
    + unfold fetchGlobalIndices, cache_get_as. simpl.
      destruct (_ ≫= as_global); [by eexists|]. case_bool_decide; by eexists.
    + intros Hmiss c'. unfold fetchGlobalIndices, cache_get_as in *.
      simpl in Hmiss. cbn [fst snd]. rewrite Hmiss. fold c'. split.
      * by intros [-> | ->].
      * intros data -> Hfail. split_and!.
        -- by apply global_results_failure.
        -- intros Hnil. by rewrite Hnil.
        -- intros Hne. rewrite bool_decide_eq_false_2; [done|].
           by destruct (global_results _ _).1.
Qed.

End facts.

(** A payload of the global indices whose second item is [null]: one index
    is collected before [forEach] throws. *)
Definition broken_payload : jsval :=
  JObj [("data",
         JObj [("diff",
                JArr [JObj [("f2", JNum 310000); ("f3", JNum 125);
                            ("f4", JNum 3800)];
                      JNull])])].

Definition shanghai : GlobalIndex.t :=
  {| GlobalIndex.name := "上证指数"; GlobalIndex.code := "1.000001";
     GlobalIndex.price := Some (310000 / 100)%Q;
     GlobalIndex.change := Some (3800 / 100)%Q;
     GlobalIndex.changePercent := Some (125 / 100)%Q;
     GlobalIndex.region := "cn" |}.

Lemma market_fetchers_witness :
  fetchMarketIndicesFast AnalyticsFacts.sample_ttl 1000 1200 ∅ NetworkError
  = Fulfils ([], ∅)
  ∧ fetchGlobalIndices AnalyticsFacts.sample_ttl (λ _, None) 1000 9000 ∅
      JsonpTimeout
    = Fulfils (getDefaultGlobalIndices, ∅).
Proof.
  destruct (market_fetchers_fail_soft AnalyticsFacts.sample_ttl (λ _, None)
              1000 1200 ∅) as (Hmarket & _ & _).
  destruct (market_fetchers_fail_soft AnalyticsFacts.sample_ttl (λ _, None)
              1000 9000 ∅) as (_ & _ & Hglobal).
  split.
  - destruct (Hmarket NetworkError) as [_ Hfail]. by apply Hfail.
  - destruct (Hglobal JsonpTimeout) as [_ Hfail].
    destruct (Hfail eq_refl) as [Htimeout _]. apply Htimeout. by left.
Defined.

(** C8 as stated fails for [fetchGlobalIndices]: the payload cannot be
    read to its end, the exception is caught and ignored, and the answer
    is the one index collected before it, not the zero-valued list. *)
Lemma global_indices_partial_on_failure :
  callback_failure broken_payload
  ∧ (global_results (λ _, None) (JsonpCallback broken_payload)).2 = true
  ∧ (∃ c', fetchGlobalIndices AnalyticsFacts.sample_ttl (λ _, None) 1000 1200 ∅
             (JsonpCallback broken_payload) = Fulfils ([shanghai], c'))
  ∧ [shanghai] ≠ getDefaultGlobalIndices.
Proof.
  split_and!.
  - split; [reflexivity|]. simpl. exists 1%nat, JNull.
    split; [lia|]. split; [reflexivity|by right].
  - reflexivity.
  - eexists. vm_compute. reflexivity.
  - discriminate.
Qed.

End MarketFacts.


(** * The history fetchers: shape of the answer and caching *)

Module HistoryFacts.
Import AnalyticsFacts.

Lemma slice_last_suffix {A} days (l : list A) :
  ∃ older, l = older ++ slice_last days l.
Proof.
  unfold slice_last. case_bool_decide; [by exists []|].
  exists (take (length l - days) l). by rewrite take_drop.
Qed.

Lemma slice_last_length {A} days (l : list A) :
  length (slice_last days l)
  = if bool_decide (days = 0%nat) then length l else (days `min` length l)%nat.
Proof.
  unfold slice_last. case_bool_decide; [done|]. rewrite length_drop. lia.
Qed.

Lemma slice_last_nonempty {A} days (l : list A) :
  l ≠ [] → slice_last days l ≠ [].
Proof.
  intros Hl Hs. apply (f_equal length) in Hs.
  rewrite slice_last_length in Hs. destruct l; [done|].
  case_bool_decide; simpl in Hs; lia.
Qed.

Lemma mapM_fmap_Some {A B} (f : A → B) (l : list A) :
  mapM (fmap f) (Some <$> l) = Some (f <$> l).
Proof.
  apply mapM_Some_2. rewrite Forall2_fmap.
  apply Forall_Forall2_diag, Forall_true. done.
Qed.

Lemma mapM_fmap_None {A B} (f : A → B) (l : list (option A)) :
  mapM (fmap f) l = None ↔ None ∈ l.
Proof.
  induction l as [|a l IH]; simpl.
  - split; [done|]. by intros ?%elem_of_nil.
  - destruct a as [a|]; simpl.
    + destruct (mapM (fmap f) l) eqn:Hl; simpl.
      * split; [done|]. intros [?|Hin]%elem_of_cons; [done|].
        by apply IH in Hin.
      * split; [|done]. intros _. right. by apply IH.
    + split; [|done]. intros _. by left.
Qed.

Lemma cache_get_miss_again {T} (view : cache_value → option T) now t key
    (c : Cache) :
  now ≤ t →
  (cache_get_as view now key c).1 = None →
  (cache_get_as view t key (cache.get now key c).2).1 = None.
Proof.
  unfold cache_get_as, cache.get. simpl. intros Ht.
  destruct (c !! key) as [e|] eqn:Hc.
  - case_bool_decide; simpl.
    + intros _. by rewrite lookup_delete_eq.
    + rewrite ?Hc. intros Hv. case_bool_decide; simpl; done.
  - simpl. by rewrite Hc.
Qed.

Lemma cache_get_live {T} (view : cache_value → option T) t key (c : Cache)
    v e :
  c !! key = Some {| payload := v; expiry := e |} → t ≤ e →
  cache_get_as view t key c = (view v, c).
Proof.
  intros Hc Ht. unfold cache_get_as, cache.get. rewrite Hc. simpl.
  by rewrite bool_decide_eq_false_2 by lia.
Qed.

Lemma cache_get_as_ext {T} (view : cache_value → option T) t key
    (c c' : Cache) :
  c !! key = c' !! key →
  (cache_get_as view t key c).1 = (cache_get_as view t key c').1.
Proof.
  intros Heq. unfold cache_get_as, cache.get. simpl. rewrite Heq.
  destruct (c' !! key) as [e|]; [|done]. by case_bool_decide.
Qed.

Lemma toFixed2_ge x : (-100 <= x)%Q -> (-100 <= toFixed2 x)%Q.
Proof.
  intros Hx. unfold toFixed2.
  destruct (Qltb x 0) eqn:Hneg.
  - apply Qltb_lt in Hneg.
    pose proof (Qlt_floor (Qabs x * 100 + (1 # 2))) as Hhi.
    set (n := Qfloor _) in *.
    assert (Qabs x * 100 + (1 # 2) < inject_Z 10001)%Q as Hlt.
    { rewrite (Qabs_neg x) by lra. change (inject_Z 10001) with 10001%Q. lra. }
    assert (n <= 10000).
    { assert (n < 10001); [|lia].
      rewrite Zlt_Qlt. eapply Qle_lt_trans; [apply Qfloor_le|exact Hlt]. }
    unfold Qle. simpl. lia.
  - pose proof (Qfloor_resp_le 0 (Qabs x * 100 + (1 # 2))) as Hlo.
    assert (0 <= Qabs x)%Q by apply Qabs_nonneg.
    change (Qfloor 0) with 0 in Hlo.
    set (n := Qfloor _) in *.
    assert (0 <= n) by (apply Hlo; lra).
    unfold Qle. simpl. lia.
Qed.

Section facts.
Context (CACHE_TTL : CacheTtl) (tz : Z) (Date_parse : string → option Z).

(** The response is unusable: the timer fired, the script failed to load,
    the global is unset or empty, or one of the last [days] elements is
    [null]. *)
Definition no_records (days : nat)
    (res : script_result (option (list (option TrendItem)))) : Prop :=
  match res with
  | TimedOut | LoadFailed => True
  | Loaded globals =>
      default [] globals = [] ∨ None ∈ slice_last days (default [] globals)
  end.

Lemma fetchNetValueHistoryFast_miss now now2 code days (c : Cache) res :
  let key := key3 "netvalue" code days in
  let c0 := (cache.get now key c).2 in
  let out := fetchNetValueHistoryFast CACHE_TTL tz now now2 code days c res in
  (cache_get_as as_netvalue now key c).1 = None →
  (no_records days res ∧ out = ([], c0))
  ∨ (∃ trend recent,
       res = Loaded (Some trend) ∧ trend ≠ []
       ∧ slice_last days trend = Some <$> recent ∧ recent ≠ []
       ∧ out = (reverse (to_record tz <$> recent),
                cache.set now2 key
                  (CNetValue (reverse (to_record tz <$> recent)))
                  (NET_VALUE CACHE_TTL) c0)).
Proof.
  intros key c0 out Hmiss. unfold out, fetchNetValueHistoryFast. fold key.
  unfold cache_get_as in *. simpl in Hmiss |- *. rewrite Hmiss. fold c0.
  destruct res as [| |globals]; [by left|by left|].
  case_bool_decide as Hlen.
  { left. split; [|done]. left. by apply nil_length_inv. }
  destruct globals as [trend|]; [|done]. simpl in *.
  destruct (mapM (fmap (to_record tz)) (slice_last days trend)) as [records|]
    eqn:Hmap.
  - right.
    assert (∃ recent, slice_last days trend = Some <$> recent) as [recent Hr].
    { clear -Hmap. revert records Hmap.
      induction (slice_last days trend) as [|a l IH]; intros records Hmap.
      - by exists [].
      - simpl in Hmap. destruct a as [a|]; [|done]. simpl in Hmap.
        destruct (mapM _ l) as [k|] eqn:Hl; [|done].
        destruct (IH k eq_refl) as [recent ->]. by exists (a :: recent). }
    assert (trend ≠ []) as Hne by (by intros ->).
    exists trend, recent. rewrite Hr, mapM_fmap_Some in Hmap.
    injection Hmap as <-. split_and!; try done.
    intros ->. by apply (slice_last_nonempty days) in Hne.
  - left. split; [|done]. right. by apply (mapM_fmap_None (to_record tz)).
Qed.

Lemma fetchNetValueHistoryFast_empty now now2 code days (c : Cache) res :
  (cache_get_as as_netvalue now (key3 "netvalue" code days) c).1 = None →
  (fetchNetValueHistoryFast CACHE_TTL tz now now2 code days c res).1 = []
  ↔ no_records days res.
Proof.
  intros Hmiss.
  destruct (fetchNetValueHistoryFast_miss now now2 code days c res Hmiss)
    as [[Hno ->]|(trend & recent & -> & Hne & Hs & Hrne & ->)]; simpl.
  - done.
  - split.
    + intros Hnil. apply (f_equal length) in Hnil.
      rewrite length_reverse, length_fmap in Hnil. by destruct recent.
    + intros [?|Hin]; [done|]. rewrite Hs in Hin.
      apply list_elem_of_fmap in Hin as (? & ? & _). done.
Qed.

Lemma fetchNetValueHistoryFast_other now now2 code days (c : Cache) res k :
  k ≠ key3 "netvalue" code days →
  (fetchNetValueHistoryFast CACHE_TTL tz now now2 code days c res).2 !! k
  = c !! k.
Proof.
  intros Hk.
  destruct (cache_get_as as_netvalue now (key3 "netvalue" code days) c).1
    as [h|] eqn:Hget.
  - unfold fetchNetValueHistoryFast.
    unfold cache_get_as in Hget |- *. simpl in Hget |- *. rewrite Hget. simpl.
    by apply cache_get_other.
  - destruct (fetchNetValueHistoryFast_miss now now2 code days c res Hget)
      as [[_ ->]|(trend & recent & _ & _ & _ & _ & ->)]; simpl.
    + by apply cache_get_other.
    + unfold cache.set. rewrite lookup_insert_ne by done.
      by apply cache_get_other.
Qed.

(** The answer depends on the cache through the entry of its key only. *)
Lemma fetchNetValueHistoryFast_answer_ext now now2 code days (c c' : Cache)
    res :
  c !! key3 "netvalue" code days = c' !! key3 "netvalue" code days →
  (fetchNetValueHistoryFast CACHE_TTL tz now now2 code days c res).1
  = (fetchNetValueHistoryFast CACHE_TTL tz now now2 code days c' res).1.
Proof.
  intros Heq.
  pose proof (cache_get_as_ext as_netvalue now _ c c' Heq) as Hget.
  destruct (cache_get_as as_netvalue now (key3 "netvalue" code days) c').1
    as [h|] eqn:Hget'.
  - unfold fetchNetValueHistoryFast.
    unfold cache_get_as in Hget, Hget' |- *. simpl in Hget, Hget' |- *.
    by rewrite Hget, Hget'.
  - destruct (fetchNetValueHistoryFast_miss now now2 code days c res Hget)
      as [[Hno Hout]|(trend & recent & Hres & Hne & Hs & _ & Hout)];
    destruct (fetchNetValueHistoryFast_miss now now2 code days c' res Hget')
      as [[Hno' Hout']|(trend' & recent' & Hres' & Hne' & Hs' & _ & Hout')];
    rewrite Hout, Hout'; simpl.
    + done.
    + subst res. simpl in Hno. destruct Hno as [->|Hin]; [done|].
      rewrite Hs' in Hin. apply list_elem_of_fmap in Hin as (? & ? & _). done.
    + subst res. simpl in Hno'. destruct Hno' as [->|Hin]; [done|].
      rewrite Hs in Hin. apply list_elem_of_fmap in Hin as (? & ? & _). done.
    + subst res. injection Hres' as <-. rewrite Hs in Hs'.
      by apply (inj (fmap Some)) in Hs' as <-.
Qed.

(** X1. On a cache miss, when the script delivers a non-empty trend whose
    last [days] elements (all of them for [days = 0]) are not [null], the
    answer holds exactly those elements as records, newest first: it has
    min(days, length of the trend) records, its first record is the last
    element of the trend, and read backwards it is the tail of the trend.
    Elements older than the window are not read. *)
Theorem history_holds_the_most_recent_records now now2 code days (c : Cache)
    trend recent :
  let out :=
    fetchNetValueHistoryFast CACHE_TTL tz now now2 code days c
                             (Loaded (Some trend)) in
  (cache_get_as as_netvalue now (key3 "netvalue" code days) c).1 = None →
  trend ≠ [] →
  slice_last days trend = Some <$> recent →
  out.1 = reverse (to_record tz <$> recent)
  ∧ (∃ older, trend = older ++ (Some <$> recent))
  ∧ length out.1
    = (if bool_decide (days = 0%nat) then length trend
       else days `min` length trend)%nat
  ∧ head out.1 = (to_record tz <$> last recent)
  ∧ last trend = (Some <$> last recent)
  ∧ out.1 ≠ [].
Proof.
  intros out Hmiss Hne Hslice.
  destruct (fetchNetValueHistoryFast_miss now now2 code days c
              (Loaded (Some trend)) Hmiss)
    as [[Hno _]|(trend' & recent' & [= <-] & _ & Hs & Hrne & Hout)].
  { simpl in Hno. destruct Hno as [?|Hin]; [done|].
    rewrite Hslice in Hin. apply list_elem_of_fmap in Hin as (? & ? & _).
    done. }
  rewrite Hslice in Hs. apply (inj (fmap Some)) in Hs as <-.
  fold out in Hout. rewrite Hout. simpl.
  destruct (slice_last_suffix days trend) as [older Holder].
  rewrite Hslice in Holder.
  split_and!.
  - done.
  - by exists older.
  - rewrite length_reverse, length_fmap.
    rewrite <- (slice_last_length days trend), Hslice. by rewrite length_fmap.
  - rewrite head_reverse. by rewrite fmap_last.
  - rewrite Holder, last_app. rewrite fmap_last.
    destruct (last recent) eqn:Hl; [done|].
    apply last_None in Hl. done.
  - intros Hnil. apply (f_equal length) in Hnil.
    rewrite length_reverse, length_fmap in Hnil. by destruct recent.
Qed.


Lemma history_length_le now now2 code days (c : Cache) res :
  (cache_get_as as_netvalue now (key3 "netvalue" code days) c).1 = None →
  days ≠ 0%nat →
  (length (fetchNetValueHistoryFast CACHE_TTL tz now now2 code days c res).1
   ≤ days)%nat.
Proof.
  intros Hmiss Hdays.
  destruct (fetchNetValueHistoryFast_miss now now2 code days c res Hmiss)
    as [[_ ->]|(trend & recent & _ & _ & Hs & _ & ->)]; simpl; [lia|].
  rewrite length_reverse, length_fmap.
  apply (f_equal length) in Hs. rewrite slice_last_length, length_fmap in Hs.
  rewrite bool_decide_eq_false_2 in Hs by done. lia.
Qed.

Lemma fetchSimpleKLineData_miss now now2 code days (c : Cache) res :
  (cache_get_as as_kline now (key3 "kline" code days) c).1 = None →
  ∃ h c1,
    fetchNetValueHistoryFast CACHE_TTL tz now now2 code days
      (cache.get now (key3 "kline" code days) c).2 res = (h, c1)
    ∧ fetchSimpleKLineData CACHE_TTL tz now now2 code days c res
      = (reverse (to_kline <$> h),
         cache.set now2 (key3 "kline" code days)
                   (CKLine (reverse (to_kline <$> h)))
                   (NET_VALUE CACHE_TTL) c1).
Proof.
  intros Hmiss.
  destruct (fetchNetValueHistoryFast CACHE_TTL tz now now2 code days
              (cache.get now (key3 "kline" code days) c).2 res)
    as [h c1] eqn:Hfetch.
  exists h, c1. split; [done|]. unfold fetchSimpleKLineData.
  unfold cache_get_as in *. simpl in Hmiss |- *. by rewrite Hmiss, Hfetch.
Qed.

(** X3. [fetchSimpleKLineData] stores whatever it returns, the empty
    series of a failed download included: on a miss of the K-line key the
    answer is stored under that key, and until it expires every call with
    the same arguments returns it, whatever the network would deliver.
    When the history is not cached either and the response is unusable,
    that answer is the empty series.  For [days > 0] the series has at
    most [days] points. *)
Theorem kline_answer_is_stored_even_when_empty now now2 code days (c : Cache)
    res :
  let kkey := key3 "kline" code days in
  let nkey := key3 "netvalue" code days in
  let out := fetchSimpleKLineData CACHE_TTL tz now now2 code days c res in
  (cache_get_as as_kline now kkey c).1 = None →
  out.2 !! kkey
  = Some {| payload := CKLine out.1; expiry := now2 + NET_VALUE CACHE_TTL |}
  ∧ (∀ t t2 res', t ≤ now2 + NET_VALUE CACHE_TTL →
       fetchSimpleKLineData CACHE_TTL tz t t2 code days out.2 res' = out)
  ∧ ((cache_get_as as_netvalue now nkey c).1 = None →
     (no_records days res → out.1 = [])
     ∧ (days ≠ 0%nat → (length out.1 ≤ days)%nat)).
Proof.
  intros kkey nkey out Hmiss.
  destruct (fetchSimpleKLineData_miss now now2 code days c res Hmiss)
    as (h & c1 & Hfetch & Hout).
  fold kkey in Hfetch, Hout. fold out in Hout.
  assert (out.2 !! kkey
          = Some {| payload := CKLine out.1;
                    expiry := now2 + NET_VALUE CACHE_TTL |}) as Hstored.
  { rewrite Hout. simpl. unfold cache.set. by rewrite lookup_insert_eq. }
  split_and!.
  - done.
  - intros t t2 res' Ht. unfold fetchSimpleKLineData at 1. fold kkey.
    rewrite (cache_get_live as_kline t kkey out.2 _ _ Hstored Ht). simpl.
    by destruct out.
  - intros Hnmiss.
    assert ((cache_get_as as_netvalue now nkey (cache.get now kkey c).2).1
            = None) as Hnmiss'.
    { rewrite <- Hnmiss. apply cache_get_as_ext, cache_get_other.
      apply key3_netvalue_kline. }
    split.
    + intros Hno.
      apply (fetchNetValueHistoryFast_empty now now2 code days _ res Hnmiss')
        in Hno.
      rewrite Hfetch in Hno. simpl in Hno. rewrite Hout, Hno. done.
    + intros Hdays.
      pose proof (history_length_le now now2 code days _ res Hnmiss' Hdays)
        as Hlen.
      rewrite Hfetch in Hlen. rewrite Hout. simpl in *.
      by rewrite length_reverse, length_fmap.
Qed.

Lemma find_record_elem target history r :
  find_record Date_parse target history = Some r → r ∈ history.
Proof.
  induction history as [|x l IH]; simpl; [done|].
  destruct (on_or_before Date_parse target x).
  - intros [= ->]. by left.
  - intros Hr. right. by apply IH.
Qed.

Lemma percent_above_minus_100 (l f : Q) :
  (0 < l)%Q → (0 < f)%Q → (-100 <= (l - f) / f * 100)%Q.
Proof.
  intros Hl Hf.
  assert ((l - f) / f * 100 == l / f * 100 - 100)%Q as -> by (field; lra).
  assert (0 < l / f)%Q by (apply Qlt_shift_div_l; lra).
  lra.
Qed.

(** X4. The entries that [calculatePeriodReturns] computes on a cache miss.
    Each entry compares the latest record of the history with a record of
    the history whose value is positive; the latest value is positive too.
    The change of the entry is within 0.005 of the exact percentage change
    between the two values, and it is never below -100. *)
Theorem period_change_is_rounded_and_above_minus_100 now now2 code (c : Cache)
    res e :
  let key := key2 "period" code in
  let history :=
    (fetchNetValueHistoryFast CACHE_TTL tz now now2 code 400
       (cache.get now key c).2 res).1 in
  (cache_get_as as_period now key c).1 = None →
  e ∈ (calculatePeriodReturns CACHE_TTL tz Date_parse now now2 code c res).1 →
  ∃ latest found,
    head history = Some latest ∧ found ∈ history
    ∧ (0 < netValue latest)%Q ∧ (0 < netValue found)%Q
    ∧ (Qabs (PeriodReturn.change e
             - (netValue latest - netValue found) / netValue found * 100)
       <= 1 # 200)%Q
    ∧ (-100 <= PeriodReturn.change e)%Q.
Proof.
  intros key history Hmiss. unfold history.
  destruct (fetchNetValueHistoryFast CACHE_TTL tz now now2 code 400
              (cache.get now key c).2 res) as [h c1] eqn:Hfetch.
  assert (h = [] ∨ (∃ r, h = [r])
          ∨ (∃ latest rest, h = latest :: rest ∧ rest ≠ []
               ∧ Qle_bool (netValue latest) 0 = true)
          ∨ (∃ latest rest, h = latest :: rest ∧ rest ≠ []
               ∧ Qle_bool (netValue latest) 0 = false)) as Hcases.
  { destruct h as [|latest [|r rest]]; [by left|right; left; by eexists|].
    destruct (Qle_bool (netValue latest) 0) eqn:Hle;
      right; right; [left|right]; by exists latest, (r :: rest). }
  destruct Hcases as [->|[[r ->]|[(latest & rest & -> & Hrest & Hle)
                                 |(latest & rest & -> & Hrest & Hle)]]].
  1-3: unfold calculatePeriodReturns; fold key; unfold cache_get_as in *;
       simpl in Hmiss |- *; rewrite Hmiss, Hfetch; simpl;
       try (destruct rest; [done|]; simpl; rewrite Hle; simpl);
       by intros ?%elem_of_nil.
  assert (0 < netValue latest)%Q as Hlatest.
  { apply Qnot_le_lt. intros Hl. apply Qle_bool_iff in Hl. congruence. }
  rewrite (calculatePeriodReturns_value CACHE_TTL tz Date_parse now now2 code
             c res latest rest c1 Hmiss Hfetch Hrest Hlatest).
  cbn [fst]. intros Hin. apply list_elem_of_omap in Hin as (p & _ & Hp).
  unfold period_return in Hp.
  destruct (find_record _ _ _) as [found|] eqn:Hfind; [|done].
  destruct (Qltb 0 (netValue found)) eqn:Hpos; [|done].
  injection Hp as <-. simpl.
  apply Qltb_lt in Hpos.
  exists latest, found. split_and!; try done.
  - by apply find_record_elem in Hfind.
  - apply toFixed2_error.
  - apply toFixed2_ge. by apply percent_above_minus_100.
Qed.

Lemma calculatePeriodReturns_miss now now2 code (c : Cache) res h c1 :
  let key := key2 "period" code in
  let out := calculatePeriodReturns CACHE_TTL tz Date_parse now now2 code c res in
  (cache_get_as as_period now key c).1 = None →
  fetchNetValueHistoryFast CACHE_TTL tz now now2 code 400
    (cache.get now key c).2 res = (h, c1) →
  (((length h < 2)%nat
    ∨ ∃ latest, head h = Some latest ∧ (netValue latest <= 0)%Q) →
   out = ([], c1))
  ∧ (∀ latest, (2 ≤ length h)%nat → head h = Some latest →
       (0 < netValue latest)%Q →
       let results := omap (period_return Date_parse now2 h latest) periods in
       out = (results,
              cache.set now2 key (CPeriod results) (NET_VALUE CACHE_TTL) c1)).
Proof.
  intros key out Hmiss Hfetch. unfold out, calculatePeriodReturns. fold key.
  unfold cache_get_as in *. cbn [fst snd] in *. rewrite Hmiss, Hfetch. split.
  - intros Hshort. case_bool_decide as Hlen; [done|].
    destruct Hshort as [?|(latest & Hhead & Hle)]; [lia|].
    destruct h as [|latest' rest]; [done|]. simpl in Hhead.
    injection Hhead as ->. apply Qle_bool_iff in Hle. by rewrite Hle.
  - intros latest Hlen Hhead Hpos. rewrite bool_decide_eq_false_2 by lia.
    destruct h as [|latest' rest]; [done|]. simpl in Hhead.
    injection Hhead as ->.
    destruct (Qle_bool (netValue latest) 0) eqn:Hle; [|done].
    apply Qle_bool_iff in Hle. lra.
Qed.

Lemma fetchSimpleKLineData_answer_ext now now2 code days (c c' : Cache) res :
  c !! key3 "kline" code days = c' !! key3 "kline" code days →
  c !! key3 "netvalue" code days = c' !! key3 "netvalue" code days →
  (fetchSimpleKLineData CACHE_TTL tz now now2 code days c res).1
  = (fetchSimpleKLineData CACHE_TTL tz now now2 code days c' res).1.
Proof.
  intros Hk Hn.
  pose proof (cache_get_as_ext as_kline now _ c c' Hk) as Hget.
  destruct (cache_get_as as_kline now (key3 "kline" code days) c').1
    as [k|] eqn:Hget'.
  - unfold fetchSimpleKLineData.
    unfold cache_get_as in Hget, Hget' |- *. simpl in Hget, Hget' |- *.
    by rewrite Hget, Hget'.
  - destruct (fetchSimpleKLineData_miss now now2 code days c res Hget)
      as (h & c1 & Hfetch & ->).
    destruct (fetchSimpleKLineData_miss now now2 code days c' res Hget')
      as (h' & c1' & Hfetch' & ->).
    simpl. f_equal. f_equal.
    change h with (h, c1).1. change h' with (h', c1').1.
    rewrite <- Hfetch, <- Hfetch'.
    apply fetchNetValueHistoryFast_answer_ext.
    rewrite !cache_get_other by apply key3_netvalue_kline. done.
Qed.

(** The answer that [calculatePeriodReturns] computes from a history. *)
Definition period_answer (now2 : Z) (h : list NetValueRecord) :
    list PeriodReturn.t :=
  if bool_decide (length h < 2)%nat then []
  else
    match h with
    | [] => []
    | latest :: _ =>
        if Qle_bool (netValue latest) 0 then []
        else omap (period_return Date_parse now2 h latest) periods
    end.

Lemma calculatePeriodReturns_answer now now2 code (c : Cache) res :
  (cache_get_as as_period now (key2 "period" code) c).1 = None →
  (calculatePeriodReturns CACHE_TTL tz Date_parse now now2 code c res).1
  = period_answer now2
      (fetchNetValueHistoryFast CACHE_TTL tz now now2 code 400
         (cache.get now (key2 "period" code) c).2 res).1.
Proof.
  intros Hmiss. unfold calculatePeriodReturns, period_answer.
  unfold cache_get_as in *. cbn [fst snd] in *. rewrite Hmiss.
  destruct (fetchNetValueHistoryFast _ _ _ _ _ _ _ _) as [h c1].
  cbn [fst snd]. case_bool_decide; [done|].
  destruct h as [|latest rest]; [done|].
  by destruct (Qle_bool (netValue latest) 0).
Qed.

Lemma calculatePeriodReturns_answer_ext now now2 code (c c' : Cache) res :
  c !! key2 "period" code = c' !! key2 "period" code →
  c !! key3 "netvalue" code 400 = c' !! key3 "netvalue" code 400 →
  (calculatePeriodReturns CACHE_TTL tz Date_parse now now2 code c res).1
  = (calculatePeriodReturns CACHE_TTL tz Date_parse now now2 code c' res).1.
Proof.
  intros Hp Hn.
  pose proof (cache_get_as_ext as_period now _ c c' Hp) as Hget.
  destruct (cache_get_as as_period now (key2 "period" code) c').1
    as [r|] eqn:Hget'.
  - unfold calculatePeriodReturns.
    unfold cache_get_as in Hget, Hget' |- *. simpl in Hget, Hget' |- *.
    by rewrite Hget, Hget'.
  - rewrite !calculatePeriodReturns_answer by done. f_equal.
    apply fetchNetValueHistoryFast_answer_ext.
    rewrite !cache_get_other by discriminate. done.
Qed.

(** X5. What [calculatePeriodReturns] stores.  On a miss of the period
    key, when the history has fewer than two records or its latest value
    is not positive, the answer is empty and the entry of the period key is
    not written, so that the next call misses again and computes afresh.
    Otherwise the answer, empty or not, is stored under the period key and
    every call for the code until it expires returns it, whatever the
    network would deliver. *)
Theorem period_returns_stored_only_when_computed now now2 code (c : Cache)
    res :
  let key := key2 "period" code in
  let fetched :=
    fetchNetValueHistoryFast CACHE_TTL tz now now2 code 400
                             (cache.get now key c).2 res in
  let out := calculatePeriodReturns CACHE_TTL tz Date_parse now now2 code c res in
  (cache_get_as as_period now key c).1 = None →
  (((length fetched.1 < 2)%nat
    ∨ ∃ latest, head fetched.1 = Some latest ∧ (netValue latest <= 0)%Q) →
   out = ([], fetched.2)
   ∧ ∀ t, now ≤ t → (cache_get_as as_period t key out.2).1 = None)
  ∧ ((2 ≤ length fetched.1)%nat →
     (∀ latest, head fetched.1 = Some latest → (0 < netValue latest)%Q) →
     out.2 !! key
     = Some {| payload := CPeriod out.1;
               expiry := now2 + NET_VALUE CACHE_TTL |}
     ∧ ∀ t t2 res', t ≤ now2 + NET_VALUE CACHE_TTL →
         calculatePeriodReturns CACHE_TTL tz Date_parse t t2 code out.2 res'
         = out).
Proof.
  intros key fetched out Hmiss.
  assert (∀ t, now ≤ t → (cache_get_as as_period t key fetched.2).1 = None)
    as Hagain.
  { intros t Ht.
    rewrite <- (cache_get_miss_again as_period now t key c Ht Hmiss).
    apply cache_get_as_ext. unfold fetched.
    apply fetchNetValueHistoryFast_other. discriminate. }
  destruct fetched as [h c1] eqn:Hfetch.
  destruct (calculatePeriodReturns_miss now now2 code c res h c1 Hmiss Hfetch)
    as [Hshort Hlong].
  fold key out in Hshort, Hlong. cbn [fst snd] in *. split.
  - intros Hs. rewrite (Hshort Hs). by split.
  - intros Hlen Hpos. destruct h as [|latest rest]; [simpl in Hlen; lia|].
    rewrite (Hlong latest Hlen eq_refl (Hpos latest eq_refl)). cbn [fst snd].
    unfold cache.set. rewrite lookup_insert_eq. split; [done|].
    intros t t2 res' Ht. unfold calculatePeriodReturns at 1. fold key.
    by erewrite cache_get_live; [|by rewrite lookup_insert_eq|done].
Qed.

End facts.
(** A concrete run in China Standard Time on 11 March 2024 at noon: a trend
    with a [null] element followed by the values 1.00 of 3 March and 1.10 of
    11 March. *)
Definition five_minutes : CacheTtl :=
  {| ESTIMATE := 60000; NET_VALUE := 300000; MARKET_INDEX := 30000;
     FUND_INFO := 3600000 |}.
Definition utc8 : Z := 28800000.
Definition noon : Z := 1710086400000 + 12 * 3600000.
Definition item_3_march : TrendItem :=
  {| x := 1710086400000 - 8 * msPerDay; y := Some 1%Q;
     equityReturn := Some (1 # 2)%Q |}.
Definition item_11_march : TrendItem :=
  {| x := 1710086400000; y := Some (11 # 10)%Q;
     equityReturn := Some (3 # 10)%Q |}.
Definition trend_with_null : list (option TrendItem) :=
  [None; Some item_3_march; Some item_11_march].
Definition trend_of_two : list (option TrendItem) :=
  [Some item_3_march; Some item_11_march].
Definition one_week_entry : PeriodReturn.t :=
  {| PeriodReturn.period := "Z"; PeriodReturn.label := "近1周";
     PeriodReturn.days := 7; PeriodReturn.change := (1000 # 100)%Q |}.

Lemma history_holds_the_most_recent_records_witness :
  (fetchNetValueHistoryFast five_minutes utc8 noon (noon + 500) "000001" 2 ∅
     (Loaded (Some trend_with_null))).1
  = [ {| date := "2024-03-11"; netValue := (11 # 10)%Q;
         totalNetValue := (11 # 10)%Q; changeRate := (3 # 10)%Q |};
      {| date := "2024-03-03"; netValue := 1%Q; totalNetValue := 1%Q;
         changeRate := (1 # 2)%Q |} ].
Proof.
  destruct (history_holds_the_most_recent_records five_minutes utc8 noon
              (noon + 500) "000001" 2 ∅ trend_with_null
              [item_3_march; item_11_march])
    as [Hout _]; [vm_compute; reflexivity|discriminate|reflexivity|].
  rewrite Hout. vm_compute. reflexivity.
Defined.


Lemma kline_answer_is_stored_witness :
  let out :=
    fetchSimpleKLineData five_minutes utc8 noon (noon + 15000) "000001" 60 ∅
                         TimedOut in
  out.1 = []
  ∧ fetchSimpleKLineData five_minutes utc8 (noon + 20000) (noon + 20500)
      "000001" 60 out.2 (Loaded (Some trend_with_null)) = out.
Proof.
  destruct (kline_answer_is_stored_even_when_empty five_minutes utc8 noon
              (noon + 15000) "000001" 60 ∅ TimedOut)
    as (_ & Hserved & Hempty); [vm_compute; reflexivity|].
  destruct Hempty as [Hempty _]; [vm_compute; reflexivity|].
  split; [by apply Hempty|].
  apply Hserved. vm_compute. discriminate.
Defined.

Lemma period_change_witness :
  (-100 <= PeriodReturn.change one_week_entry)%Q.
Proof.
  destruct (period_change_is_rounded_and_above_minus_100 five_minutes utc8
              iso_date_parse noon (noon + 500) "000001" ∅
              (Loaded (Some trend_of_two)) one_week_entry)
    as (latest & found & _ & _ & _ & _ & _ & Hge);
    [vm_compute; reflexivity| |exact Hge].
  assert ((calculatePeriodReturns five_minutes utc8 iso_date_parse noon
             (noon + 500) "000001" ∅ (Loaded (Some trend_of_two))).1
          = [one_week_entry]) as -> by (vm_compute; reflexivity).
  by left.
Defined.

Lemma period_returns_stored_witness :
  calculatePeriodReturns five_minutes utc8 iso_date_parse noon (noon + 500)
    "000001" ∅ LoadFailed = ([], ∅).
Proof.
  destruct (period_returns_stored_only_when_computed five_minutes utc8
              iso_date_parse noon (noon + 500) "000001" ∅ LoadFailed)
    as [Hshort _]; [vm_compute; reflexivity|].
  destruct Hshort as [Hout _]; [left; vm_compute; lia|].
  rewrite Hout. vm_compute. reflexivity.
Defined.

End HistoryFacts.


(** * The estimate channel: answers, admission and lost calls *)

Module ChannelFacts.
Import Estimate EstimateFacts.

Lemma find_splice_split {A} (p : A → bool) (l : list A) x rest :
  find_splice p l = (Some x, rest) →
  ∃ before after,
    l = before ++ x :: after ∧ rest = before ++ after
    ∧ p x = true ∧ ∀ y, y ∈ before → p y = false.
Proof.
  revert rest. induction l as [|y l IH]; simpl; intros rest; [done|].
  destruct (p y) eqn:Hp.
  - intros [= -> <-]. exists [], l. split_and!; try done.
    by intros ? ?%elem_of_nil.
  - destruct (find_splice p l) as [r k]. intros [= -> <-].
    destruct (IH k eq_refl) as (before & after & -> & -> & Hx & Hb).
    exists (y :: before), after. split_and!; try done.
    intros z [->|Hz]%elem_of_cons; [done|by apply Hb].
Qed.

Lemma find_splice_subseteq {A} (p : A → bool) (l : list A) :
  ∀ x, x ∈ (find_splice p l).2 → x ∈ l.
Proof.
  induction l as [|y l IH]; simpl; [done|].
  destruct (p y); simpl; [by right|].
  destruct (find_splice p l) as [r k]; simpl in *.
  intros x [->|Hx]%elem_of_cons; [by left|right; by apply IH].
Qed.

Lemma count_if_pos {A} (p : A → bool) (l : list A) :
  (0 < count_if p l)%nat → ∃ x, x ∈ l ∧ p x = true.
Proof.
  induction l as [|y l IH]; simpl; [lia|].
  destruct (p y) eqn:Hp.
  - intros _. exists y. split; [by left|done].
  - intros Hc. destruct IH as (x & Hx & Hpx); [lia|].
    exists x. split; [by right|done].
Qed.

Lemma NoDup_fmap_elem_inj {A B} (f : A → B) (l : list A) x y :
  NoDup (f <$> l) → x ∈ l → y ∈ l → f x = f y → x = y.
Proof.
  induction l as [|z l IH]; simpl; [by intros _ ?%elem_of_nil|].
  rewrite NoDup_cons. intros [Hz Hnd] Hx Hy Heq.
  apply elem_of_cons in Hx as [->|Hx]; apply elem_of_cons in Hy as [->|Hy].
  - done.
  - destruct Hz. rewrite Heq. by apply list_elem_of_fmap_2.
  - destruct Hz. rewrite <- Heq. by apply list_elem_of_fmap_2.
  - by apply IH.
Qed.

Lemma remove_id_subseteq id l : ∀ j, j ∈ remove_id id l → j ∈ l.
Proof. intros j Hj. unfold remove_id in Hj. by apply list_elem_of_filter in Hj as [_ ?]. Qed.

Lemma remove_id_not_elem id l : id ∉ remove_id id l.
Proof. unfold remove_id. intros [Hne _]%list_elem_of_filter. done. Qed.

Section limiter_facts.
Context {Task R E : Type} `{!EqDecision Task}.
Implicit Types (s : @Limiter.state Task R E) (t : Task).

Lemma settle_keeps_running t u o s :
  u ∈ Limiter.running s → u ≠ t → u ∈ Limiter.running (Limiter.settle t o s).
Proof.
  intros Hu Hne.
  destruct (LimiterFacts.settle_running_count (Limiter.is_task u) t o s)
    as [Hcount _].
  assert (Limiter.is_task u t = false) as Hb
    by (apply bool_decide_eq_false; congruence).
  rewrite Hb in Hcount.
  assert (Limiter.is_task u u = true) as Huu by (by apply bool_decide_eq_true).
  pose proof (count_if_elem (Limiter.is_task u) _ u Hu Huu) as Hpos.
  destruct (count_if_pos (Limiter.is_task u)
              (Limiter.running (Limiter.settle t o s))) as (x & Hx & Hpx).
  { destruct (decide (t ∈ Limiter.running s)); lia. }
  unfold Limiter.is_task in Hpx. by apply bool_decide_eq_true in Hpx as ->.
Qed.

Lemma settle_started t o s :
  Limiter.started (Limiter.settle t o s) = Limiter.started s
  ∧ Limiter.submitted (Limiter.settle t o s) = Limiter.submitted s
  ∧ Limiter.requestQueue (Limiter.settle t o s) = Limiter.requestQueue s.
Proof. unfold Limiter.settle. by case_decide. Qed.

Lemma withConcurrencyControl_started t s :
  Limiter.started (Limiter.withConcurrencyControl t s).1
  = Limiter.started s
    ++ option_list (Limiter.withConcurrencyControl t s).2
  ∧ ∀ t', (Limiter.withConcurrencyControl t s).2 = Some t' → t' = t.
Proof.
  unfold Limiter.withConcurrencyControl; simpl.
  case_bool_decide; simpl; [|by rewrite app_nil_r].
  split; [done|]. by intros t' [= <-].
Qed.

Lemma resume_started t o s :
  Limiter.started (Limiter.resume t o s).1
  = Limiter.started s ++ option_list (Limiter.resume t o s).2
  ∧ ∀ next, (Limiter.resume t o s).2 = Some next →
            next ∈ Limiter.requestQueue s.
Proof.
  unfold Limiter.resume, Limiter.executeNext; simpl.
  destruct (_ && _); simpl; [|by rewrite app_nil_r].
  destruct (Limiter.requestQueue s) as [|next rest]; simpl;
    [by rewrite app_nil_r|].
  split; [done|]. intros ? [= <-]. by left.
Qed.

(** A task that holds a slot is neither queued nor answered. *)
Lemma running_elsewhere t s :
  LimiterFacts.unique s → t ∈ Limiter.running s →
  t ∈ Limiter.submitted s ∧ (t ∉ Limiter.requestQueue s)
  ∧ Limiter.settled_with t s = None
  ∧ Limiter.result_of t s = None.
Proof.
  intros Huniq Hin. destruct (Huniq t) as [Hle Hzero].
  assert (Limiter.is_task t t = true) as Htt by (by apply bool_decide_eq_true).
  pose proof (count_if_elem (Limiter.is_task t) _ t Hin Htt) as Hrun.
  unfold LimiterFacts.occurrences in *. split_and!.
  - destruct (decide (t ∈ Limiter.submitted s)) as [|Hn]; [done|].
    specialize (Hzero Hn). lia.
  - intros Hq. pose proof (count_if_elem (Limiter.is_task t) _ t Hq Htt). lia.
  - unfold Limiter.settled_with.
    rewrite (find_splice_count_zero (Limiter.is_awaiting t));
      [done|lia].
  - unfold Limiter.result_of.
    rewrite (find_splice_count_zero (Limiter.is_awaiting t));
      [done|lia].
Qed.
End limiter_facts.

Section facts.
Context (CACHE_TTL : CacheTtl).

(** *** How the channel is wired to the limiter *)

(** Calls are told apart by their identifier; a pending record, a timer, a
    script element and a load in progress each belong to a call that was
    started, and the timer handle of a record names the call of its
    [resolve] closure. *)
Definition wired_with (l : LimiterState) (pend : list PendingRequest.t)
    (tm sc ld : list nat) : Prop :=
  NoDup (call_id <$> Limiter.submitted l)
  ∧ (∀ req, req ∈ pend →
       PendingRequest.resolve req ∈ Limiter.started l
       ∧ PendingRequest.timeout req = call_id (PendingRequest.resolve req))
  ∧ (∀ id, id ∈ tm → id ∈ call_id <$> Limiter.started l)
  ∧ (∀ id, id ∈ sc → id ∈ call_id <$> Limiter.started l)
  ∧ (∀ id, id ∈ ld → id ∈ call_id <$> Limiter.started l).

Definition wired (s : state) : Prop :=
  wired_with (limiter s) (pendingRequests s) (timers s) (scripts s)
             (loading s).

Lemma wired_init : wired init.
Proof.
  unfold wired, wired_with; simpl. split_and!; [constructor|..];
    by intros ? ?%elem_of_nil.
Qed.

Lemma wired_with_mono l l' pend pend' tm tm' sc sc' ld ld' :
  wired_with l pend tm sc ld →
  NoDup (call_id <$> Limiter.submitted l') →
  (∀ cl, cl ∈ Limiter.started l → cl ∈ Limiter.started l') →
  (∀ req, req ∈ pend' → req ∈ pend) →
  (∀ id, id ∈ tm' → id ∈ tm) → (∀ id, id ∈ sc' → id ∈ sc) →
  (∀ id, id ∈ ld' → id ∈ ld) →
  wired_with l' pend' tm' sc' ld'.
Proof.
  intros (_ & Hp & Ht & Hs & Hl) Hnd Hst Hpend Htm Hsc Hld.
  assert (∀ id, id ∈ call_id <$> Limiter.started l →
                id ∈ call_id <$> Limiter.started l') as Hids.
  { intros id (cl & -> & Hcl)%list_elem_of_fmap.
    by apply list_elem_of_fmap_2, Hst. }
  split_and!; [done|..].
  - intros req Hreq. destruct (Hp req (Hpend req Hreq)) as [? ?].
    split; [by apply Hst|done].
  - intros id Hid. by apply Hids, Ht, Htm.
  - intros id Hid. by apply Hids, Hs, Hsc.
  - intros id Hid. by apply Hids, Hl, Hld.
Qed.

Lemma wired_fn cl s :
  wired s → cl ∈ Limiter.started (limiter s) → wired (fn cl s).
Proof.
  intros (Hnd & Hp & Ht & Hs & Hl) Hcl. unfold wired, wired_with, fn; simpl.
  assert (call_id cl ∈ call_id <$> Limiter.started (limiter s)) as Hid
    by (by apply list_elem_of_fmap_2).
  split_and!; [done|..].
  - intros req [Hreq| ->%list_elem_of_singleton]%elem_of_app;
      [by apply Hp|done].
  - intros id [Hin| ->%list_elem_of_singleton]%elem_of_app; [by apply Ht|done].
  - intros id [Hin| ->%list_elem_of_singleton]%elem_of_app; [by apply Hs|done].
  - intros id [Hin| ->%list_elem_of_singleton]%elem_of_app; [by apply Hl|done].
Qed.

Lemma wired_run_admitted admitted l s :
  wired s →
  NoDup (call_id <$> Limiter.submitted l) →
  Limiter.started l = Limiter.started (limiter s) ++ option_list admitted →
  wired (run_admitted admitted (set_limiter l s)).
Proof.
  intros Hw Hnd Hst.
  assert (wired (set_limiter l s)) as Hw'.
  { unfold wired; simpl. eapply wired_with_mono; try done.
    intros cl Hcl. rewrite Hst. apply elem_of_app. by left. }
  destruct admitted as [cl|]; simpl; [|done].
  apply wired_fn; [done|]. simpl. rewrite Hst. apply elem_of_app. right.
  by left.
Qed.

Lemma wired_settle cl o s pend' tm' sc' ld' base :
  wired s →
  limiter base = limiter s → pendingRequests base = pend' →
  timers base = tm' → scripts base = sc' → loading base = ld' →
  (∀ req, req ∈ pend' → req ∈ pendingRequests s) →
  (∀ id, id ∈ tm' → id ∈ timers s) → (∀ id, id ∈ sc' → id ∈ scripts s) →
  (∀ id, id ∈ ld' → id ∈ loading s) →
  ∀ s', limiter s' = Limiter.settle cl o (limiter base) →
        pendingRequests s' = pend' → timers s' = tm' → scripts s' = sc' →
        loading s' = ld' → wired s'.
Proof.
  intros Hw Hlim <- <- <- <- Hp Ht Hs Hl s' Hlim' Hp' Ht' Hs' Hl'.
  unfold wired. rewrite Hlim', Hp', Ht', Hs', Hl', Hlim.
  destruct (settle_started cl o (limiter s)) as (Hst & Hsub & _).
  eapply wired_with_mono; try done.
  - rewrite Hsub. by destruct Hw.
  - intros c Hc. by rewrite Hst.
Qed.

Lemma wired_fall_back cl msg s base :
  wired s → limiter base = limiter s →
  (∀ req, req ∈ pendingRequests base → req ∈ pendingRequests s) →
  (∀ id, id ∈ timers base → id ∈ timers s) →
  (∀ id, id ∈ scripts base → id ∈ scripts s) →
  (∀ id, id ∈ loading base → id ∈ loading s) →
  wired (fall_back cl msg base).
Proof.
  intros Hw Hlim Hp Ht Hs Hl. unfold fall_back.
  destruct (call_persisted cl) as [p|];
    by eapply (wired_settle cl _ s _ _ _ _ base).
Qed.

Lemma wired_fetch id code now trading s :
  wired s → id ∉ used_ids s →
  wired (fetchFundEstimateFast CACHE_TTL id code now trading s).
Proof.
  intros Hw Hfresh. unfold fetchFundEstimateFast.
  destruct (cache_get_as as_estimate now (key2 "estimate" code) (live s))
    as [cached c] eqn:Hget.
  destruct cached as [cached|]; [done|]. simpl.
  destruct (if negb trading then _ else _) as [p|]; [done|].
  set (cl := {| call_id := id; call_code := code; call_persisted := _ |}).
  destruct (LimiterFacts.withConcurrencyControl_running cl (limiter s))
    as [_ Hsub].
  destruct (withConcurrencyControl_started cl (limiter s)) as [Hst _].
  apply (wired_run_admitted _ _ (set_live c s)); [done| |done].
  rewrite Hsub, fmap_app. simpl. apply NoDup_app. split_and!.
  - by destruct Hw.
  - intros j Hj ->%list_elem_of_singleton. apply Hfresh.
    unfold used_ids. apply elem_of_app. by left.
  - apply NoDup_singleton.
Qed.

Lemma wired_jsonpgz data now s : wired s → wired (jsonpgz CACHE_TTL data now s).
Proof.
  intros Hw. unfold jsonpgz. destruct data as [d|]; [|done].
  destruct (fundcode d) as [fc|]; [|done]. case_bool_decide; [done|].
  pose proof (find_splice_subseteq (has_code fc) (pendingRequests s)) as Hsub.
  destruct (find_splice (has_code fc) (pendingRequests s)) as [found rest].
  destruct found as [req|]; [|done]. simpl in Hsub.
  eapply (wired_settle (PendingRequest.resolve req) _ s rest
            (remove_id (PendingRequest.timeout req) (timers s))
            (scripts s) (loading s)
            (set_pendingRequests rest
               (set_timers (remove_id (PendingRequest.timeout req) (timers s))
                           s)));
    try done.
  apply remove_id_subseteq.
Qed.

Lemma wired_on_timeout cl s : wired s → wired (on_timeout cl s).
Proof.
  intros Hw. unfold on_timeout.
  apply (wired_fall_back cl _ s); simpl; try done.
  - apply find_splice_subseteq.
  - apply remove_id_subseteq.
  - apply remove_id_subseteq.
Qed.

Lemma wired_on_script_error cl s : wired s → wired (on_script_error cl s).
Proof.
  intros Hw. unfold on_script_error.
  pose proof (find_splice_subseteq (has_code (call_code cl))
                (pendingRequests s)) as Hsub.
  simpl. destruct (find_splice (has_code (call_code cl)) (pendingRequests s))
    as [found rest].
  simpl in Hsub.
  destruct found as [req|]; apply (wired_fall_back cl _ s); simpl; try done;
    try apply remove_id_subseteq.
Qed.

Lemma wired_on_script_load cl s : wired s → wired (on_script_load cl s).
Proof.
  intros Hw. unfold on_script_load, cleanup, wired; simpl.
  eapply wired_with_mono; try done; try apply remove_id_subseteq.
  by destruct Hw.
Qed.

Lemma wired_resume cl o s : wired s → wired (resume cl o s).
Proof.
  intros Hw. unfold resume.
  destruct (LimiterFacts.resume_running cl o (limiter s)) as [_ Hsub].
  destruct (resume_started cl o (limiter s)) as [Hst _].
  apply wired_run_admitted; [done| |done]. rewrite Hsub. by destruct Hw.
Qed.

Lemma wired_step e s s' : wired s → step CACHE_TTL e s = Some s' → wired s'.
Proof.
  intros Hs. destruct e as [id code now trading|data now|cl|cl|cl|cl]; simpl.
  - case_decide; [done|]. intros [= <-]. by apply wired_fetch.
  - destruct (jsonpInitialized s); [|done]. intros [= <-].
    by apply wired_jsonpgz.
  - case_decide; [|done]. intros [= <-]. by apply wired_on_timeout.
  - case_decide; [|done]. intros [= <-]. by apply wired_on_script_error.
  - case_decide; [|done]. intros [= <-]. by apply wired_on_script_load.
  - destruct (Limiter.settled_with cl (limiter s)) as [o|] eqn:Hw; [|done].
    intros [= <-]. by apply wired_resume.
Qed.

Lemma wired_exec evs s s' : wired s → exec CACHE_TTL evs s = Some s' → wired s'.
Proof.
  revert s. induction evs as [|e evs IH]; simpl; intros s Hs.
  - by intros [= <-].
  - destruct (step CACHE_TTL e s) as [s1|] eqn:Hstep; [|done].
    apply IH. by eapply wired_step.
Qed.

Lemma reachable_wired evs s : exec CACHE_TTL evs init = Some s → wired s.
Proof. apply wired_exec, wired_init. Qed.

Lemma set_live_same s : set_live (live s) s = s.
Proof. by destruct s. Qed.

(** *** A response that matches a pending record *)

Lemma jsonpgz_matched evs s d fc now req rest :
  exec CACHE_TTL evs init = Some s →
  fundcode d = Some fc → fc ≠ "" →
  find_splice (has_code fc) (pendingRequests s) = (Some req, rest) →
  call_code (PendingRequest.resolve req) = fc
  ∧ jsonpgz CACHE_TTL (Some d) now s
    = record_resolve CACHE_TTL (PendingRequest.resolve req) d now
        (set_pendingRequests rest
           (set_timers (remove_id (PendingRequest.timeout req) (timers s)) s)).
Proof.
  intros Hreach Hfc Hne Hf.
  destruct (consistent_reachable _ _ _ Hreach) as (_ & _ & Hc & _).
  destruct (find_splice_split _ _ _ _ Hf) as (before & after & Hpend & _ & Hp & _).
  unfold has_code in Hp. apply bool_decide_eq_true in Hp. split.
  - rewrite <- Hp. apply Hc. rewrite Hpend. apply elem_of_app. right. by left.
  - unfold jsonpgz. rewrite Hfc, bool_decide_eq_false_2 by done. by rewrite Hf.
Qed.


(** X6. A response whose fund code has a pending record is delivered to
    the oldest record of that code: that record, and only that one, leaves
    the list, its timer is disarmed, and the estimate is written to the live
    cache (with the estimate time-to-live) and to the persisted cache under
    the key of the code, no other key being touched.  When the call that
    pushed the record is still pending, it is fulfilled with the estimate
    and its caller receives the estimate when the limiter resumes it. *)
Theorem matched_response_goes_to_oldest_record evs s d fc now req rest :
  exec CACHE_TTL evs init = Some s →
  fundcode d = Some fc → fc ≠ "" →
  find_splice (has_code fc) (pendingRequests s) = (Some req, rest) →
  let s' := jsonpgz CACHE_TTL (Some d) now s in
  let cl := PendingRequest.resolve req in
  let key := key2 "estimate" fc in
  (∃ before after,
     pendingRequests s = before ++ req :: after
     ∧ (∀ r, r ∈ before → PendingRequest.code r ≠ fc)
     ∧ pendingRequests s' = before ++ after)
  ∧ PendingRequest.code req = fc ∧ call_code cl = fc
  ∧ live s' !! key
    = Some {| payload := CEstimate d; expiry := now + ESTIMATE CACHE_TTL |}
  ∧ persist s' !! key = Some d
  ∧ (∀ k, k ≠ key →
       live s' !! k = live s !! k ∧ persist s' !! k = persist s !! k)
  ∧ (PendingRequest.timeout req ∉ timers s')
  ∧ (cl ∈ Limiter.running (limiter s) →
       Limiter.settled_with cl (limiter s') = Some (Limiter.Fulfilled d)
       ∧ step CACHE_TTL (Resumes cl) s'
         = Some (resume cl (Limiter.Fulfilled d) s')
       ∧ Limiter.result_of cl
           (limiter (resume cl (Limiter.Fulfilled d) s'))
         = Some (Limiter.Fulfilled d)).
Proof.
  intros Hreach Hfc Hne Hf s' cl key.
  pose proof (consistent_reachable _ _ _ Hreach) as Hs.
  pose proof (consistent_jsonpgz CACHE_TTL (Some d) now s Hs) as Hs'.
  fold s' in Hs'.
  destruct (find_splice_split _ _ _ _ Hf)
    as (before & after & Hpend & Hrest & Hp & Hbefore).
  unfold has_code in Hp. apply bool_decide_eq_true in Hp.
  assert (call_code cl = fc) as Hcode.
  { destruct Hs as (_ & _ & Hc & _). rewrite <- Hp. apply Hc.
    rewrite Hpend. apply elem_of_app. right. by left. }
  assert (s' = record_resolve CACHE_TTL cl d now
                 (set_pendingRequests rest
                    (set_timers (remove_id (PendingRequest.timeout req)
                                           (timers s)) s))) as Hs'eq.
  { unfold s', jsonpgz. rewrite Hfc, bool_decide_eq_false_2 by done.
    by rewrite Hf. }
  split_and!.
  - exists before, after. split_and!; [done| |by rewrite Hs'eq, Hrest].
    intros r Hr. specialize (Hbefore r Hr). unfold has_code in Hbefore.
    by apply bool_decide_eq_false in Hbefore.
  - done.
  - done.
  - rewrite Hs'eq. unfold record_resolve, cache.set; simpl. rewrite Hcode.
    by rewrite lookup_insert_eq.
  - rewrite Hs'eq. unfold record_resolve, persistCache.set; simpl.
    rewrite Hcode. by rewrite lookup_insert_eq.
  - intros k Hk. rewrite Hs'eq.
    unfold record_resolve, persistCache.set, cache.set; simpl. rewrite Hcode.
    by rewrite !lookup_insert_ne.
  - rewrite Hs'eq. simpl. apply remove_id_not_elem.
  - intros Hrun.
    assert (limiter s' = Limiter.settle cl (Limiter.Fulfilled d) (limiter s))
      as Hlim by (by rewrite Hs'eq).
    destruct Hs as (_ & Huniq & _). destruct Hs' as (_ & Huniq' & _).
    destruct (LimiterFacts.settle_running cl (Limiter.Fulfilled d) (limiter s)
                Huniq Hrun) as [Hw _].
    rewrite <- Hlim in Hw. split_and!.
    + done.
    + simpl. by rewrite Hw.
    + unfold resume. rewrite limiter_run_admitted. simpl.
      by apply LimiterFacts.resume_returns.
Qed.

(** X7. After a response was delivered for a code, a call of
    [fetchFundEstimateFast] for that code is answered at once with that
    estimate, without a request: while the live entry has not expired, and,
    outside trading hours, at any later time as well (from the persisted
    cache, which also refreshes the live entry).  Such a call takes no slot
    of the limiter and leaves the pending records, the timers, the scripts
    and the persisted cache as they are. *)
Theorem fetch_after_response_is_answered_at_once evs s d fc now req rest id t
    trading :
  exec CACHE_TTL evs init = Some s →
  fundcode d = Some fc → fc ≠ "" →
  find_splice (has_code fc) (pendingRequests s) = (Some req, rest) →
  t ≤ now + ESTIMATE CACHE_TTL ∨ trading = false →
  let s' := jsonpgz CACHE_TTL (Some d) now s in
  let s'' := fetchFundEstimateFast CACHE_TTL id fc t trading s' in
  answered s'' = answered s' ++ [(id, d)]
  ∧ limiter s'' = limiter s'
  ∧ pendingRequests s'' = pendingRequests s'
  ∧ timers s'' = timers s' ∧ scripts s'' = scripts s'
  ∧ loading s'' = loading s'
  ∧ persist s'' = persist s'
  ∧ (t ≤ now + ESTIMATE CACHE_TTL → live s'' = live s')
  ∧ (now + ESTIMATE CACHE_TTL < t →
       live s'' !! key2 "estimate" fc
       = Some {| payload := CEstimate d; expiry := t + ESTIMATE CACHE_TTL |}).
Proof.
  intros Hreach Hfc Hne Hf Hwhen s' s''.
  destruct (jsonpgz_matched evs s d fc now req rest Hreach Hfc Hne Hf)
    as [Hcode Hs'eq].
  fold s' in Hs'eq.
  assert (live s' !! key2 "estimate" fc
          = Some {| payload := CEstimate d;
                    expiry := now + ESTIMATE CACHE_TTL |}) as Hlive.
  { rewrite Hs'eq. unfold record_resolve, cache.set; simpl. rewrite Hcode.
    by rewrite lookup_insert_eq. }
  assert (persist s' !! key2 "estimate" fc = Some d) as Hpersist.
  { rewrite Hs'eq. unfold record_resolve, persistCache.set; simpl.
    rewrite Hcode. by rewrite lookup_insert_eq. }
  destruct (decide (t ≤ now + ESTIMATE CACHE_TTL)) as [Ht|Ht].
  - assert (s'' = set_answered (answered s' ++ [(id, d)]) s') as ->.
    { unfold s'', fetchFundEstimateFast.
      rewrite (HistoryFacts.cache_get_live as_estimate t _ _ _ _ Hlive Ht). simpl.
      by rewrite set_live_same. }
    split_and!; try done. lia.
  - destruct Hwhen as [?| ->]; [done|].
    assert (cache_get_as as_estimate t (key2 "estimate" fc) (live s')
            = (None, base.delete (key2 "estimate" fc) (live s'))) as Hget.
    { unfold cache_get_as, cache.get. rewrite Hlive. simpl.
      by rewrite bool_decide_eq_true_2 by lia. }
    unfold s'', fetchFundEstimateFast. rewrite Hget. simpl.
    unfold persistCache.get. rewrite Hpersist. simpl.
    split_and!; try done; try lia. intros _. unfold cache.set.
    by rewrite lookup_insert_eq.
Qed.

(** *** Admission *)

(** X8. The limiter gates the network.  In every state of every
    interleaving, a call that waits in the queue has no pending record, no
    timer, no script element and no load in progress, and holds no slot;
    and while a call waits, all five slots are taken. *)
Theorem queued_fetch_has_issued_no_request evs s cl :
  exec CACHE_TTL evs init = Some s →
  cl ∈ Limiter.requestQueue (limiter s) →
  (∀ req, req ∈ pendingRequests s →
     PendingRequest.resolve req ≠ cl
     ∧ PendingRequest.timeout req ≠ call_id cl)
  ∧ (call_id cl ∉ timers s) ∧ (call_id cl ∉ scripts s)
  ∧ (call_id cl ∉ loading s)
  ∧ (cl ∉ Limiter.running (limiter s))
  ∧ (cl ∉ Limiter.started (limiter s))
  ∧ (length (Limiter.running (limiter s))
     + length (Limiter.awaiting (limiter s)) = 5)%nat.
Proof.
  intros Hreach Hq.
  destruct (consistent_reachable _ _ _ Hreach) as (Hinv & Huniq & _).
  destruct (reachable_wired _ _ Hreach) as (Hnd & Hp & Ht & Hs & Hl).
  destruct Hinv as (Hact & _ & Hfull & Hsub).
  assert (cl ∉ Limiter.started (limiter s)) as Hnot.
  { apply NoDup_fmap_1 in Hnd. rewrite Hsub in Hnd.
    apply NoDup_app in Hnd as (_ & Hdis & _). intros Hin.
    by apply (Hdis cl). }
  assert (cl ∈ Limiter.submitted (limiter s)) as Hcl.
  { rewrite Hsub. apply elem_of_app. by right. }
  assert (∀ id, id ∈ call_id <$> Limiter.started (limiter s) →
                id ≠ call_id cl) as Hids.
  { intros id (cl' & -> & Hcl')%list_elem_of_fmap Heq. apply Hnot.
    assert (cl' ∈ Limiter.submitted (limiter s)) as Hcl's.
    { rewrite Hsub. apply elem_of_app. by left. }
    by rewrite <- (NoDup_fmap_elem_inj call_id _ cl' cl Hnd Hcl's Hcl Heq). }
  split_and!.
  - intros req Hreq. destruct (Hp req Hreq) as [Hst Htm]. split.
    + intros Heq. apply Hnot. by rewrite <- Heq.
    + rewrite Htm. apply Hids. by apply list_elem_of_fmap_2.
  - intros Hin. by apply (Hids _ (Ht _ Hin)).
  - intros Hin. by apply (Hids _ (Hs _ Hin)).
  - intros Hin. by apply (Hids _ (Hl _ Hin)).
  - intros Hin. by destruct (running_elsewhere cl (limiter s) Huniq Hin)
      as (_ & ? & _).
  - done.
  - assert (Limiter.activeRequests (limiter s) = Limiter.MAX_CONCURRENT) as Hfive.
    { apply Hfull. intros Hnil. rewrite Hnil in Hq.
      by apply elem_of_nil in Hq. }
    unfold Limiter.MAX_CONCURRENT in Hfive. lia.
Qed.

(** *** Calls that can no longer settle *)

(** A call that holds a slot while nothing is left that could settle its
    promise: no pending record carries its [resolve], its timer is not
    armed, and its script is no longer loading. *)
Definition orphaned (cl : Call) (s : state) : Prop :=
  cl ∈ Limiter.running (limiter s)
  ∧ (∀ req, req ∈ pendingRequests s → PendingRequest.resolve req ≠ cl)
  ∧ (call_id cl ∉ timers s)
  ∧ (call_id cl ∉ loading s).

Lemma fall_back_fields cl msg s :
  timers (fall_back cl msg s) = timers s
  ∧ scripts (fall_back cl msg s) = scripts s
  ∧ loading (fall_back cl msg s) = loading s.
Proof. unfold fall_back. by destruct (call_persisted cl). Qed.

Lemma orphaned_fall_back cl cl' msg s base :
  orphaned cl s → cl' ≠ cl → limiter base = limiter s →
  (∀ req, req ∈ pendingRequests base → req ∈ pendingRequests s) →
  (∀ id, id ∈ timers base → id ∈ timers s) →
  (∀ id, id ∈ loading base → id ∈ loading s) →
  orphaned cl (fall_back cl' msg base).
Proof.
  intros (Hrun & Hrec & Htm & Hld) Hne Hlim Hp Ht Hl.
  destruct (limiter_fall_back cl' msg base) as (Hlim' & _ & _ & Hpend).
  destruct (fall_back_fields cl' msg base) as (Htm' & _ & Hld').
  unfold orphaned. rewrite Hlim', Hpend, Htm', Hld', Hlim. split_and!.
  - by apply settle_keeps_running.
  - intros req Hreq. by apply Hrec, Hp.
  - intros Hin. by apply Htm, Ht.
  - intros Hin. by apply Hld, Hl.
Qed.

Lemma orphaned_run_admitted cl admitted l s :
  orphaned cl s →
  (∀ c, c ∈ Limiter.running (limiter s) → c ∈ Limiter.running l) →
  (∀ cl', admitted = Some cl' → cl' ≠ cl ∧ call_id cl' ≠ call_id cl) →
  orphaned cl (run_admitted admitted (set_limiter l s)).
Proof.
  intros (Hrun & Hrec & Htm & Hld) Hmono Hadm.
  destruct admitted as [cl'|]; simpl.
  - destruct (Hadm cl' eq_refl) as [Hne Hid].
    unfold orphaned; simpl. split_and!.
    + by apply Hmono.
    + intros req [Hreq| ->%list_elem_of_singleton]%elem_of_app;
        [by apply Hrec|done].
    + intros [Hin|Heq%list_elem_of_singleton]%elem_of_app; [done|congruence].
    + intros [Hin|Heq%list_elem_of_singleton]%elem_of_app; [done|congruence].
  - unfold orphaned; simpl. split_and!; try done. by apply Hmono.
Qed.

Lemma orphaned_step cl e s s' :
  consistent s → wired s → orphaned cl s →
  step CACHE_TTL e s = Some s' → orphaned cl s'.
Proof.
  intros Hs Hw Ho.
  pose proof Ho as (Hrun & Hrec & Htm & Hld).
  destruct Hs as (Hinv & Huniq & _).
  destruct (running_elsewhere cl (limiter s) Huniq Hrun)
    as (Hsub & Hnq & _).
  destruct e as [id code now trading|data now|cl'|cl'|cl'|cl']; simpl.
  - case_decide as Hfresh; [done|]. intros [= <-].
    unfold fetchFundEstimateFast.
    destruct (cache_get_as as_estimate now (key2 "estimate" code) (live s))
      as [cached c] eqn:Hget.
    destruct cached as [cached|]; [done|]. simpl.
    destruct (if negb trading then _ else _) as [p|]; [done|].
    set (new := {| call_id := id; call_code := code; call_persisted := _ |}).
    destruct (LimiterFacts.withConcurrencyControl_running new (limiter s))
      as [Hr _].
    destruct (withConcurrencyControl_started new (limiter s)) as [_ Hadm].
    apply (orphaned_run_admitted cl _ _ (set_live c s)); [done| |].
    + simpl. intros c0 Hc0.
      destruct (Limiter.withConcurrencyControl new (limiter s)).2.
      * destruct Hr as [_ ->]. apply elem_of_app. by left.
      * by rewrite Hr.
    + intros cl' Hcl'. apply Hadm in Hcl' as ->.
      assert (id ≠ call_id cl) as Hid.
      { intros ->. apply Hfresh. unfold used_ids. apply elem_of_app. left.
        by apply list_elem_of_fmap_2. }
      split; [|done]. intros <-. done.
  - destruct (jsonpInitialized s); [|done]. intros [= <-].
    unfold jsonpgz. destruct data as [d|]; [|done].
    destruct (fundcode d) as [fc|]; [|done]. case_bool_decide; [done|].
    pose proof (find_splice_subseteq (has_code fc) (pendingRequests s)) as Hsubs.
    destruct (find_splice (has_code fc) (pendingRequests s)) as [found rest]
      eqn:Hf.
    destruct found as [req|]; [|done]. simpl in Hsubs.
    destruct (find_splice_split _ _ _ _ Hf) as (before & after & Hpend & _).
    assert (req ∈ pendingRequests s) as Hreq.
    { rewrite Hpend. apply elem_of_app. right. by left. }
    unfold orphaned, record_resolve; simpl. split_and!.
    + apply settle_keeps_running; [done|]. intros Heq. by apply (Hrec req).
    + intros r Hr. by apply Hrec, Hsubs.
    + intros Hin. by apply Htm, (remove_id_subseteq _ _ _ Hin).
    + done.
  - case_decide as Hguard; [|done]. intros [= <-].
    destruct Hguard as [_ Harmed]. unfold on_timeout.
    apply (orphaned_fall_back cl cl' _ s); simpl; try done.
    + by intros ->.
    + apply find_splice_subseteq.
    + apply remove_id_subseteq.
  - case_decide as Hguard; [|done]. intros [= <-].
    destruct Hguard as [_ Hloading]. unfold on_script_error.
    pose proof (find_splice_subseteq (has_code (call_code cl'))
                  (pendingRequests s)) as Hsubs.
    simpl.
    destruct (find_splice (has_code (call_code cl')) (pendingRequests s))
      as [found rest].
    simpl in Hsubs.
    destruct found as [req|]; apply (orphaned_fall_back cl cl' _ s); simpl;
      try done; try (by intros ->); try apply remove_id_subseteq.
  - case_decide; [|done]. intros [= <-].
    unfold orphaned, on_script_load, cleanup; simpl. split_and!; try done.
    intros Hin. by apply Hld, (remove_id_subseteq _ _ _ Hin).
  - destruct (Limiter.settled_with cl' (limiter s)) as [o|] eqn:Hset; [|done].
    intros [= <-]. unfold resume.
    destruct (LimiterFacts.resume_running cl' o (limiter s)) as [Hr _].
    destruct (resume_started cl' o (limiter s)) as [_ Hnext].
    apply orphaned_run_admitted; [done| |].
    + intros c0 Hc0. destruct (Limiter.resume cl' o (limiter s)).2.
      * rewrite Hr. apply elem_of_app. by left.
      * by rewrite Hr.
    + intros next Hn. apply Hnext in Hn.
      assert (next ≠ cl) as Hne by (by intros ->).
      split; [done|]. intros Hid. apply Hne.
      destruct Hw as (Hnd & _). destruct Hinv as (_ & _ & _ & Hsplit).
      apply (NoDup_fmap_elem_inj call_id _ next cl Hnd); [|done|done].
      rewrite Hsplit. apply elem_of_app. by right.
Qed.

(** X9. A call can be left with nothing that settles it.  From a state in
    which a call holds a slot while no pending record carries its
    [resolve], its timer is disarmed and its script is not loading, no
    sequence of events whatever settles the call: it holds its slot for
    good, its caller never gets an answer, and at most four slots remain
    for all later calls.  (The script error of another call of the same
    code produces such a state: it removes the oldest record of the code
    and disarms the timer of that record, which need not be its own.) *)
Theorem orphaned_call_never_settles evs s cl evs' s' :
  exec CACHE_TTL evs init = Some s →
  orphaned cl s →
  exec CACHE_TTL evs' s = Some s' →
  orphaned cl s'
  ∧ Limiter.settled_with cl (limiter s') = None
  ∧ Limiter.result_of cl (limiter s') = None
  ∧ 1 ≤ Limiter.activeRequests (limiter s').
Proof.
  intros Hreach Ho Hexec.
  pose proof (consistent_reachable _ _ _ Hreach) as Hs.
  pose proof (reachable_wired _ _ Hreach) as Hw.
  clear Hreach. revert s Hs Hw Ho Hexec.
  induction evs' as [|e evs' IH]; simpl; intros s Hs Hw Ho.
  - intros [= <-]. pose proof Ho as (Hrun & _).
    destruct Hs as ((Hact & _) & Huniq & _).
    destruct (running_elsewhere cl (limiter s) Huniq Hrun)
      as (_ & _ & Hset & Hres).
    split_and!; try done.
    assert (0 < length (Limiter.running (limiter s)))%nat; [|lia].
    destruct (Limiter.running (limiter s)); [by apply elem_of_nil in Hrun|].
    simpl. lia.
  - destruct (step CACHE_TTL e s) as [s1|] eqn:Hstep; [|done].
    apply IH.
    + by eapply consistent_step.
    + by eapply wired_step.
    + by eapply orphaned_step.
Qed.

End facts.
(** Concrete runs: fetches of fund 000001 during trading hours, none of
    them cached or persisted. *)
Definition one_minute : CacheTtl :=
  {| ESTIMATE := 60000; NET_VALUE := 300000; MARKET_INDEX := 30000;
     FUND_INFO := 3600000 |}.
Definition quote : FundEstimate :=
  {| fundcode := Some "000001"; properties := [("gsz", "1.2345")] |}.
Definition first_call : Call :=
  {| call_id := 1; call_code := "000001"; call_persisted := None |}.
Definition second_call : Call :=
  {| call_id := 2; call_code := "000001"; call_persisted := None |}.
Definition sixth_call : Call :=
  {| call_id := 6; call_code := "000006"; call_persisted := None |}.

Definition one_fetch : list event := [Fetch 1 "000001" 1000 true].

Definition six_fetches : list event :=
  [Fetch 1 "000001" 1000 true; Fetch 2 "000002" 1000 true;
   Fetch 3 "000003" 1000 true; Fetch 4 "000004" 1000 true;
   Fetch 5 "000005" 1000 true; Fetch 6 "000006" 1000 true].

(** Two overlapping fetches of one code.  The script of the second call
    loads and delivers the estimate, which goes to the record of the first
    call; then the script of the first call fails to load, which removes
    the record of the second call and disarms its timer. *)
Definition second_call_orphaned : list event :=
  [Fetch 1 "000001" 1000 true; Fetch 2 "000001" 1001 true;
   ScriptLoads second_call; Jsonp (Some quote) 1500; ScriptFails first_call].

Lemma matched_response_witness :
  let s := default init (exec one_minute one_fetch init) in
  persist (jsonpgz one_minute (Some quote) 1500 s) !! key2 "estimate" "000001"
  = Some quote.
Proof.
  intros s.
  assert (exec one_minute one_fetch init = Some s) as Hreach
    by (vm_compute; reflexivity).
  destruct (matched_response_goes_to_oldest_record one_minute one_fetch s
              quote "000001" 1500 (record_of first_call) [] Hreach)
    as (_ & _ & _ & _ & Hpersist & _);
    [reflexivity|discriminate|vm_compute; reflexivity|].
  exact Hpersist.
Defined.

Lemma fetch_after_response_witness :
  let s := default init (exec one_minute one_fetch init) in
  answered (fetchFundEstimateFast one_minute 2 "000001" 2000 true
              (jsonpgz one_minute (Some quote) 1500 s))
  = answered (jsonpgz one_minute (Some quote) 1500 s) ++ [(2%nat, quote)].
Proof.
  intros s.
  assert (exec one_minute one_fetch init = Some s) as Hreach
    by (vm_compute; reflexivity).
  destruct (fetch_after_response_is_answered_at_once one_minute one_fetch s
              quote "000001" 1500 (record_of first_call) [] 2%nat 2000 true
              Hreach)
    as (Hanswered & _);
    [reflexivity|discriminate|vm_compute; reflexivity|left; vm_compute; discriminate|].
  exact Hanswered.
Defined.

Lemma queued_fetch_witness :
  let s := default init (exec one_minute six_fetches init) in
  sixth_call ∈ Limiter.requestQueue (limiter s)
  ∧ (call_id sixth_call ∉ timers s).
Proof.
  intros s.
  assert (exec one_minute six_fetches init = Some s) as Hreach
    by (vm_compute; reflexivity).
  assert (sixth_call ∈ Limiter.requestQueue (limiter s)) as Hq
    by (vm_compute; apply list_elem_of_here).
  split; [exact Hq|].
  destruct (queued_fetch_has_issued_no_request one_minute six_fetches s
              sixth_call Hreach Hq) as (_ & Htimers & _).
  exact Htimers.
Defined.

Lemma orphaned_call_witness :
  let s := default init (exec one_minute second_call_orphaned init) in
  let s' := default init
              (exec one_minute
                 [Jsonp (Some quote) 3000; Fetch 3 "000001" 900000 true] s) in
  orphaned second_call s
  ∧ Limiter.result_of second_call (limiter s') = None.
Proof.
  intros s s'.
  assert (exec one_minute second_call_orphaned init = Some s) as Hreach
    by (vm_compute; reflexivity).
  assert (orphaned second_call s) as Ho.
  { unfold orphaned.
    assert (Limiter.running (limiter s) = [second_call]) as ->
      by (vm_compute; reflexivity).
    assert (pendingRequests s = []) as -> by (vm_compute; reflexivity).
    assert (timers s = []) as -> by (vm_compute; reflexivity).
    assert (loading s = []) as -> by (vm_compute; reflexivity).
    split_and!; [by left|..]; by intros ? ?%elem_of_nil || by intros ?%elem_of_nil. }
  split; [exact Ho|].
  assert (exec one_minute
            [Jsonp (Some quote) 3000; Fetch 3 "000001" 900000 true] s
          = Some s') as Hexec by (vm_compute; reflexivity).
  destruct (orphaned_call_never_settles one_minute second_call_orphaned s
              second_call _ s' Hreach Ho Hexec) as (_ & _ & Hres & _).
  exact Hres.
Defined.

End ChannelFacts.


(** * Batches of estimates *)

Module BatchFacts.











End BatchFacts.


(** * Global indices: live rows and the fallback list *)

Module GlobalFacts.

(** The row of the table that an index was built from. *)
Definition row_of (e : GlobalIndex.t) : string * string * string :=
  (GlobalIndex.code e, GlobalIndex.name e, GlobalIndex.region e).

Section facts.
Context (CACHE_TTL : CacheTtl) (ToNumber_other : jsval → option Q).

Definition live_price (e : GlobalIndex.t) : Prop :=
  ∃ q, GlobalIndex.price e = Some q ∧ (0 < q)%Q.

Lemma div_100_positive f2 :
  gt_0 ToNumber_other f2 = true →
  ∃ q, div_100 ToNumber_other f2 = Some q ∧ (0 < q)%Q.
Proof.
  unfold gt_0, div_100. destruct (ToNumber ToNumber_other f2) as [q|]; [|done].
  intros Hq%AnalyticsFacts.Qltb_lt. exists (q / 100)%Q. split; [done|].
  apply Qlt_shift_div_l; lra.
Qed.

Lemma drop_S_sublist {A} (n : nat) (l : list A) :
  drop (S n) l `sublist_of` drop n l.
Proof.
  destruct (l !! n) as [x|] eqn:Hx.
  - rewrite (drop_S l x n Hx). by apply sublist_cons.
  - apply lookup_ge_None in Hx. rewrite !drop_ge by lia. done.
Qed.

Lemma forEach_global_spec idx items results :
  ∃ new,
    (forEach_global ToNumber_other idx items results).1 = results ++ new
    ∧ Forall live_price new
    ∧ (row_of <$> new) `sublist_of` drop idx indices.
Proof.
  revert idx results. induction items as [|item items IH]; intros idx results.
  - exists []. simpl. rewrite app_nil_r. split_and!; [done|done|].
    apply sublist_nil_l.
  - simpl. unfold global_item.
    destruct (indices !! idx) as [[[code name] region]|] eqn:Hrow.
    + assert (∃ new, results ++ [] = results ++ new
                     ∧ Forall live_price new
                     ∧ (row_of <$> new) `sublist_of` drop idx indices)
        as Hnone.
      { exists []. split_and!; [done|done|apply sublist_nil_l]. }
      rewrite app_nil_r in Hnone.
      destruct (prop item "f2") as [f2|]; simpl; [|done].
      destruct (gt_0 ToNumber_other f2) eqn:Hgt.
      * destruct (prop item "f4") as [f4|]; simpl; [|done].
        destruct (prop item "f3") as [f3|]; simpl; [|done].
        match goal with
        | |- context [forEach_global _ _ _ (results ++ [?e])] =>
            destruct (IH (S idx) (results ++ [e]))
              as (new & Hout & Hlive & Hrows);
            exists (e :: new)
        end.
        rewrite Hout, <- app_assoc. split_and!; [done| |].
        -- constructor; [|done]. by apply div_100_positive.
        -- rewrite (drop_S indices (code, name, region) idx Hrow).
           rewrite fmap_cons. by apply sublist_skip.
      * destruct (IH (S idx) results) as (new & Hout & Hlive & Hrows).
        exists new. split_and!; [done|done|].
        etrans; [done|]. apply drop_S_sublist.
    + destruct (IH (S idx) results) as (new & Hout & Hlive & Hrows).
      exists new. split_and!; [done|done|].
      etrans; [done|]. apply drop_S_sublist.
Qed.

(** X11. What [fetchGlobalIndices] answers on a cache miss is one of two
    things that a caller can tell apart by the prices.  Either it is the
    fallback list, whose prices are all 0, and nothing is stored; or it is
    a non-empty list of live rows: every price is a positive number, the
    rows are rows of the table of the eight indices, each at most once and
    in the order of the table, and the list is stored under
    [global_indices] with the time-to-live of market indices. *)
Theorem global_indices_are_live_or_fallback now now2 (c : Cache) res out c' :
  (cache_get_as as_global now "global_indices" c).1 = None →
  fetchGlobalIndices CACHE_TTL ToNumber_other now now2 c res
  = Fulfils (out, c') →
  (out = getDefaultGlobalIndices
   ∧ (∀ e, e ∈ out → GlobalIndex.price e = Some 0%Q)
   ∧ c' = (cache.get now "global_indices" c).2)
  ∨ (out ≠ []
     ∧ (∀ e, e ∈ out → live_price e)
     ∧ (row_of <$> out) `sublist_of` indices
     ∧ (length out ≤ 8)%nat
     ∧ c' !! "global_indices"
       = Some {| payload := CGlobal out;
                 expiry := now2 + MARKET_INDEX CACHE_TTL |}).
Proof.
  intros Hmiss. unfold fetchGlobalIndices.
  unfold cache_get_as in *. simpl in Hmiss |- *. rewrite Hmiss.
  case_bool_decide as Hlen.
  - intros [= <- <-]. left. split_and!; [done| |done].
    intros e He. unfold getDefaultGlobalIndices in He.
    repeat (apply elem_of_cons in He as [->|He]; [done|]).
    by apply elem_of_nil in He.
  - intros [= <- <-]. right.
    assert (∃ new,
              (global_results ToNumber_other res).1 = new
              ∧ Forall live_price new
              ∧ (row_of <$> new) `sublist_of` indices)
      as (new & Hnew & Hlive & Hrows).
    { unfold global_results. destruct res as [| |data].
      1-2: exists []; split_and!; [done|done|apply sublist_nil_l].
      destruct (truthy _).
      - destruct (as_array _) as [items|].
        + destruct (forEach_global_spec 0 items [])
            as (new & Hout & Hlive & Hrows).
          exists new. by rewrite Hout.
        + exists []. split_and!; [done|done|apply sublist_nil_l].
      - exists []. split_and!; [done|done|apply sublist_nil_l]. }
    rewrite Hnew in Hlen |- *. split_and!.
    + by intros ->.
    + intros e He. by eapply (proj1 (Forall_forall _ _) Hlive).
    + done.
    + apply sublist_length in Hrows. by rewrite length_fmap in Hrows.
    + unfold cache.set. by rewrite lookup_insert_eq.
Qed.

End facts.

Definition market_ttl : CacheTtl :=
  {| ESTIMATE := 60000; NET_VALUE := 300000; MARKET_INDEX := 30000;
     FUND_INFO := 3600000 |}.
Definition not_a_number (v : jsval) : option Q := None.

(** A payload with a quote for the first index and none for the second. *)
Definition two_rows : jsval :=
  JObj [("data",
         JObj [("diff",
                JArr [JObj [("f2", JNum 305012); ("f3", JNum 45);
                            ("f4", JNum 1370)];
                      JObj [("f2", JStr "-"); ("f3", JStr "-");
                            ("f4", JStr "-")]])])].

Definition shanghai_live : GlobalIndex.t :=
  {| GlobalIndex.name := "上证指数"; GlobalIndex.code := "1.000001";
     GlobalIndex.price := Some (305012 / 100)%Q;
     GlobalIndex.change := Some (1370 / 100)%Q;
     GlobalIndex.changePercent := Some (45 / 100)%Q;
     GlobalIndex.region := "cn" |}.

Lemma global_indices_witness :
  let stored :=
    cache.set 1500 "global_indices" (CGlobal [shanghai_live])
              (MARKET_INDEX market_ttl) (∅ : Cache) in
  fetchGlobalIndices market_ttl not_a_number 1000 1500 ∅
                     (JsonpCallback two_rows)
  = Fulfils ([shanghai_live], stored)
  ∧ live_price shanghai_live.
Proof.
  intros stored.
  assert (fetchGlobalIndices market_ttl not_a_number 1000 1500 (∅ : Cache)
                             (JsonpCallback two_rows)
          = Fulfils ([shanghai_live], stored)) as Hrun
    by (vm_compute; reflexivity).
  split; [exact Hrun|].
  assert ((cache_get_as as_global 1000 "global_indices" (∅ : Cache)).1 = None)
    as Hmiss by (vm_compute; reflexivity).
  destruct (global_indices_are_live_or_fallback market_ttl not_a_number
              1000 1500 ∅ (JsonpCallback two_rows) [shanghai_live] stored
              Hmiss Hrun)
    as [(Hdefault & _)|(_ & Hlive & _)]; [discriminate|].
  apply Hlive. by left.
Defined.

End GlobalFacts.


(** * Manager profit and industry allocation *)

Module FetcherFacts.

Lemma every_nth_length {A} (step skip : nat) (l : list A) :
  (skip < step)%nat →
  (length (every_nth step skip l) * step + skip ≤ length l + (step - 1))%nat.
Proof.
  revert skip. induction l as [|x l IH]; intros skip Hskip; simpl; [lia|].
  destruct skip as [|skip]; simpl.
  - specialize (IH (step - 1)%nat). lia.
  - specialize (IH skip). lia.
Qed.

Lemma every_nth_subseteq {A} (step skip : nat) (l : list A) :
  ∀ x, x ∈ every_nth step skip l → x ∈ l.
Proof.
  revert skip. induction l as [|y l IH]; intros skip x; simpl; [done|].
  destruct skip as [|skip].
  - intros [->|Hx]%elem_of_cons; [by left|right; by eapply IH].
  - intros Hx. right. by eapply IH.
Qed.

Lemma every_nth_all {A} (l : list A) : every_nth 1 0 l = l.
Proof. induction l as [|x l IH]; simpl; [done|]. by rewrite IH. Qed.

Lemma omap_length_le {A B} (f : A → option B) (l : list A) :
  (length (omap f l) ≤ length l)%nat.
Proof.
  induction l as [|x l IH]; [done|]. unfold omap in *. simpl.
  destruct (f x); simpl; lia.
Qed.

(** The sampling loop visits fewer than 400 elements. *)
Lemma sampled_at_most_399 {A} (l : list A) :
  (length (every_nth (1 `max` (length l `div` 200)) 0 l) ≤ 399)%nat.
Proof.
  set (s := (length l `div` 200)%nat).
  assert (200 * s ≤ length l < 200 * (s + 1))%nat as Hs.
  { unfold s. pose proof (Nat.div_mod_eq (length l) 200).
    pose proof (Nat.mod_upper_bound (length l) 200). lia. }
  destruct (decide (s ≤ 1)%nat) as [Hle|Hgt].
  - replace (1 `max` s)%nat with 1%nat by lia.
    pose proof (every_nth_length 1 0 l ltac:(lia)). lia.
  - replace (1 `max` s)%nat with s by lia.
    pose proof (every_nth_length s 0 l ltac:(lia)) as Hlen.
    assert (length (every_nth s 0 l) * s ≤ 300 * s)%nat; [|nia].
    assert (length l + (s - 1) ≤ 300 * s)%nat by lia. lia.
Qed.

Section facts.
Context (CACHE_TTL : CacheTtl) (ToNumber_other : jsval → option Q)
        (local_date : jsval → string) (iso_date : jsval → option string).

Lemma manager_profit_points_spec grandTotal result :
  manager_profit_points local_date iso_date grandTotal = Some result →
  (length result ≤ 400)%nat
  ∧ ∀ p, p ∈ result →
         ∃ item, item ∈ grandTotal ∧ p = profit_point local_date item.
Proof.
  unfold manager_profit_points.
  set (step := (1 `max` (length grandTotal `div` 200))%nat).
  set (sampled := omap (sampled_point local_date) _).
  assert (length sampled ≤ 399)%nat as Hlen.
  { unfold sampled. etrans; [apply omap_length_le|].
    apply sampled_at_most_399. }
  assert (∀ p, p ∈ sampled →
               ∃ item, item ∈ grandTotal ∧ p = profit_point local_date item)
    as Hfrom.
  { intros p (item & Hitem & Hp)%list_elem_of_omap.
    exists item. split; [by eapply every_nth_subseteq|].
    unfold sampled_point in Hp. destruct item; try done.
    case_bool_decide; [|done]. by injection Hp as <-. }
  destruct (last sampled) as [lastResult|] eqn:Hlast.
  - destruct (truthy _) eqn:Htruthy.
    + destruct (iso_date _) as [iso|]; simpl; [|done].
      case_bool_decide; intros [= <-].
      * split; [rewrite length_app; simpl; lia|].
        intros p [Hp| ->%list_elem_of_singleton]%elem_of_app;
          [by apply Hfrom|].
        destruct (last grandTotal) as [item|] eqn:Hl; simpl in *; [|done].
        exists item. split; [|done]. apply last_Some in Hl as [l' ->].
        apply elem_of_app. right. by left.
      * split; [lia|done].
    + intros [= <-]. split; [lia|done].
  - intros [= <-]. split; [lia|done].
Qed.

(** X12. The sampling of [fetchManagerProfit].  On a cache miss the answer
    has at most 400 points, however long [Data_grandTotal] is, and every
    point is built from an element of [Data_grandTotal]: from its first
    entry (the date) and its second entry, or 0 when that one is falsy (the
    profit).  The answer is empty, and nothing is stored, unless the script
    loaded and left a non-empty array; a non-empty answer is stored under
    the key of the fund. *)
Theorem manager_profit_has_at_most_400_points now now2 fundCode c res :
  let key := "manager_profit_" +:+ fundCode in
  let out :=
    fetchManagerProfit CACHE_TTL local_date iso_date now now2 fundCode c res in
  (cache.get now key c).1 = None →
  (length out.1 ≤ 400)%nat
  ∧ (∀ p, p ∈ out.1 →
       ∃ items item,
         res = Loaded (JArr items) ∧ item ∈ items
         ∧ ManagerProfitPoint.date p = local_date (js_index item 0)
         ∧ ManagerProfitPoint.profit p = or_0 (js_index item 1))
  ∧ (out.1 ≠ [] →
       out.2 !! key
       = Some {| payload := out.1; expiry := now2 + NET_VALUE CACHE_TTL |}).
Proof.
  intros key out Hmiss. unfold out, fetchManagerProfit. fold key.
  destruct (cache.get now key c) as [cached c0]. simpl in Hmiss. subst cached.
  assert (∀ c1 : gmap string (CacheEntry (list ManagerProfitPoint.t)),
            (length ([] : list ManagerProfitPoint.t, c1).1 ≤ 400)%nat
            ∧ (∀ p, p ∈ ([] : list ManagerProfitPoint.t, c1).1 →
                 ∃ items item,
                   res = Loaded (JArr items) ∧ item ∈ items
                   ∧ ManagerProfitPoint.date p = local_date (js_index item 0)
                   ∧ ManagerProfitPoint.profit p = or_0 (js_index item 1))
            ∧ (([] : list ManagerProfitPoint.t, c1).1 ≠ [] →
                 ([] : list ManagerProfitPoint.t, c1).2 !! key
                 = Some {| payload := ([] : list ManagerProfitPoint.t, c1).1;
                           expiry := now2 + NET_VALUE CACHE_TTL |})) as Hnil.
  { intros c1. simpl. split_and!; [lia| |done]. by intros p ?%elem_of_nil. }
  destruct res as [| |global]; [apply Hnil|apply Hnil|].
  destruct (truthy global) eqn:Htruthy; [|apply Hnil].
  destruct global as [| | | | | |items|]; try apply Hnil.
  destruct items as [|item0 items]; [apply Hnil|].
  destruct (manager_profit_points _ _ (item0 :: items)) as [result|] eqn:Hpts;
    [|apply Hnil].
  destruct (manager_profit_points_spec _ _ Hpts) as [Hlen Hfrom].
  simpl. split_and!.
  - done.
  - intros p Hp. destruct (Hfrom p Hp) as (item & Hitem & ->).
    by exists (item0 :: items), item.
  - intros _. unfold cache.set. by rewrite lookup_insert_eq.
Qed.

(** *** Industry allocation *)

Lemma filterM_spec {A} (p : A → option bool) (l kept : list A) :
  filterM p l = Some kept → ∀ x, x ∈ kept → x ∈ l ∧ p x = Some true.
Proof.
  revert kept. induction l as [|y l IH]; simpl; intros kept.
  - intros [= <-] x Hx. by apply elem_of_nil in Hx.
  - destruct (p y) as [b|] eqn:Hp; simpl; [|done].
    destruct (filterM p l) as [kept'|]; simpl; [|done].
    intros [= <-] x Hx. destruct b.
    + apply elem_of_cons in Hx as [->|Hx]; [split; [by left|done]|].
      destruct (IH kept' eq_refl x Hx). split; [by right|done].
    + destruct (IH kept' eq_refl x Hx). split; [by right|done].
Qed.

Lemma toFixed2_nonneg q : (0 <= q)%Q → (0 <= toFixed2 q)%Q.
Proof.
  intros Hq. unfold toFixed2.
  assert (Qltb q 0 = false) as ->.
  { destruct (Qltb q 0) eqn:Hlt; [|done].
    apply AnalyticsFacts.Qltb_lt in Hlt. lra. }
  pose proof (Qfloor_resp_le 0 (Qabs q * 100 + (1 # 2))) as Hlo.
  assert (0 <= Qabs q)%Q by apply Qabs_nonneg.
  change (Qfloor 0) with 0 in Hlo.
  set (n := Qfloor _) in *.
  assert (0 ≤ n) by (apply Hlo; lra).
  unfold Qle. simpl. lia.
Qed.

Lemma CHART_COLORS_NoDup : NoDup CHART_COLORS.
Proof.
  refine (bool_decide_unpack (NoDup CHART_COLORS) _). vm_compute. exact I.
Qed.

Lemma industry_entry_spec idx item e :
  (idx < 10)%nat →
  industry_entry idx item = Some e →
  gt_0 ToNumber_other (get item "y") = true →
  (0 <= IndustryAllocation.ratio e)%Q
  ∧ truthy (IndustryAllocation.name e) = true
  ∧ CHART_COLORS !! idx = Some (IndustryAllocation.color e).
Proof.
  intros Hidx. unfold industry_entry.
  assert (CHART_COLORS !! (idx `mod` length CHART_COLORS)%nat
          = CHART_COLORS !! idx) as Hmod.
  { f_equal. apply Nat.mod_small. simpl. lia. }
  rewrite Hmod.
  destruct (lookup_lt_is_Some_2 CHART_COLORS idx) as [colour Hcolour];
    [simpl; lia|].
  rewrite Hcolour. simpl.
  assert (∀ name : jsval,
            truthy (if truthy name then name else JStr "其他") = true) as Hname.
  { intros name. by destruct (truthy name) eqn:Hn. }
  destruct (prop item "name") as [name|]; simpl; [|done].
  destruct (prop item "y") as [y|] eqn:Hy; simpl; [|done].
  assert (get item "y" = y) as ->.
  { unfold prop in Hy. destruct item; try done; by injection Hy. }
  destruct y as [| | |q| | | |]; simpl; try done.
  all: intros [= <-] Hgt; simpl; split_and!; try done; try apply Hname.
  unfold gt_0 in Hgt; simpl in Hgt.
  apply AnalyticsFacts.Qltb_lt in Hgt. apply toFixed2_nonneg. lra.
Qed.

(** X13. The answer of [fetchIndustryAllocation].  On a cache miss, whatever
    the script leaves in [Data_IndustryAllocation], the answer has at most
    ten entries; every entry has a ratio that is not negative and a name
    that is not empty, and the entry at position [i] carries the colour at
    position [i] of the palette, so that the colours of the answer are
    pairwise distinct. *)
Theorem industry_allocation_has_at_most_ten_entries now now2 code c res :
  let out :=
    fetchIndustryAllocation CACHE_TTL ToNumber_other now now2 code c res in
  (cache.get now ("industry_" +:+ code) c).1 = None →
  (length out.1 ≤ 10)%nat
  ∧ (∀ i e, out.1 !! i = Some e →
       (0 <= IndustryAllocation.ratio e)%Q
       ∧ truthy (IndustryAllocation.name e) = true
       ∧ CHART_COLORS !! i = Some (IndustryAllocation.color e))
  ∧ NoDup (IndustryAllocation.color <$> out.1).
Proof.
  intros out Hmiss.
  assert ((length out.1 ≤ 10)%nat
          ∧ (∀ i e, out.1 !! i = Some e →
               (0 <= IndustryAllocation.ratio e)%Q
               ∧ truthy (IndustryAllocation.name e) = true
               ∧ CHART_COLORS !! i = Some (IndustryAllocation.color e)))
    as [Hlen Hentries].
  { unfold out, fetchIndustryAllocation.
    destruct (cache.get now _ c) as [cached c0]. simpl in Hmiss. subst cached.
    assert (∀ c1 : gmap string (CacheEntry (list IndustryAllocation.t)),
              (length ([] : list IndustryAllocation.t, c1).1 ≤ 10)%nat
              ∧ (∀ i e, ([] : list IndustryAllocation.t, c1).1 !! i = Some e →
                   (0 <= IndustryAllocation.ratio e)%Q
                   ∧ truthy (IndustryAllocation.name e) = true
                   ∧ CHART_COLORS !! i = Some (IndustryAllocation.color e)))
      as Hnil.
    { intros c1. simpl. split; [lia|done]. }
    destruct res as [| |data]; [apply Hnil|apply Hnil|].
    destruct (industry_body ToNumber_other data) as [[industries|]|] eqn:Hbody;
      [|apply Hnil|apply Hnil].
    unfold industry_body in Hbody.
    destruct (negb _); [done|].
    destruct (as_array _) as [items|]; simpl in Hbody; [|done].
    destruct (filterM _ items) as [kept|] eqn:Hkept; simpl in Hbody; [|done].
    destruct (mapM _ _) as [entries|] eqn:Hmap; simpl in Hbody; [|done].
    injection Hbody as <-. simpl.
    apply mapM_Some in Hmap.
    pose proof (Forall2_length _ _ _ Hmap) as Hlen.
    rewrite length_imap, length_take in Hlen.
    split; [lia|].
    intros i e He.
    destruct (Forall2_lookup_r _ _ _ _ _ Hmap He) as ([idx item] & Hl & Hf).
    rewrite list_lookup_imap in Hl.
    destruct (take 10 kept !! i) as [item'|] eqn:Hitem; simpl in Hl; [|done].
    injection Hl as <- <-. simpl in Hf.
    assert (i < 10)%nat as Hi.
    { apply lookup_lt_Some in Hitem. rewrite length_take in Hitem. lia. }
    assert (item' ∈ kept) as Hin.
    { apply list_elem_of_lookup_2 in Hitem.
      by apply (subseteq_take 10 kept). }
    destruct (filterM_spec _ _ _ Hkept item' Hin) as [_ Hpos].
    unfold positive_share, prop in Hpos.
    apply (industry_entry_spec i item' e Hi Hf).
    destruct item'; simpl in Hpos; try done; by injection Hpos. }
  split_and!; [done|done|].
  apply NoDup_alt. intros i j colour Hi Hj.
  rewrite list_lookup_fmap in Hi, Hj.
  destruct (out.1 !! i) as [ei|] eqn:Hei; [|done].
  destruct (out.1 !! j) as [ej|] eqn:Hej; [|done].
  simpl in Hi, Hj. injection Hi as <-. injection Hj as Hj.
  destruct (Hentries i ei Hei) as (_ & _ & Hci).
  destruct (Hentries j ej Hej) as (_ & _ & Hcj).
  rewrite Hj in Hcj.
  apply (proj1 (NoDup_alt CHART_COLORS) CHART_COLORS_NoDup i j _ Hci Hcj).
Qed.

End facts.
(** Concrete responses.  Dates are read in UTC, from timestamps that are
    whole numbers of milliseconds. *)
Definition fund_info_ttl : CacheTtl :=
  {| ESTIMATE := 60000; NET_VALUE := 300000; MARKET_INDEX := 30000;
     FUND_INFO := 3600000 |}.
Definition utc_date (v : jsval) : string :=
  match v with
  | JNum q => local_date_string 0 (Qfloor q)
  | _ => "NaN-NaN-NaN"
  end.
Definition utc_iso_date (v : jsval) : option string :=
  match v with
  | JNum q => Some (local_date_string 0 (Qfloor q))
  | _ => None
  end.
Definition no_number (v : jsval) : option Q := None.

Definition grand_total : jsval :=
  JArr [JArr [JNum 1709251200000; JNum (3 # 2)];
        JArr [JNum 1709337600000; JNum 0];
        JArr [JNum 1709424000000; JNum (5 # 2)]].

Definition industry_data : jsval :=
  JObj [("series",
         JArr [JObj [("data",
                      JArr [JObj [("name", JStr "制造业"); ("y", JNum (55123 # 1000))];
                            JObj [("name", JStr "金融业"); ("y", JNum 0)];
                            JObj [("name", JStr ""); ("y", JNum 3)]])]])].

Lemma manager_profit_witness :
  (fetchManagerProfit fund_info_ttl utc_date utc_iso_date 1000 1500 "000001" ∅
     (Loaded grand_total)).1
  = [ {| ManagerProfitPoint.date := "2024-03-01";
         ManagerProfitPoint.profit := JNum (3 # 2) |};
      {| ManagerProfitPoint.date := "2024-03-02";
         ManagerProfitPoint.profit := JNum 0 |};
      {| ManagerProfitPoint.date := "2024-03-03";
         ManagerProfitPoint.profit := JNum (5 # 2) |} ]
  ∧ (length (fetchManagerProfit fund_info_ttl utc_date utc_iso_date 1000 1500
               "000001" ∅ (Loaded grand_total)).1 ≤ 400)%nat.
Proof.
  split; [vm_compute; reflexivity|].
  destruct (manager_profit_has_at_most_400_points fund_info_ttl utc_date
              utc_iso_date 1000 1500 "000001" ∅ (Loaded grand_total))
    as [Hlen _]; [vm_compute; reflexivity|].
  exact Hlen.
Defined.

Lemma industry_allocation_witness :
  (fetchIndustryAllocation fund_info_ttl no_number 1000 1500 "000001" ∅
     (Loaded industry_data)).1
  = [ {| IndustryAllocation.name := JStr "制造业";
         IndustryAllocation.ratio := (5512 # 100)%Q;
         IndustryAllocation.color := "#3b82f6" |};
      {| IndustryAllocation.name := JStr "其他";
         IndustryAllocation.ratio := (300 # 100)%Q;
         IndustryAllocation.color := "#ef4444" |} ]
  ∧ NoDup (IndustryAllocation.color
             <$> (fetchIndustryAllocation fund_info_ttl no_number 1000 1500
                    "000001" ∅ (Loaded industry_data)).1).
Proof.
  split; [vm_compute; reflexivity|].
  destruct (industry_allocation_has_at_most_ten_entries fund_info_ttl
              no_number 1000 1500 "000001" ∅ (Loaded industry_data))
    as (_ & _ & Hcolours); [vm_compute; reflexivity|].
  exact Hcolours.
Defined.

End FetcherFacts.


(** * The chart component *)

Module ChartFacts.
Import Chart.

(** ** The intraday buffer *)

Definition well_formed (p : IntradayPoint.t) : Prop :=
  (0 < IntradayPoint.value p)%Q ∧ (100 <= IntradayPoint.volume p)%Q.

(** What holds of the buffer whatever happens to the component. *)
Definition buffer_ok (s : state) : Prop :=
  (length (intradayData s) ≤ 500)%nat
  ∧ Forall well_formed (intradayData s)
  ∧ (intradayData s ≠ [] → ¬ (baseValue s == 0)%Q).

Lemma Qle_bool_false a b : Qle_bool a b = false → (b < a)%Q.
Proof.
  intros Hb. apply Qnot_le_lt. intros Hle. apply Qle_bool_iff in Hle.
  congruence.
Qed.

Lemma is_random_spec r : is_random r = true → (0 <= r)%Q ∧ (r < 1)%Q.
Proof.
  unfold is_random. intros [H0 H1]%andb_prop. split.
  - by apply Qle_bool_iff.
  - by apply AnalyticsFacts.Qltb_lt.
Qed.

Lemma or_else_nonzero a b : ¬ (b == 0)%Q → ¬ (or_else a b == 0)%Q.
Proof.
  intros Hb. unfold or_else. destruct (Qeq_bool a 0) eqn:Ha; [done|].
  intros Heq. apply Qeq_bool_iff in Heq. congruence.
Qed.

(** The buffer after [addIntradayPoint] stored a point. *)
Lemma addIntradayPoint_data timeStr random value s :
  (0 < value)%Q →
  ∃ volume,
    (100 + random * 50 <= volume)%Q
    ∧ intradayData (addIntradayPoint timeStr random value s)
      = (if bool_decide (500 ≤ length (intradayData s))%nat
         then drop (length (intradayData s) - 499) (intradayData s)
         else intradayData s)
        ++ [ {| IntradayPoint.time := timeStr; IntradayPoint.value := value;
                IntradayPoint.volume := volume |} ].
Proof.
  intros Hpos. unfold addIntradayPoint.
  assert (Qle_bool value 0 = false) as ->.
  { destruct (Qle_bool value 0) eqn:Hle; [|done].
    apply Qle_bool_iff in Hle. lra. }
  set (lastValue := match last (intradayData s) with
                    | Some p => IntradayPoint.value p
                    | None => value
                    end).
  exists (100 + Qabs (value - lastValue) * 10000 + random * 50)%Q.
  split; [|done].
  pose proof (Qabs_nonneg (value - lastValue)). lra.
Qed.

Lemma buffer_ok_add timeStr random value s :
  is_random random = true → buffer_ok s →
  buffer_ok (addIntradayPoint timeStr random value s).
Proof.
  intros [Hr0 Hr1]%is_random_spec (Hlen & Hall & Hbase).
  destruct (Qle_bool value 0) eqn:Hle.
  { unfold addIntradayPoint. by rewrite Hle. }
  apply Qle_bool_false in Hle.
  destruct (addIntradayPoint_data timeStr random value s Hle)
    as (volume & Hvol & Hdata).
  unfold buffer_ok. rewrite Hdata. split_and!.
  - rewrite length_app. simpl. case_bool_decide.
    + rewrite length_drop. lia.
    + lia.
  - apply Forall_app. split.
    + case_bool_decide; [|done]. by apply Forall_drop.
    + constructor; [|done]. split; simpl; lra.
  - intros _. unfold addIntradayPoint.
    assert (Qle_bool value 0 = false) as ->.
    { destruct (Qle_bool value 0) eqn:Hle'; [|done].
      apply Qle_bool_iff in Hle'. lra. }
    simpl. destruct (Qeq_bool (baseValue s) 0) eqn:Hb.
    + apply or_else_nonzero. lra.
    + intros Heq. apply Qeq_bool_iff in Heq. congruence.
Qed.

Lemma buffer_ok_reset s : buffer_ok (resetIntradayData s).
Proof. unfold buffer_ok; simpl. split_and!; [lia|done|done]. Qed.

Lemma buffer_ok_same s s' :
  intradayData s' = intradayData s → baseValue s' = baseValue s →
  buffer_ok s → buffer_ok s'.
Proof. unfold buffer_ok. by intros -> ->. Qed.

Lemma buffer_ok_step e s s' : buffer_ok s → step e s = Some s' → buffer_ok s'.
Proof.
  intros Hs.
  destruct e as [timeStr random|timeStr random newVal|newVal|newVal|code
                |timeStr random key|kline returns]; simpl.
  - destruct (is_random random) eqn:Hr; [|done]. intros [= <-].
    unfold onMounted. destruct (Qltb _ _); [|done]. by apply buffer_ok_add.
  - destruct (is_random random) eqn:Hr; [|done]. intros [= <-].
    unfold on_realtimeValue. destruct (_ && _); [|done].
    by apply buffer_ok_add.
  - by intros [= <-].
  - intros [= <-]. unfold on_lastClose. simpl.
    destruct (Qltb 0 newVal) eqn:Hpos; simpl; [|done].
    destruct (Qeq_bool (baseValue s) 0) eqn:Hb; [|done].
    destruct Hs as (Hlen & Hall & Hbase).
    unfold buffer_ok; simpl. split_and!; [done|done|].
    intros _ Heq. apply AnalyticsFacts.Qltb_lt in Hpos. lra.
  - intros [= <-]. apply buffer_ok_reset.
  - destruct (is_random random) eqn:Hr; [|done]. intros [= <-].
    unfold selectPeriod.
    match goal with
    | |- buffer_ok (State _ _ _ _ _ _ _ (intradayData ?x) _) =>
        apply (buffer_ok_same x); [done|done|]
    end.
    case_bool_decide; [|done].
    destruct (Qltb 0 _); [|apply buffer_ok_reset].
    apply buffer_ok_add; [done|apply buffer_ok_reset].
  - by intros [= <-].
Qed.

Lemma buffer_ok_exec evs s s' : buffer_ok s → exec evs s = Some s' → buffer_ok s'.
Proof.
  revert s. induction evs as [|e evs IH]; simpl; intros s Hs.
  - by intros [= <-].
  - destruct (step e s) as [s1|] eqn:Hstep; [|done].
    apply IH. by eapply buffer_ok_step.
Qed.

(** X14. The intraday buffer.  Whatever happens to the component after its
    setup (prop changes, period selections, loads), the buffer holds at
    most 500 points, every point has a positive value and a volume of at
    least 100, and the base value is not 0 while the buffer holds a point.
    Adding a positive value appends one point with that value; when the
    buffer is full the oldest point is dropped and the others keep their
    order. *)
Theorem intraday_buffer_is_a_window_of_500 code rtValue rtChange close evs s :
  exec evs (setup code rtValue rtChange close) = Some s →
  (length (intradayData s) ≤ 500)%nat
  ∧ (∀ p, p ∈ intradayData s →
       (0 < IntradayPoint.value p)%Q ∧ (100 <= IntradayPoint.volume p)%Q)
  ∧ (intradayData s ≠ [] → ¬ (baseValue s == 0)%Q)
  ∧ (∀ timeStr random value,
       (0 < value)%Q →
       ∃ volume,
         intradayData (addIntradayPoint timeStr random value s)
         = (if bool_decide (length (intradayData s) = 500)%nat
            then drop 1 (intradayData s) else intradayData s)
           ++ [ {| IntradayPoint.time := timeStr;
                   IntradayPoint.value := value;
                   IntradayPoint.volume := volume |} ]).
Proof.
  intros Hexec.
  destruct (buffer_ok_exec evs _ s (buffer_ok_reset _) Hexec)
    as (Hlen & Hall & Hbase).
  split_and!; [done| |done|].
  - intros p Hp. by apply (proj1 (Forall_forall _ _) Hall).
  - intros timeStr random value Hpos.
    destruct (addIntradayPoint_data timeStr random value s Hpos)
      as (volume & _ & Hdata).
    exists volume. rewrite Hdata. f_equal.
    case_bool_decide as Hfull; case_bool_decide as Hfull'; try lia; [|done].
    by rewrite Hfull'.
Qed.

(** ** The geometry of the curve *)

Lemma foldl_Qmin_spec x l :
  (foldl Qmin x l <= x)%Q ∧ Forall (λ y, (foldl Qmin x l <= y)%Q) l.
Proof.
  revert x. induction l as [|a l IH]; intros x; simpl.
  - split; [apply Qle_refl|constructor].
  - destruct (IH (Qmin x a)) as [Hx Hl].
    pose proof (Q.le_min_l x a). pose proof (Q.le_min_r x a).
    split; [lra|]. constructor; [lra|done].
Qed.

Lemma foldl_Qmax_spec x l :
  (x <= foldl Qmax x l)%Q ∧ Forall (λ y, (y <= foldl Qmax x l)%Q) l.
Proof.
  revert x. induction l as [|a l IH]; intros x; simpl.
  - split; [apply Qle_refl|constructor].
  - destruct (IH (Qmax x a)) as [Hx Hl].
    pose proof (Q.le_max_l x a). pose proof (Q.le_max_r x a).
    split; [lra|]. constructor; [lra|done].
Qed.

Lemma min_of_le l v : v ∈ l → (min_of l <= v)%Q.
Proof.
  destruct l as [|x l]; [by intros ?%elem_of_nil|]. simpl.
  destruct (foldl_Qmin_spec x l) as [Hx Hl].
  intros [->|Hv]%elem_of_cons; [done|].
  by apply (proj1 (Forall_forall _ _) Hl).
Qed.

Lemma max_of_ge l v : v ∈ l → (v <= max_of l)%Q.
Proof.
  destruct l as [|x l]; [by intros ?%elem_of_nil|]. simpl.
  destruct (foldl_Qmax_spec x l) as [Hx Hl].
  intros [->|Hv]%elem_of_cons; [done|].
  by apply (proj1 (Forall_forall _ _) Hl).
Qed.

Lemma or_else_cases a b :
  ((a == 0)%Q ∧ or_else a b = b) ∨ (¬ (a == 0)%Q ∧ or_else a b = a).
Proof.
  unfold or_else. destruct (Qeq_bool a 0) eqn:Ha.
  - left. split; [by apply Qeq_bool_iff|done].
  - right. split; [|done]. intros Heq. apply Qeq_bool_iff in Heq. congruence.
Qed.

(** The position of point [i] of [n] along the time axis, as a share of
    the width that the curve takes. *)
Lemma share_bounds (data : list Point) (i : nat) :
  (i < length data)%nat →
  (0 <= inject_Z (Z.of_nat i) / spans data)%Q
  ∧ (inject_Z (Z.of_nat i) / spans data <= 1)%Q
  ∧ (0 < spans data)%Q.
Proof.
  intros Hi. unfold spans.
  set (m := Z.of_nat (length data - 1) `max` 1).
  assert (1 ≤ m) as Hm by lia.
  assert (0 ≤ Z.of_nat i ≤ m) as Him by lia.
  assert (0 < inject_Z m)%Q as Hpos.
  { change 0%Q with (inject_Z 0). rewrite <- Zlt_Qlt. lia. }
  assert (0 <= inject_Z (Z.of_nat i))%Q as Hi0.
  { change 0%Q with (inject_Z 0). rewrite <- Zle_Qle. lia. }
  assert (inject_Z (Z.of_nat i) <= inject_Z m)%Q as Hi1.
  { rewrite <- Zle_Qle. lia. }
  split_and!; [|apply Qle_shift_div_r; [done|lra]|done].
  apply Qle_shift_div_l; [done|lra].
Qed.

Lemma elem_of_imap {A B} (f : nat → A → B) (l : list A) (y : B) :
  y ∈ imap f l → ∃ i x, l !! i = Some x ∧ y = f i x.
Proof.
  intros (i & Hi)%list_elem_of_lookup_1. rewrite list_lookup_imap in Hi.
  destruct (l !! i) as [x|] eqn:Hx; [|done]. injection Hi as <-.
  by exists i, x.
Qed.

Section geometry.
Context (tz : Z).

(** X15. The curve of the K-line chart stays inside the plot.  For a
    series that is not empty, the price range computed by [drawChart]
    encloses every value of the series with a margin on both sides, and its
    width is positive; on a canvas wide enough for the paddings and high
    enough for the main area to reach below the top padding, every vertex
    of the curve lies between the left and the right padding, and strictly
    between the top of the plot and the bottom of the main area. *)
Theorem kline_curve_stays_inside_the_plot width height s data :
  showIntradayChart s = false → data ≠ [] →
  (padding_left + padding_right <= width)%Q →
  (padding_top < mainHeight s height)%Q →
  let minValue := (price_range s data).1.1 in
  let maxValue := (price_range s data).1.2 in
  let valueRange := (price_range s data).2 in
  (0 < valueRange)%Q ∧ (valueRange == maxValue - minValue)%Q
  ∧ (∀ p, p ∈ data → (minValue < value p)%Q ∧ (value p < maxValue)%Q)
  ∧ (∀ x y, (x, y) ∈ kline_polyline width height s data →
       (padding_left <= x)%Q ∧ (x <= width - padding_right)%Q
       ∧ (padding_top < y)%Q ∧ (y < mainHeight s height)%Q).
Proof.
  intros Hmode Hne Hwidth Hheight minValue maxValue valueRange.
  set (lo := min_of (value <$> data)). set (hi := max_of (value <$> data)).
  assert (∀ p, p ∈ data → (lo <= value p)%Q ∧ (value p <= hi)%Q) as Hbounds.
  { intros p Hp. split.
    - apply min_of_le. by apply list_elem_of_fmap_2.
    - apply max_of_ge. by apply list_elem_of_fmap_2. }
  assert (lo <= hi)%Q as Hlohi.
  { destruct data as [|p data']; [done|].
    destruct (Hbounds p) as [? ?]; [by left|]. lra. }
  set (margin := or_else ((hi - lo) * (1 # 10)) (1 # 100)).
  assert (0 < margin)%Q as Hmargin.
  { unfold margin.
    destruct (or_else_cases ((hi - lo) * (1 # 10)) (1 # 100))
      as [[_ ->]|[Hnz ->]]; [done|].
    apply Qnot_le_lt. intros Hle. apply Hnz. lra. }
  assert (price_range s data
          = (lo - margin, hi + margin,
             or_else (hi + margin - (lo - margin)) 1)%Q) as Hrange.
  { unfold price_range. fold lo hi. by rewrite Hmode. }
  assert (valueRange = (hi + margin - (lo - margin))%Q) as HvalueRange.
  { unfold valueRange. rewrite Hrange. simpl.
    destruct (or_else_cases (hi + margin - (lo - margin)) 1)
      as [[Hz _]|[_ ->]]; [lra|done]. }
  assert (minValue = (lo - margin)%Q) as HminValue
    by (unfold minValue; by rewrite Hrange).
  assert (maxValue = (hi + margin)%Q) as HmaxValue
    by (unfold maxValue; by rewrite Hrange).
  rewrite HvalueRange, HminValue, HmaxValue. split_and!.
  - lra.
  - lra.
  - intros p Hp. destruct (Hbounds p Hp). split; lra.
  - intros x y Hxy. unfold kline_polyline in Hxy. rewrite Hrange in Hxy.
    apply elem_of_imap in Hxy as (i & p & Hp & [= -> ->]).
    destruct (share_bounds data i) as (Hs0 & Hs1 & Hspans);
      [by eapply lookup_lt_Some|].
    destruct (Hbounds p) as [Hplo Hphi]; [by eapply list_elem_of_lookup_2|].
    unfold chartWidth.
    set (cw := (width - padding_left - padding_right)%Q).
    assert (0 <= cw)%Q as Hcw by (unfold cw; lra).
    set (t := (inject_Z (Z.of_nat i) / spans data)%Q) in *.
    assert (cw / spans data * inject_Z (Z.of_nat i) == cw * t)%Q as Hx.
    { unfold t. field. lra. }
    set (range := (hi + margin - (lo - margin))%Q).
    assert (0 < range)%Q as Hrange_pos by (unfold range; lra).
    assert (or_else range 1 = range) as ->.
    { destruct (or_else_cases range 1) as [[Hz _]|[_ ->]]; [lra|done]. }
    set (u := ((value p - (lo - margin)) / range)%Q).
    assert (0 < u)%Q as Hu0.
    { unfold u. apply Qlt_shift_div_l; [done|]. lra. }
    assert (u < 1)%Q as Hu1.
    { unfold u. apply Qlt_shift_div_r; [done|]. unfold range. lra. }
    set (h := (mainHeight s height - padding_top)%Q).
    assert (0 < h)%Q as Hh by (unfold h; lra).
    split_and!.
    + rewrite Hx. nra.
    + rewrite Hx. unfold cw in *. nra.
    + nra.
    + unfold h in *. nra.
Qed.

Lemma timeProgress_bounds now data :
  (0 < timeProgress tz now data)%Q ∧ (timeProgress tz now data <= 1)%Q.
Proof.
  unfold timeProgress.
  set (m := local_minutes tz now).
  set (elapsed := 0 `max` ((m - (9 * 60 + 30)) `min` (15 * 60 - (9 * 60 + 30)))).
  assert (0 ≤ elapsed ≤ 330) as Helapsed by lia.
  change (15 * 60 - (9 * 60 + 30)) with 330.
  set (tp := (inject_Z elapsed / inject_Z 330)%Q).
  assert ((0 <= tp)%Q ∧ (tp <= 1)%Q) as [Htp0 Htp1].
  { assert (0 <= inject_Z elapsed)%Q
      by (change 0%Q with (inject_Z 0); rewrite <- Zle_Qle; lia).
    assert (inject_Z elapsed <= inject_Z 330)%Q by (rewrite <- Zle_Qle; lia).
    assert (0 < inject_Z 330)%Q by done.
    split; [apply Qle_shift_div_l|apply Qle_shift_div_r]; lra. }
  destruct (Qeq_bool tp 0) eqn:Hzero; simpl.
  - set (q := Qmin _ _). pose proof (Q.le_min_r
      (inject_Z (Z.of_nat (length data)) / 50) (15 # 100)) as Hq. fold q in Hq.
    destruct (Qltb q (5 # 100)) eqn:Hlt; [split; lra|].
    assert (¬ (q < 5 # 100)%Q) as Hnlt.
    { intros H. apply AnalyticsFacts.Qltb_lt in H. congruence. }
    apply Qnot_lt_le in Hnlt. split; lra.
  - assert (¬ (tp == 0)%Q) as Hnz.
    { intros H. apply Qeq_bool_iff in H. congruence. }
    destruct (_ || _).
    + set (q := Qmin _ _). pose proof (Q.le_min_r
        (inject_Z (Z.of_nat (length data)) / 50) (15 # 100)) as Hq.
      fold q in Hq.
      destruct (Qltb q (5 # 100)) eqn:Hlt; [split; lra|].
      assert (¬ (q < 5 # 100)%Q) as Hnlt.
      { intros H. apply AnalyticsFacts.Qltb_lt in H. congruence. }
      apply Qnot_lt_le in Hnlt. split; lra.
    + split; [|done]. apply Qnot_le_lt. intros Hle. apply Hnz. lra.
Qed.

Lemma intraday_base_nonzero s data : ¬ (intraday_base s data == 0)%Q.
Proof. unfold intraday_base. apply or_else_nonzero, or_else_nonzero. lra. Qed.

Lemma changeRange_bounds s data p :
  p ∈ data →
  let base := intraday_base s data in
  let c := ((value p - base) / base * 100)%Q in
  ((12 # 100) <= changeRange s data)%Q
  ∧ (Qabs c <= (5 # 6) * changeRange s data)%Q.
Proof.
  intros Hp base c. unfold changeRange. fold base.
  set (changes := (λ p, (value p - base) / base * 100)%Q <$> data).
  set (maxChange := max_of (changes ++ [(1 # 10)%Q])).
  set (minChange := min_of (changes ++ [(- (1 # 10))%Q])).
  assert (c ∈ changes) as Hc
    by (apply (list_elem_of_fmap_2 (λ p, (value p - base) / base * 100)%Q), Hp).
  assert (c <= maxChange)%Q
    by (apply max_of_ge, elem_of_app; by left).
  assert ((1 # 10) <= maxChange)%Q
    by (apply max_of_ge, elem_of_app; right; by left).
  assert (minChange <= c)%Q
    by (apply min_of_le, elem_of_app; by left).
  assert (minChange <= - (1 # 10))%Q
    by (apply min_of_le, elem_of_app; right; by left).
  pose proof (Q.le_max_l (Qabs maxChange) (Qabs minChange)) as Hmax.
  pose proof (Q.le_max_r (Qabs maxChange) (Qabs minChange)) as Hmin.
  pose proof (Qle_Qabs maxChange). pose proof (Qle_Qabs (- minChange)).
  rewrite Qabs_opp in *.
  set (a := Qmax (Qabs maxChange) (Qabs minChange)) in *.
  split; [lra|]. apply Qabs_Qle_condition. split; lra.
Qed.

(** X16. The curve of the intraday chart stays inside the plot.  The share
    of the width that the curve takes is positive and at most 1; the range
    of changes is at least 0.12, and the change of every point is at most
    five sixths of it.  So, on a canvas wide enough for the paddings and
    with a main area that reaches below the top padding, every vertex of
    the curve lies between the left padding and the position of the
    current time, which is not beyond the right padding, and within five
    sixths of the half height around the base line, hence between the top
    of the plot and the bottom of the main area. *)
Theorem intraday_curve_stays_inside_the_plot now width height s data :
  data ≠ [] →
  (padding_left + padding_right <= width)%Q →
  (padding_top <= mainHeight s height)%Q →
  let half := ((mainHeight s height - padding_top) / 2)%Q in
  let baseY := (padding_top + half)%Q in
  let lastX := (padding_left + chartWidth width * timeProgress tz now data)%Q in
  (0 < timeProgress tz now data)%Q ∧ (timeProgress tz now data <= 1)%Q
  ∧ ((12 # 100) <= changeRange s data)%Q
  ∧ (lastX <= width - padding_right)%Q
  ∧ (∀ x y, (x, y) ∈ intraday_polyline tz now width height s data →
       (padding_left <= x)%Q ∧ (x <= lastX)%Q
       ∧ (baseY - (5 # 6) * half <= y)%Q ∧ (y <= baseY + (5 # 6) * half)%Q
       ∧ (padding_top <= y)%Q ∧ (y <= mainHeight s height)%Q).
Proof.
  intros Hne Hwidth Hheight half baseY lastX.
  destruct (timeProgress_bounds now data) as [Htp0 Htp1].
  assert (0 <= chartWidth width)%Q as Hcw by (unfold chartWidth; lra).
  assert (0 <= half)%Q as Hhalf
    by (unfold half; apply Qle_shift_div_l; lra).
  assert ((12 # 100) <= changeRange s data)%Q as Hrange.
  { destruct data as [|p data']; [done|].
    by destruct (changeRange_bounds s (p :: data') p); [by left|]. }
  split_and!; [done|done|done| |].
  - unfold lastX, chartWidth in *. nra.
  - intros x y Hxy. unfold intraday_polyline in Hxy.
    apply elem_of_imap in Hxy as (i & p & Hp & [= -> ->]).
    destruct (share_bounds data i) as (Hs0 & Hs1 & _);
      [by eapply lookup_lt_Some|].
    destruct (changeRange_bounds s data p) as [_ Hc];
      [by eapply list_elem_of_lookup_2|].
    fold half. fold lastX.
    set (t := (inject_Z (Z.of_nat i) / spans data)%Q) in *.
    set (c := ((value p - intraday_base s data) / intraday_base s data * 100)%Q)
      in *.
    set (r := changeRange s data) in *.
    assert (0 <= lastX - padding_left)%Q as Hspan.
    { unfold lastX. nra. }
    set (u := (c / r)%Q).
    assert (0 < r)%Q as Hr by lra.
    apply Qabs_Qle_condition in Hc as [Hc0 Hc1].
    assert (- (5 # 6) <= u)%Q as Hu0.
    { unfold u. apply Qle_shift_div_l; [done|]. lra. }
    assert (u <= 5 # 6)%Q as Hu1.
    { unfold u. apply Qle_shift_div_r; [done|]. lra. }
    assert (mainHeight s height == padding_top + 2 * half)%Q as Hmain.
    { unfold half. field. }
    unfold baseY. split_and!; try nra.
Qed.

End geometry.

(** ** The series on display *)

Section series.
Context (tz : Z) (Date_parse : string → option Z).

(** X17. The realtime value in the K-line series.  When the chart does not
    show the intraday curve, the series is the window of the K-line data
    over the last 5, 30, 90, 180 or 365 days.  With a positive realtime
    value and a window that is not empty, the series ends with one point
    for today that carries the realtime value and change: it replaces the
    last point of the window when that one is dated today, and follows the
    window otherwise; the other points are those of the window.  Without a
    positive realtime value, or with an empty window, the series is the
    window itself; in particular a positive realtime value is not shown
    when the window is empty. *)
Theorem realtime_value_ends_the_kline_series now s :
  showIntradayChart s = false →
  ∃ days,
    days ∈ [5; 30; 90; 180; 365]
    ∧ let w := window Date_parse (now - days * msPerDay) s in
      let data := filteredData tz Date_parse now s in
      let today := local_date_string tz now in
      ((realtimeValue s <= 0)%Q ∨ w = [] → data = w)
      ∧ ((0 < realtimeValue s)%Q → w ≠ [] →
           ∃ earlier p,
             data = earlier ++ [p]
             ∧ time p = today ∧ value p = realtimeValue s
             ∧ change p = realtimeChange s
             ∧ ((earlier = w
                 ∧ ∀ old, last w = Some old → time old ≠ today)
                ∨ (∃ old, w = earlier ++ [old] ∧ time old = today
                          ∧ volume p = volume old))).
Proof.
  intros Hmode.
  set (days := match find (λ p : string * string * Z,
                             bool_decide (p.1.1 = activePeriod s)) periods with
               | Some p => if bool_decide (p.2 = 0) then 5 else p.2
               | None => 5
               end).
  assert (days ∈ [5; 30; 90; 180; 365]) as Hdays.
  { unfold days, periods. simpl.
    repeat (case_bool_decide; simpl;
            [repeat (first [apply list_elem_of_here|apply list_elem_of_further])|]).
    apply list_elem_of_here. }
  exists days. split; [done|]. intros w data today.
  assert (data
          = if Qltb 0 (realtimeValue s) && bool_decide (0 < length w)%nat then
              match last w with
              | Some lastItem =>
                  if bool_decide (time lastItem = today) then
                    take (length w - 1) w
                    ++ [ {| time := time lastItem; value := realtimeValue s;
                            change := realtimeChange s;
                            volume := volume lastItem |} ]
                  else
                    w ++ [ {| time := today; value := realtimeValue s;
                              change := realtimeChange s;
                              volume := (50 + Qabs (realtimeChange s) * 30)%Q |} ]
              | None => w
              end
            else w) as Hdata.
  { unfold data, filteredData. by rewrite Hmode. }
  rewrite Hdata. clear Hdata. clearbody w today. split.
  - intros [Hle| ->]; [|by rewrite andb_false_r].
    assert (Qltb 0 (realtimeValue s) = false) as ->; [|done].
    destruct (Qltb 0 (realtimeValue s)) eqn:Hlt; [|done].
    apply AnalyticsFacts.Qltb_lt in Hlt. lra.
  - intros Hpos Hne.
    assert (Qltb 0 (realtimeValue s) = true) as ->
      by (by apply AnalyticsFacts.Qltb_lt).
    destruct (last w) as [old|] eqn:Hlast; [|by apply last_None in Hlast].
    assert (bool_decide (0 < length w)%nat = true) as ->.
    { apply bool_decide_eq_true_2. destruct w; [done|simpl; lia]. }
    simpl. apply last_Some in Hlast as [earlier Hw].
    destruct (bool_decide (time old = today)) eqn:Htoday;
      [apply bool_decide_eq_true in Htoday
      |apply bool_decide_eq_false in Htoday].
    + exists earlier, {| time := time old; value := realtimeValue s;
                         change := realtimeChange s; volume := volume old |}.
      split_and!; try done.
      * f_equal. rewrite Hw, length_app. simpl.
        replace (length earlier + 1 - 1)%nat with (length earlier) by lia.
        by rewrite take_app_length.
      * right. by exists old.
    + exists w, {| time := today; value := realtimeValue s;
                   change := realtimeChange s;
                   volume := (50 + Qabs (realtimeChange s) * 30)%Q |}.
      split_and!; try done. left. split; [done|].
      by intros old' [= <-].
Qed.

End series.

(** ** Loading *)

Section loading.
Context (covers : string → string → bool).
Context (covers_self : ∀ key, covers key key = true).
Context (CACHE_TTL : CacheTtl) (tz : Z) (Date_parse : string → option Z).

Lemma cleared_keys code (c : Cache) :
  clearFundCache covers code c !! key3 "kline" code 400 = None
  ∧ clearFundCache covers code c !! key3 "netvalue" code 400 = None
  ∧ clearFundCache covers code c !! key2 "period" code = None.
Proof.
  split_and!; apply CacheFacts.clearFundCache_built_key; try done;
    apply CacheFacts.elem_of_fund_keys.
  - exists "kline". split; [set_solver|]. right. exists 400%nat.
    split; [set_solver|done].
  - exists "netvalue". split; [set_solver|]. right. exists 400%nat.
    split; [set_solver|done].
  - exists "period". split; [set_solver|]. by left.
Qed.

(** X18. [loadData] never shows what the cache held.  For a fund code that
    is not empty, the K-line series and the period returns that [loadData]
    stores in the component do not depend on the cache it starts from: the
    entries of the fund are cleared first, so both answers are computed
    from the two downloads.  Of [cache.delete] this uses only that a key
    covers itself, whatever else it covers.  The series is the history of
    the first download, oldest first; when that download is unusable the
    series is empty, whatever the component or the cache held before.  The
    intraday buffer, the base value and the period are left as they are. *)
Theorem loadData_shows_what_was_downloaded now t1 t2 (c c' : Cache) res1 res2 s :
  fundCode s ≠ "" →
  let s' := loadData covers CACHE_TTL tz Date_parse now t1 t2 c res1 res2 s in
  s' = loadData covers CACHE_TTL tz Date_parse now t1 t2 c' res1 res2 s
  ∧ chartData s'
    = reverse (to_kline
                 <$> (fetchNetValueHistoryFast CACHE_TTL tz now t1 (fundCode s)
                        400 ∅ res1).1)
  ∧ (HistoryFacts.no_records 400 res1 → chartData s' = [])
  ∧ intradayData s' = intradayData s ∧ baseValue s' = baseValue s
  ∧ activePeriod s' = activePeriod s.
Proof.
  intros Hcode s'.
  assert (∀ c0 : Cache,
            loadData covers CACHE_TTL tz Date_parse now t1 t2 c0 res1 res2 s
            = on_loaded
                (fetchSimpleKLineData CACHE_TTL tz now t1 (fundCode s) 400 ∅
                                      res1).1
                (calculatePeriodReturns CACHE_TTL tz Date_parse now t2
                                        (fundCode s) ∅ res2).1 s) as Hload.
  { intros c0. unfold loadData. rewrite bool_decide_eq_false_2 by done.
    destruct (cleared_keys (fundCode s) c0) as (Hk & Hn & Hp).
    f_equal.
    - apply HistoryFacts.fetchSimpleKLineData_answer_ext.
      + by rewrite Hk, lookup_empty.
      + by rewrite Hn, lookup_empty.
    - apply HistoryFacts.calculatePeriodReturns_answer_ext.
      + by rewrite Hp, lookup_empty.
      + by rewrite Hn, lookup_empty. }
  unfold s'. rewrite !Hload. simpl.
  destruct (HistoryFacts.fetchSimpleKLineData_miss CACHE_TTL tz now t1
              (fundCode s) 400 ∅ res1) as (h & c1 & Hfetch & Hkline).
  { unfold cache_get_as, cache.get. by rewrite lookup_empty. }
  assert ((cache.get now (key3 "kline" (fundCode s) 400) (∅ : Cache)).2 = ∅)
    as Hempty by (unfold cache.get; by rewrite lookup_empty).
  rewrite Hempty in Hfetch. rewrite Hkline, Hfetch. simpl.
  split_and!; try done.
  intros Hno.
  apply (HistoryFacts.fetchNetValueHistoryFast_empty CACHE_TTL tz now t1
           (fundCode s) 400 ∅ res1) in Hno.
  - rewrite Hfetch in Hno. simpl in Hno. by rewrite Hno.
  - unfold cache_get_as, cache.get. by rewrite lookup_empty.
Qed.

End loading.

(** ** Labels of the time axis *)

(** X19. The labels that the K-line chart puts on its time axis.  For a
    series that is not empty there are min(5, n) labels; each names a point
    of the series; the first names the first point and, when there are at
    least two points, the last names the last point; and the labelled
    points are pairwise different, in increasing order. *)
Theorem time_axis_labels_are_spread_over_the_series (data : list Point) :
  data ≠ [] →
  let idx := label_indices data in
  length idx = (5 `min` length data)%nat
  ∧ (∀ i, i ∈ idx → is_Some (data !! i))
  ∧ head idx = Some 0%nat
  ∧ ((2 ≤ length data)%nat → last idx = Some (length data - 1)%nat)
  ∧ (∀ i j a b, idx !! i = Some a → idx !! j = Some b →
       (i < j)%nat → (a < b)%nat).
Proof.
  intros Hne idx. unfold idx, label_indices.
  set (n := length data). set (k := (5 `min` n)%nat).
  assert (1 ≤ n)%nat as Hn by (unfold n; destruct data; [done|simpl; lia]).
  assert (1 ≤ k ≤ n)%nat as Hk by lia.
  set (d := ((k - 1) `max` 1)%nat).
  assert (1 ≤ d)%nat as Hd by lia.
  assert (∀ i, (i < k)%nat → (((n - 1) * i) `div` d ≤ n - 1)%nat) as Hbound.
  { intros i Hi. apply Nat.Div0.div_le_upper_bound.
    assert (i ≤ d)%nat by lia. rewrite (Nat.mul_comm d).
    by apply Nat.mul_le_mono_l. }
  split_and!.
  - by rewrite length_fmap, length_seq.
  - intros i (j & -> & Hj)%list_elem_of_fmap.
    apply elem_of_seq in Hj. apply lookup_lt_is_Some.
    specialize (Hbound j). fold n. lia.
  - destruct k as [|k'] eqn:Hk'; [lia|]. simpl.
    by rewrite Nat.mul_0_r, Nat.Div0.div_0_l.
  - intros Htwo. rewrite fmap_last.
    destruct k as [|k'] eqn:Hk'; [lia|].
    rewrite seq_S, last_snoc. simpl. f_equal.
    assert (d = k') as -> by lia.
    apply Nat.div_mul. lia.
  - intros i j a b Hi Hj Hlt.
    rewrite list_lookup_fmap in Hi, Hj.
    destruct (seq 0 k !! i) as [i'|] eqn:Hi'; [|done].
    destruct (seq 0 k !! j) as [j'|] eqn:Hj'; [|done].
    apply lookup_seq in Hi' as [-> ?]. apply lookup_seq in Hj' as [-> ?].
    simpl in Hi, Hj. injection Hi as <-. injection Hj as <-.
    assert (2 ≤ k)%nat by lia. assert (d = (k - 1)%nat) as Hdk by lia.
    assert (d ≤ n - 1)%nat by lia.
    apply Nat.lt_le_trans with (((n - 1) * i) `div` d + 1)%nat; [lia|].
    replace (((n - 1) * i) `div` d + 1)%nat
      with (((n - 1) * i + 1 * d) `div` d)%nat
      by (rewrite Nat.div_add by lia; lia).
    apply Nat.Div0.div_le_mono. nia.
Qed.

(** ** Concrete runs *)

(** A component for fund 000001 with last close 1.00, in China Standard
    Time on 11 March 2024 at noon. *)
Definition chart_ttl : CacheTtl :=
  {| ESTIMATE := 60000; NET_VALUE := 300000; MARKET_INDEX := 30000;
     FUND_INFO := 3600000 |}.
Definition zone : Z := 28800000.
Definition midday : Z := 1710086400000 + 12 * 3600000.
Definition fresh : state := setup "000001" 0 0 1.

Definition one_morning : list event :=
  [SelectPeriod "09:31:00" (1 # 2) "1d";
   RealtimeValue "09:32:00" (1 # 4) (101 # 100);
   RealtimeValue "09:33:00" (3 # 4) (99 # 100)].

Definition three_points : list Point :=
  [ {| time := "2024-03-07"; value := 1; change := 0; volume := 50 |};
    {| time := "2024-03-08"; value := (11 # 10)%Q; change := 10;
       volume := 360 |};
    {| time := "2024-03-11"; value := (105 # 100)%Q; change := - (45 # 10);
       volume := 205 |} ].

(** The K-line data of two days, the later one being today, and a realtime
    value of 1.20. *)
Definition with_realtime : state :=
  on_loaded
    [ {| SimpleKLineData.time := "2024-03-08"; SimpleKLineData.value := 1;
         SimpleKLineData.change := 0 |};
      {| SimpleKLineData.time := "2024-03-11";
         SimpleKLineData.value := (11 # 10)%Q;
         SimpleKLineData.change := 10 |} ]
    [] (setup "000001" (12 # 10) 20 1).

Definition stale_cache : Cache :=
  cache.set 0 (key3 "kline" "000001" 400)
    (CKLine [ {| SimpleKLineData.time := "2024-03-08";
                 SimpleKLineData.value := 1; SimpleKLineData.change := 0 |} ])
    (NET_VALUE chart_ttl) ∅.

Lemma intraday_buffer_witness :
  let s := default fresh (exec one_morning fresh) in
  (length (intradayData s) ≤ 500)%nat
  ∧ (IntradayPoint.value <$> intradayData s
     = [1%Q; (101 # 100)%Q; (99 # 100)%Q]).
Proof.
  intros s.
  assert (exec one_morning (setup "000001" 0 0 1) = Some s) as Hexec
    by (vm_compute; reflexivity).
  destruct (intraday_buffer_is_a_window_of_500 "000001" 0 0 1 one_morning s
              Hexec) as (Hlen & _).
  split; [exact Hlen|]. vm_compute. reflexivity.
Defined.

Lemma time_axis_labels_witness :
  label_indices three_points = [0; 1; 2]%nat
  ∧ last (label_indices three_points) = Some 2%nat.
Proof.
  split; [vm_compute; reflexivity|].
  destruct (time_axis_labels_are_spread_over_the_series three_points)
    as (_ & _ & _ & Hlast & _); [discriminate|].
  apply Hlast. simpl. lia.
Defined.

Lemma kline_curve_witness :
  (0 < (price_range fresh three_points).2)%Q.
Proof.
  destruct (kline_curve_stays_inside_the_plot 375 300 fresh three_points)
    as (Hrange & _);
    [vm_compute; reflexivity|discriminate|vm_compute; discriminate
    |vm_compute; reflexivity|].
  exact Hrange.
Defined.

Lemma intraday_curve_witness :
  let s := default fresh (exec one_morning fresh) in
  ((12 # 100) <= changeRange s (filteredData zone iso_date_parse midday s))%Q.
Proof.
  intros s.
  destruct (intraday_curve_stays_inside_the_plot zone midday 375 300 s
              (filteredData zone iso_date_parse midday s))
    as (_ & _ & Hrange & _);
    [vm_compute; discriminate|vm_compute; discriminate
    |vm_compute; discriminate|].
  exact Hrange.
Defined.

Lemma realtime_value_witness :
  showIntradayChart with_realtime = false
  ∧ (value <$> filteredData zone iso_date_parse midday with_realtime
     = [1%Q; (12 # 10)%Q])
  ∧ ∃ days, days ∈ [5; 30; 90; 180; 365].
Proof.
  assert (showIntradayChart with_realtime = false) as Hmode
    by (vm_compute; reflexivity).
  split; [exact Hmode|]. split; [vm_compute; reflexivity|].
  destruct (realtime_value_ends_the_kline_series zone iso_date_parse midday
              with_realtime Hmode) as (days & Hdays & _).
  by exists days.
Defined.

Lemma loadData_witness :
  chartData (loadData CacheFacts.literal_keys chart_ttl zone iso_date_parse
               midday (midday + 15000) (midday + 15000) stale_cache TimedOut
               TimedOut with_realtime)
  = [].
Proof.
  destruct (loadData_shows_what_was_downloaded CacheFacts.literal_keys
              String.eqb_refl chart_ttl zone iso_date_parse
              midday (midday + 15000) (midday + 15000) stale_cache ∅
              TimedOut TimedOut with_realtime) as (_ & _ & Hempty & _);
    [discriminate|].
  by apply Hempty.
Defined.

End ChartFacts.


(** * The fund filter: paging *)

Module FilterViewFacts.
Import FilterView.

Section facts.
Context (parseFloat : string → option Q).

(** What holds of the pager whatever the user does and whatever the
    responses are. *)
Definition paging_ok (s : state) : Prop :=
  requested s = seq 1 (length (requested s))
  ∧ page s = (length (requested s) + (if isLoading s then 0 else 1))%nat
  ∧ (isLoading s = true ↔ is_Some (inflight s)).

Lemma paging_ok_init : paging_ok init.
Proof.
  unfold paging_ok; simpl. split_and!; [done|done|].
  split; [done|]. by intros [? ?].
Qed.

Lemma paging_ok_start reset s : paging_ok s → paging_ok (loadFunds_start reset s).1.
Proof.
  intros (Hlog & Hpage & Hflight). unfold loadFunds_start.
  destruct (isLoading s) eqn:Hloading.
  { unfold paging_ok; simpl. by rewrite Hloading. }
  destruct (negb reset && negb (hasMore s)).
  { unfold paging_ok; simpl. by rewrite Hloading. }
  destruct reset; unfold paging_ok; simpl.
  - split_and!; [done|done|]. split; [by eexists|done].
  - rewrite length_app. simpl. split_and!.
    + rewrite Nat.add_1_r, seq_S, <- Hlog. simpl. f_equal. f_equal. lia.
    + lia.
    + split; [by eexists|done].
Qed.

Lemma paging_ok_finish reset response s :
  paging_ok s → inflight s = Some reset →
  paging_ok (loadFunds_finish parseFloat reset response s).
Proof.
  intros (Hlog & Hpage & Hflight) Hin.
  assert (isLoading s = true) as Hloading by (apply Hflight; by eexists).
  rewrite Hloading in Hpage.
  unfold paging_ok, loadFunds_finish; simpl. split_and!; [done|lia|].
  split; [done|]. by intros [? ?].
Qed.

Lemma paging_ok_step e s s' :
  paging_ok s → step parseFloat e s = Some s' → paging_ok s'.
Proof.
  intros Hs. destruct e as [v|v|v|reset|response]; simpl.
  1-3: by intros [= <-].
  - intros [= <-]. by apply paging_ok_start.
  - destruct (inflight s) as [reset|] eqn:Hin; [|done].
    intros [= <-]. by apply paging_ok_finish.
Qed.

Lemma paging_ok_exec evs s s' :
  paging_ok s → exec parseFloat evs s = Some s' → paging_ok s'.
Proof.
  revert s. induction evs as [|e evs IH]; simpl; intros s Hs.
  - by intros [= <-].
  - destruct (step parseFloat e s) as [s1|] eqn:Hstep; [|done].
    apply IH. by eapply paging_ok_step.
Qed.

(** X20. The pager of the fund filter.  Whatever the user does and whatever
    the responses are: the pages requested since the list was last reset
    are 1, 2, 3, ... without a gap or a repeat, and [page] is the next page
    to ask for; while a request waits for its response, every call of
    [loadFunds], a reset included, does nothing; a request asks for page 1
    after a reset and for [page] otherwise, 30 funds at a time; and a
    response of fewer than 30 funds, the empty response of a failure or a
    timeout included, ends the paging: until a reset, [loadFunds] sends
    nothing more. *)
Theorem pages_are_requested_in_order evs s :
  exec parseFloat evs init = Some s →
  requested s = seq 1 (length (requested s))
  ∧ page s = (length (requested s) + (if isLoading s then 0 else 1))%nat
  ∧ (isLoading s = true ↔ is_Some (inflight s))
  ∧ (isLoading s = true → ∀ reset, loadFunds_start reset s = (s, None))
  ∧ (∀ reset s' req,
       loadFunds_start reset s = (s', Some req) →
       pi req = (if reset then 1%nat else page s) ∧ pn req = 30%nat
       ∧ isLoading s' = true)
  ∧ (∀ reset response,
       inflight s = Some reset → (length response < 30)%nat →
       let s' := loadFunds_finish parseFloat reset response s in
       hasMore s' = false ∧ isLoading s' = false
       ∧ loadFunds_start false s' = (s', None)).
Proof.
  intros Hexec.
  destruct (paging_ok_exec evs _ s paging_ok_init Hexec)
    as (Hlog & Hpage & Hflight).
  split_and!; [done|done|done| | |].
  - intros Hloading reset. unfold loadFunds_start. by rewrite Hloading.
  - intros reset s' req. unfold loadFunds_start.
    destruct (isLoading s); [done|].
    destruct (negb reset && negb (hasMore s)); [done|].
    destruct reset; intros [= <- <-]; by simpl.
  - intros reset response Hin Hshort s'.
    assert (hasMore s' = false) as Hmore.
    { unfold s', loadFunds_finish; simpl.
      rewrite bool_decide_eq_true_2; [done|]. unfold pageSize. lia. }
    split_and!; [done|done|].
    unfold loadFunds_start. rewrite Hmore. by simpl.
Qed.

End facts.

(** Two pages of the default list; the second response is that of a
    timeout. *)
Definition no_float (s : string) : option Q := None.
Definition fund_000001 : FilteredFund.t :=
  {| FilteredFund.code := "000001"; FilteredFund.name := "华夏成长";
     FilteredFund.type := "混合型"; FilteredFund.dayReturn := 1;
     FilteredFund.weekReturn := 2; FilteredFund.monthReturn := 3;
     FilteredFund.yearReturn := 4; FilteredFund.netValue := 1 |}.
Definition two_pages : list event :=
  [Load true; Responds (replicate 30 fund_000001); Load false; Responds []].

Lemma pages_witness :
  let s := default init (exec no_float two_pages init) in
  requested s = [1; 2]%nat ∧ hasMore s = false ∧ page s = 3%nat
  ∧ requested s = seq 1 (length (requested s)).
Proof.
  intros s. split; [reflexivity|]. split; [reflexivity|].
  split; [reflexivity|].
  assert (exec no_float two_pages init = Some s) as Hexec by reflexivity.
  destruct (pages_are_requested_in_order no_float two_pages s Hexec)
    as (Hlog & _).
  exact Hlog.
Defined.

End FilterViewFacts.


(** * The theme store *)

Module ThemeFacts.
Import Theme.

Lemma mode_of_string_mode_string m : mode_of_string (mode_string m) = Some m.
Proof. by destruct m. Qed.

Lemma resolve_displayed m media : resolve m media ≠ auto.
Proof. by destruct m, media as [[]|]. Qed.

(** X21. The saved mode survives a reload.  Where [localStorage] works,
    [setTheme] saves the name of the mode, [loadTheme] reads the same mode
    back, and a store created afterwards, whatever the system preference
    then is, starts in that mode and displays what the mode resolves to.
    A saved string that is not the name of a mode is read as [light]. *)
Theorem saved_mode_survives_reload (m : ThemeMode) (s : state) :
  storage_works s = true →
  let s' := setTheme m s in
  stored s' = Some (mode_string m)
  ∧ loadTheme (storage_works s') (stored s') = m
  ∧ (∀ media attr meta,
       let reloaded := create (storage_works s') (stored s') media attr meta in
       mode reloaded = m ∧ actualTheme reloaded = resolve m media)
  ∧ (∀ saved, saved ∉ ["light"; "dark"; "auto"] →
       loadTheme true (Some saved) = light).
Proof.
  intros Hworks s'.
  assert (stored s' = Some (mode_string m) ∧ storage_works s' = true)
    as [Hstored Hworks'].
  { unfold s', setTheme. simpl. by rewrite Hworks. }
  assert (loadTheme (storage_works s') (stored s') = m) as Hload.
  { rewrite Hstored, Hworks'. unfold loadTheme.
    by rewrite mode_of_string_mode_string. }
  split_and!; [done|done| |].
  - intros media attr meta. unfold create. simpl. by rewrite Hload.
  - intros saved Hsaved. unfold loadTheme, mode_of_string.
    repeat (case_bool_decide; [subst saved; set_solver|]). done.
Qed.

(** What holds of the store once [initTheme] has run: the displayed theme
    is what the mode resolves to under the current system preference, it
    is a theme and not [auto], the attribute of the root element shows it
    whenever the mode is not [auto], and the listener is installed where
    the browser can report the preference. *)
Definition coherent (s : state) : Prop :=
  storage_works s = true
  ∧ actualTheme s = resolve (mode s) (media s)
  ∧ (mode s ≠ auto → data_theme s = Some (actualTheme s))
  ∧ (is_Some (media s) → listening s = true).

Lemma coherent_setTheme m s : coherent s → coherent (setTheme m s).
Proof.
  intros (Hworks & Hactual & Hattr & Hlisten).
  unfold coherent, setTheme. simpl. rewrite Hworks. simpl.
  by split_and!.
Qed.

Lemma coherent_step e s s' : coherent s → step e s = Some s' → coherent s'.
Proof.
  intros Hs. destruct e as [m| | |matches]; simpl.
  - intros [= <-]. by apply coherent_setTheme.
  - intros [= <-]. unfold toggleTheme.
    destruct (mode s); by apply coherent_setTheme.
  - intros [= <-]. destruct Hs as (Hworks & Hactual & Hattr & Hlisten).
    unfold coherent, initTheme, applyTheme. simpl. split_and!; try done.
    + intros Hm. rewrite Hactual. by destruct (mode s).
    + intros Hmedia. rewrite (bool_decide_eq_true_2 _ Hmedia).
      by rewrite orb_true_r.
  - case_bool_decide as Hmedia; [|done]. intros [= <-].
    destruct Hs as (Hworks & Hactual & Hattr & Hlisten).
    unfold coherent, system_changes. simpl. rewrite (Hlisten Hmedia). simpl.
    split_and!; try done.
    + case_bool_decide as Hm; [by rewrite Hm; destruct matches|].
      rewrite Hactual. by destruct (mode s).
    + intros Hm. rewrite bool_decide_eq_false_2 by done. by apply Hattr.
Qed.

Lemma coherent_exec evs s s' : coherent s → exec evs s = Some s' → coherent s'.
Proof.
  revert s. induction evs as [|e evs IH]; simpl; intros s Hs.
  - by intros [= <-].
  - destruct (step e s) as [s1|] eqn:Hstep; [|done].
    apply IH. by eapply coherent_step.
Qed.

Lemma coherent_initTheme saved media attr meta :
  coherent (initTheme (create true saved media attr meta)).
Proof.
  unfold coherent, initTheme, applyTheme, create. simpl.
  split_and!; try done.
  intros Hmedia. by rewrite (bool_decide_eq_true_2 _ Hmedia).
Qed.

(** X22. The displayed theme follows the mode and the system.  Where
    [localStorage] works, in every state that the store reaches after
    [initTheme], whatever modes are set and however the system preference
    changes: the displayed theme is the mode itself, or the system
    preference when the mode is [auto]; outside auto mode the attribute
    [data-theme] of the root element shows the displayed theme;
    [toggleTheme] always ends in the mode [light] or [dark], the one the
    display did not show, saved and shown by the attribute.  In auto
    mode a change of the system preference changes the displayed theme of
    the store and leaves the attribute as it was. *)
Theorem displayed_theme_follows_mode_and_system saved system attr meta evs s :
  exec evs (initTheme (create true saved system attr meta)) = Some s →
  actualTheme s = resolve (mode s) (media s)
  ∧ actualTheme s ≠ auto
  ∧ (mode s ≠ auto → data_theme s = Some (actualTheme s))
  ∧ (let s' := toggleTheme s in
     mode s' ≠ auto ∧ actualTheme s' = mode s'
     ∧ actualTheme s' ≠ actualTheme s
     ∧ data_theme s' = Some (actualTheme s')
     ∧ stored s' = Some (mode_string (mode s')))
  ∧ (mode s = auto → is_Some (media s) →
     ∀ matches,
       let s' := system_changes matches s in
       actualTheme s' = (if matches then dark else light)
       ∧ data_theme s' = data_theme s).
Proof.
  intros Hexec.
  destruct (coherent_exec evs _ s (coherent_initTheme saved system attr meta)
              Hexec) as (Hworks & Hactual & Hattr & Hlisten).
  split_and!.
  - done.
  - rewrite Hactual. apply resolve_displayed.
  - done.
  - unfold toggleTheme, setTheme, applyTheme. rewrite Hactual.
    destruct (mode s) eqn:Hm; simpl; rewrite Hworks; simpl.
    + by split_and!.
    + by split_and!.
    + destruct (media s) as [[]|]; simpl; by split_and!.
  - intros Hm Hmedia matches. unfold system_changes. simpl.
    rewrite (Hlisten Hmedia), Hm. by simpl.
Qed.

(** A store that starts in auto mode on a light system, which then turns
    dark. *)
Definition auto_then_dark : list event := [SystemChanges true].
Definition auto_store : state :=
  initTheme (create true (Some "auto") (Some false) None (Some "#ffffff")).

Lemma saved_mode_witness :
  mode (create true (stored (setTheme dark auto_store)) (Some false) None None)
  = dark.
Proof.
  destruct (saved_mode_survives_reload dark auto_store) as (_ & _ & Hreload & _);
    [reflexivity|].
  destruct (Hreload (Some false) None None) as [Hmode _]. exact Hmode.
Defined.

Lemma displayed_theme_witness :
  let s := default auto_store (exec auto_then_dark auto_store) in
  actualTheme s = dark ∧ data_theme s = Some light
  ∧ actualTheme s = resolve (mode s) (media s).
Proof.
  intros s. split; [reflexivity|]. split; [reflexivity|].
  assert (exec auto_then_dark
            (initTheme (create true (Some "auto") (Some false) None
                               (Some "#ffffff"))) = Some s) as Hexec
    by reflexivity.
  destruct (displayed_theme_follows_mode_and_system (Some "auto") (Some false)
              None (Some "#ffffff") auto_then_dark s Hexec) as (Hactual & _).
  exact Hactual.
Defined.

End ThemeFacts.
